(** * mathquiz: the quiz coordination kernel

    A shallow embedding of the server routes ([api/answer], [api/join],
    [api/question], [api/leaderboard]), of the question generator
    ([lib/questions.ts]) and of the client's network code ([app/page.tsx]),
    with the properties the specification states about them.

    Server handlers are [async] functions: between two [await]s another
    request may run.  A handler is therefore embedded as a program over the
    storage operations it awaits ([prog]); the same program is run either
    alone ([run]) or interleaved with other requests ([step]). *)

From Stdlib Require Import ZArith QArith Ascii String.
From Stdlib Require Import DecimalString DecimalZ DecimalPos.
From stdpp Require Import base option list gmap fin_maps fin_sets strings sorting.

Local Open Scope Z_scope.

(** ** The data model ([lib/db/models]) *)

(** Document ids ([ObjectId]) are opaque; they are numbered here. *)
Abbreviation ObjectId := nat (only parsing).

Module IPlayer.
Record t : Type := Make {
  username : string;
  score : Z;
  highScore : Z
}.
End IPlayer.

Module IQuestion.
Record t : Type := Make {
  text : string;
  answer : Z;
  isActive : bool;
  winnerId : option ObjectId;
  winnerName : option string;
  createdAt : Z
}.
End IQuestion.

(** ** Numbers

    A JavaScript number is an IEEE-754 double.  The sums, differences and
    products the program takes of its integers are small and exact, and are
    integers here.  The one inexact operation is the product
    [Math.random() * n]: it is rounded to the nearest double, ties to the
    even mantissa, before [Math.floor] sees it. *)

Module Double.

(** A finite double that is not negative: [mantissa × 2^exponent], the
    mantissa below [2^53] and the exponent at least [-1074]; zero and
    the subnormal numbers are among them. *)
Record t : Type := Make { mantissa : Z; exponent : Z }.

Definition finite (d : t) : Prop :=
  0 ≤ mantissa d < 2 ^ 53 ∧ -1074 ≤ exponent d ≤ 971.

Definition value (d : t) : Q :=
  if 0 <=? exponent d then inject_Z (mantissa d * 2 ^ exponent d)
  else mantissa d # Z.to_pos (2 ^ (- exponent d)).

(** [m / 2^s] rounded to the nearest integer, a tie to the even one. *)
Definition nearest_even (m s : Z) : Z :=
  if s <=? 0 then m
  else
    let q := m / 2 ^ s in
    let r := m mod 2 ^ s in
    let half := 2 ^ (s - 1) in
    if r <? half then q
    else if half <? r then q + 1
    else if Z.even q then q else q + 1.

(** [d * n] for an integer [0 ≤ n ≤ 2^53]: the exact product has the
    mantissa [mantissa d × n]; what it has beyond 53 bits is rounded
    off to the nearest, a tie to the even mantissa.  The exponent only
    grows, so the result is never subnormal where the factor is not;
    with [d] below 1 and [n] at most [2^53] the product stays far
    below the largest double. *)
Definition times (d : t) (n : Z) : t :=
  let m := mantissa d * n in
  let s := Z.max 0 (Z.log2 m + 1 - 53) in
  Make (nearest_even m s) (exponent d + s).

(** [Math.floor(d)] *)
Definition floor (d : t) : Z := Z.shiftl (mantissa d) (exponent d).

End Double.

(** The detached task of [api/answer]: [setTimeout(async () => ..., 3000)];
    its closure holds the question id only. *)
Record Timer : Type := { due : Z; rotates : ObjectId }.

(** Everything a handler can read or write: the two collections, the
    pending timers, the wall clock read by [Date.now()], and the values
    [Math.random()] is going to return ([entropy], read at [drawn]). *)
Record World : Type := {
  questions : gmap nat IQuestion.t;
  players : gmap nat IPlayer.t;
  timers : list Timer;
  clock : Z;
  entropy : nat → Double.t;
  drawn : nat
}.

Definition with_questions (qs : gmap nat IQuestion.t) (w : World) : World :=
  {| questions := qs; players := players w; timers := timers w;
     clock := clock w; entropy := entropy w; drawn := drawn w |}.

Definition with_players (ps : gmap nat IPlayer.t) (w : World) : World :=
  {| questions := questions w; players := ps; timers := timers w;
     clock := clock w; entropy := entropy w; drawn := drawn w |}.

Definition with_timers (ts : list Timer) (w : World) : World :=
  {| questions := questions w; players := players w; timers := ts;
     clock := clock w; entropy := entropy w; drawn := drawn w |}.

Definition with_drawn (n : nat) (w : World) : World :=
  {| questions := questions w; players := players w; timers := timers w;
     clock := clock w; entropy := entropy w; drawn := n |}.

Definition with_clock (t : Z) (w : World) : World :=
  {| questions := questions w; players := players w; timers := timers w;
     clock := t; entropy := entropy w; drawn := drawn w |}.

(** ** Storage queries *)

Definition retire (q : IQuestion.t) : IQuestion.t :=
  IQuestion.Make (IQuestion.text q) (IQuestion.answer q) false
    (IQuestion.winnerId q) (IQuestion.winnerName q) (IQuestion.createdAt q).

Definition claim (pid : ObjectId) (name : string) (q : IQuestion.t) : IQuestion.t :=
  IQuestion.Make (IQuestion.text q) (IQuestion.answer q) (IQuestion.isActive q)
    (Some pid) (Some name) (IQuestion.createdAt q).

Definition set_score (s : Z) (p : IPlayer.t) : IPlayer.t :=
  IPlayer.Make (IPlayer.username p) s (IPlayer.highScore p).

(** [.sort({ createdAt: -1 })] followed by [findOne]: the latest of the
    candidates; among equal dates the one the storage lists first. *)
Definition latest (cands : list (nat * IQuestion.t)) : option (nat * IQuestion.t) :=
  foldr (λ x best,
           match best with
           | None => Some x
           | Some y => if IQuestion.createdAt x.2 <? IQuestion.createdAt y.2
                       then Some y else Some x
           end) None cands.

(** [Question.findOne({ isActive: true }).sort({ createdAt: -1 })] *)
Definition findOne_active (qs : gmap nat IQuestion.t) : option (nat * IQuestion.t) :=
  latest (filter (λ x, IQuestion.isActive x.2 = true) (map_to_list qs)).

(** [Player.findOne({ username })] *)
Definition findOne_username (name : string) (ps : gmap nat IPlayer.t)
  : option (nat * IPlayer.t) :=
  head (filter (λ x, IPlayer.username x.2 = name) (map_to_list ps)).

(** [Player.find({}).sort({ score: -1 }).limit(10)] *)
Definition score_desc (a b : nat * IPlayer.t) : Prop :=
  IPlayer.score b.2 ≤ IPlayer.score a.2.

#[global] Instance score_desc_dec : RelDecision score_desc.
Proof. intros a b. unfold score_desc. apply _. Defined.

Definition top10 (ps : gmap nat IPlayer.t) : list (nat * IPlayer.t) :=
  take 10 (merge_sort score_desc (map_to_list ps)).

(** ** Awaited operations and handler programs *)

Inductive op : Type → Type :=
| Question_findById (qid : ObjectId) : op (option IQuestion.t)
| Question_findOne_active : op (option (nat * IQuestion.t))
    (** [Question.findOneAndUpdate({_id, winnerId: null, isActive: true},
        {winnerId, winnerName}, {new: true})] *)
| Question_findOneAndUpdate (qid pid : ObjectId) (name : string) : op (option IQuestion.t)
    (** [Question.findByIdAndUpdate(questionId, { isActive: false })] *)
| Question_findByIdAndUpdate (qid : ObjectId) : op unit
    (** [question.isActive = false; await question.save()]: [save] sends
        the modified path, [isActive], and no other field of the document. *)
| Question_save (qid : ObjectId) : op unit
    (** [Question.create({ text, answer, isActive: true })]: the schema
        fills in [winnerId: null], [winnerName: null] and, by
        [timestamps], [createdAt]. *)
| Question_create (t : string) (a : Z) : op (nat * IQuestion.t)
| Player_findById (pid : ObjectId) : op (option IPlayer.t)
| Player_findOne (name : string) : op (option (nat * IPlayer.t))
    (** [Player.create]; a field left out takes the schema's default, and
        the result [None] is the duplicate-key rejection of the [unique]
        index on [username]. *)
| Player_create (name : string) (s h : option Z) : op (option (nat * IPlayer.t))
    (** [player.score = s; await player.save()] *)
| Player_save (pid : ObjectId) (s : Z) : op unit
    (** [Player.findByIdAndUpdate(playerId, { $inc: { score: 1 } })] *)
| Player_findByIdAndUpdate (pid : ObjectId) : op unit
| Player_find : op (list (nat * IPlayer.t))
| Date_now : op Z
| Math_random : op Double.t
    (** [setTimeout(rotation of qid, delay)] *)
| setTimeout (qid : ObjectId) (delay : Z) : op unit.

Definition exec {X : Type} (o : op X) (w : World) : World * X :=
  match o in op X return World * X with
  | Question_findById qid => (w, questions w !! qid)
  | Question_findOne_active => (w, findOne_active (questions w))
  | Question_findOneAndUpdate qid pid name =>
      match questions w !! qid with
      | Some q =>
          match IQuestion.winnerId q, IQuestion.isActive q with
          | None, true =>
              (with_questions (<[qid := claim pid name q]> (questions w)) w,
               Some (claim pid name q))
          | _, _ => (w, None)
          end
      | None => (w, None)
      end
  | Question_findByIdAndUpdate qid | Question_save qid =>
      match questions w !! qid with
      | Some q => (with_questions (<[qid := retire q]> (questions w)) w, tt)
      | None => (w, tt)
      end
  | Question_create t a =>
      let qid := fresh (dom (questions w)) in
      let q := IQuestion.Make t a true None None (clock w) in
      (with_questions (<[qid := q]> (questions w)) w, (qid, q))
  | Player_findById pid => (w, players w !! pid)
  | Player_findOne name => (w, findOne_username name (players w))
  | Player_create name s h =>
      match findOne_username name (players w) with
      | Some _ => (w, None)
      | None =>
          let pid := fresh (dom (players w)) in
          let p := IPlayer.Make name (default 0 s) (default 0 h) in
          (with_players (<[pid := p]> (players w)) w, Some (pid, p))
      end
  | Player_save pid s =>
      match players w !! pid with
      | Some p => (with_players (<[pid := set_score s p]> (players w)) w, tt)
      | None => (w, tt)
      end
  | Player_findByIdAndUpdate pid =>
      match players w !! pid with
      | Some p =>
          (with_players (<[pid := set_score (IPlayer.score p + 1) p]> (players w)) w, tt)
      | None => (w, tt)
      end
  | Player_find => (w, top10 (players w))
  | Date_now => (w, clock w)
  | Math_random => (with_drawn (S (drawn w)) w, entropy w (drawn w))
  | setTimeout qid delay =>
      (with_timers (timers w ++ [{| due := clock w + delay; rotates := qid |}]) w, tt)
  end.

Inductive prog (R : Type) : Type :=
| Ret (r : R)
| Vis {X : Type} (o : op X) (k : X → prog R).
Arguments Ret {R} r.
Arguments Vis {R X} o k.

Fixpoint bind {A B : Type} (p : prog A) (f : A → prog B) : prog B :=
  match p with
  | Ret a => f a
  | Vis o k => Vis o (λ x, bind (k x) f)
  end.

Notation "'await' x ← o ; k" := (Vis o (λ x, k))
  (at level 10, x binder, o at level 99, k at level 200,
   format "'[v' 'await'  x  ←  o ; '/' k ']'").
Notation "'call' x ← p ; k" := (bind p (λ x, k))
  (at level 10, x binder, p at level 99, k at level 200,
   format "'[v' 'call'  x  ←  p ; '/' k ']'").

(** A handler running alone: every operation follows the previous one
    with nothing in between. *)
Fixpoint run {R : Type} (p : prog R) (w : World) : World * R :=
  match p with
  | Ret r => (w, r)
  | Vis o k => let '(w', x) := exec o w in run (k x) w'
  end.

(** ** The question generator ([lib/questions.ts]) *)

Inductive Operator : Type := Plus | Minus | Times | Divide.

Definition symbol (o : Operator) : string :=
  match o with Plus => "+" | Minus => "−" | Times => "×" | Divide => "÷" end.

Module GeneratedQuestion.
Record t : Type := Make { text : string; answer : Z }.
End GeneratedQuestion.

(** [`${a}`] for an integer [a]. *)
Definition showZ (z : Z) : string := NilZero.string_of_int (Z.to_int z).

(** [Math.floor(Math.random() * (max - min + 1)) + min], for integers
    [min] and [max] of at most 51 bits: the difference, the floor and the
    sum are then exact. *)
Definition randInt (min max : Z) : prog Z :=
  await u ← Math_random ;
  Ret (Double.floor (Double.times u (max - min + 1)) + min).

Definition operators : list Operator := [Plus; Minus; Times; Divide].

(** [arr[i]] for an integer index: [undefined] out of range. *)
Definition index {A : Type} (l : list A) (i : Z) : option A :=
  if i <? 0 then None else l !! Z.to_nat i.

Definition expression (a : Z) (o : Operator) (b : Z) : string :=
  showZ a +:+ " " +:+ symbol o +:+ " " +:+ showZ b.

(** [None] stands for [throw new Error("Unknown operator")]. *)
Definition generateQuestion : prog (option GeneratedQuestion.t) :=
  await u ← Math_random ;
  match index operators (Double.floor (Double.times u (Z.of_nat (length operators)))) with
  | Some Plus =>
      call a ← randInt 10 99 ;
      call b ← randInt 10 99 ;
      Ret (Some (GeneratedQuestion.Make (expression a Plus b) (a + b)))
  | Some Minus =>
      call a ← randInt 20 99 ;
      call b ← randInt 1 a ;
      Ret (Some (GeneratedQuestion.Make (expression a Minus b) (a - b)))
  | Some Times =>
      call a ← randInt 2 12 ;
      call b ← randInt 2 12 ;
      Ret (Some (GeneratedQuestion.Make (expression a Times b) (a * b)))
  | Some Divide =>
      call b ← randInt 2 12 ;
      call answer ← randInt 2 12 ;
      let a := b * answer in
      Ret (Some (GeneratedQuestion.Make (expression a Divide b) answer))
  | None => Ret None
  end.

(** The exact value of [a o b]; a division has one only when it leaves no
    remainder. *)
Definition value (a : Z) (o : Operator) (b : Z) : option Z :=
  match o with
  | Plus => Some (a + b)
  | Minus => Some (a - b)
  | Times => Some (a * b)
  | Divide => if (b =? 0) || negb (a mod b =? 0) then None else Some (a / b)
  end.

(** Reading a question text back: operand, blank, operator, blank, operand. *)
Fixpoint upto_blank (s : string) : string * option string :=
  match s with
  | EmptyString => (EmptyString, None)
  | String c r =>
      if Ascii.eqb c " "%char then (EmptyString, Some r)
      else let '(h, t) := upto_blank r in (String c h, t)
  end.

Definition readZ (s : string) : option Z := Z.of_int <$> NilZero.int_of_string s.

Definition readOperator (s : string) : option Operator :=
  head (filter (λ o, symbol o = s) operators).

Definition parse (s : string) : option (Z * Operator * Z) :=
  let '(l, rest) := upto_blank s in
  r ← rest;
  let '(m, rest') := upto_blank r in
  r' ← rest';
  a ← readZ l; o ← readOperator m; b ← readZ r';
  Some (a, o, b).

Definition evaluate (s : string) : option Z :=
  '(a, o, b) ← parse s; value a o b.

(** What [Math.random()] can return: a double of [[0, 1)]. *)
Definition unit_interval (u : Double.t) : Prop :=
  Double.finite u ∧ (0 <= Double.value u)%Q ∧ (Double.value u < 1)%Q.

(** ** Responses *)

Module LeaderboardEntry.
(** [highScore] is present only where [.select] asks for it. *)
Record t : Type := Make {
  _id : ObjectId;
  username : string;
  score : Z;
  highScore : option Z
}.
End LeaderboardEntry.

(** [NextResponse.json(body, { status })], one constructor per body shape. *)
Inductive Response : Type :=
| Failure (status : Z) (error : string)
| Verdict (correct won : bool) (message : string)
| Session (playerId : ObjectId) (username : string) (score : Z) (highScore : option Z)
| Snapshot (questionId : ObjectId) (text : string) (winnerId : option ObjectId)
    (winnerName : option string) (remainingMs : Z) (leaderboard : list LeaderboardEntry.t)
| Ranking (leaderboard : list LeaderboardEntry.t).

(** [Number(answer)] *)
Inductive JsNumber : Type := NaN | Num (q : Q).

(** ** [api/answer/route.ts] *)

Module AnswerRoute.

(** The task handed to [setTimeout]; its [catch] only logs. *)
Definition rotation (questionId : ObjectId) : prog unit :=
  await _ ← Question_findByIdAndUpdate questionId ;
  call q ← generateQuestion ;
  match q with
  | Some q =>
      await _ ← Question_create (GeneratedQuestion.text q) (GeneratedQuestion.answer q) ;
      Ret tt
  | None => Ret tt
  end.

(** The [try] block from line 15 on, for a body that [req.json()] has
    parsed to an object and ids that cast to an [ObjectId] where they are
    looked up.  An id field is [None] when it is missing or falsy,
    [answer] when it is [undefined] or [null]; otherwise [answer] holds
    [Number(answer)]. *)
Definition POST (playerId questionId : option ObjectId) (answer : option JsNumber)
  : prog Response :=
  match playerId, questionId, answer with
  | Some playerId, Some questionId, Some answer =>
      match answer with
      | NaN => Ret (Failure 400 "Answer must be a number")
      | Num numAnswer =>
          await question ← Question_findById questionId ;
          match question with
          | None => Ret (Failure 404 "Question not found")
          | Some question =>
              if negb (IQuestion.isActive question) then
                Ret (Verdict false false "Question is no longer active")
              else if bool_decide (is_Some (IQuestion.winnerId question)) then
                Ret (Verdict false false "Someone already answered correctly")
              else if negb (Qeq_bool numAnswer (inject_Z (IQuestion.answer question))) then
                Ret (Verdict false false "Wrong answer, try again!")
              else
                await player ← Player_findById playerId ;
                match player with
                | None => Ret (Failure 404 "Player not found")
                | Some player =>
                    await result ←
                      Question_findOneAndUpdate questionId playerId (IPlayer.username player) ;
                    match result with
                    | None => Ret (Verdict true false "Correct, but someone was faster!")
                    | Some _ =>
                        await _ ← Player_findByIdAndUpdate playerId ;
                        await _ ← setTimeout questionId 3000 ;
                        Ret (Verdict true true
                               ("🏆 " +:+ IPlayer.username player +:+ " wins!"))
                    end
                end
          end
      end
  | _, _, _ => Ret (Failure 400 "playerId, questionId, and answer are required")
  end.

(** An id field of the body: [Falsy] when it is missing, [null], [""] or
    falsy otherwise; [Uncastable] when it is anything else that is no
    [ObjectId], so that the lookup by it throws a [CastError]. *)
Inductive Field : Type :=
| Falsy
| Uncastable
| Castable (id : ObjectId).

(** What [await req.json()] gives.  A JSON value that is neither [null]
    nor an object has none of the fields. *)
Inductive Body : Type :=
| Unparsable              (** no JSON: [req.json()] rejects *)
| Null                    (** [null]: the destructuring throws *)
| Parsed (playerId questionId : Field) (answer : option JsNumber).

(** The handler as a whole, lines 6 to 89: whatever is thrown inside
    [try] is answered by [catch] with 500.  [Question.findById] is the
    first to cast [questionId], [Player.findById] the first to cast
    [playerId]. *)
Definition POST_req (body : Body) : prog Response :=
  match body with
  | Unparsable | Null => Ret (Failure 500 "Server error")
  | Parsed playerId questionId answer =>
      match playerId, questionId, answer with
      | Falsy, _, _ | _, Falsy, _ | _, _, None =>
          Ret (Failure 400 "playerId, questionId, and answer are required")
      | _, _, Some NaN => Ret (Failure 400 "Answer must be a number")
      | _, Uncastable, Some (Num _) => Ret (Failure 500 "Server error")
      | Castable playerId, Castable questionId, Some (Num _) =>
          POST (Some playerId) (Some questionId) answer
      | Uncastable, Castable questionId, Some (Num numAnswer) =>
          await question ← Question_findById questionId ;
          match question with
          | None => Ret (Failure 404 "Question not found")
          | Some question =>
              if negb (IQuestion.isActive question) then
                Ret (Verdict false false "Question is no longer active")
              else if bool_decide (is_Some (IQuestion.winnerId question)) then
                Ret (Verdict false false "Someone already answered correctly")
              else if negb (Qeq_bool numAnswer (inject_Z (IQuestion.answer question))) then
                Ret (Verdict false false "Wrong answer, try again!")
              else Ret (Failure 500 "Server error")
          end
      end
  end.

End AnswerRoute.

(** ** [api/join/route.ts] and its second version *)

Definition is_space (c : ascii) : bool :=
  match nat_of_ascii c with
  | 9%nat | 10%nat | 11%nat | 12%nat | 13%nat | 32%nat => true
  | _ => false
  end.

Fixpoint trimStart (s : string) : string :=
  match s with
  | String c r => if is_space c then trimStart r else s
  | EmptyString => EmptyString
  end.

Fixpoint trimEnd (s : string) : string :=
  match s with
  | String c r =>
      match trimEnd r with
      | EmptyString => if is_space c then EmptyString else String c EmptyString
      | r' => String c r'
      end
  | EmptyString => EmptyString
  end.

(** [String.prototype.trim], on the white space of the ASCII range. *)
Definition trim (s : string) : string := trimEnd (trimStart s).

(** The strings of the model are strings of ASCII characters: there a
    character is one code unit and one byte, and the white space above is
    all the white space [trim] strips.  Names with other characters are not
    modelled. *)
Fixpoint plain (s : string) : bool :=
  match s with
  | String c r => (nat_of_ascii c <? 128)%nat && plain r
  | EmptyString => true
  end.

(** What [await req.json()] gives a join route.  A JSON value that is
    neither [null] nor an object has no [username]. *)
Module JoinBody.
Inductive Field : Type :=
| Falsy                   (** missing, [null], [""], [0], [false] *)
| NotString               (** truthy without a [trim] method: the call throws *)
| Str (s : string).

Inductive t : Type :=
| Unparsable              (** no JSON: [req.json()] rejects *)
| Null                    (** [null]: the destructuring throws *)
| Parsed (username : Field).
End JoinBody.

Module JoinRoute.

(** The [try] block from line 10 on, for a body that [req.json()] has
    parsed to an object whose [username] is missing or falsy ([None]) or
    a string; a rejected [Player.create] is answered by [catch]. *)

Definition POST (username : option string) : prog Response :=
  match username with
  | Some username =>
      if bool_decide (username = EmptyString) || (String.length (trim username) =? 0)%nat
      then Ret (Failure 400 "Username is required")
      else
        let trimmed := substring 0 20 (trim username) in
        await player ← Player_findOne trimmed ;
        match player with
        | Some (_id, player) =>
            Ret (Session _id (IPlayer.username player) (IPlayer.score player) None)
        | None =>
            await player ← Player_create trimmed (Some 0) None ;
            match player with
            | Some (_id, player) =>
                Ret (Session _id (IPlayer.username player) (IPlayer.score player) None)
            | None => Ret (Failure 500 "Server error")
            end
        end
  | None => Ret (Failure 400 "Username is required")
  end.

(** The handler as a whole: whatever is thrown is answered with 500. *)
Definition POST_req (body : JoinBody.t) : prog Response :=
  match body with
  | JoinBody.Unparsable | JoinBody.Null => Ret (Failure 500 "Server error")
  | JoinBody.Parsed JoinBody.Falsy => POST None
  | JoinBody.Parsed JoinBody.NotString => Ret (Failure 500 "Server error")
  | JoinBody.Parsed (JoinBody.Str username) => POST (Some username)
  end.

End JoinRoute.

(** [unnamed/part_001]: the join route that starts a new session. *)
Module JoinRoute2.

Definition POST (username : option string) : prog Response :=
  match username with
  | Some username =>
      if bool_decide (username = EmptyString) || (String.length (trim username) =? 0)%nat
      then Ret (Failure 400 "Username is required")
      else
        let trimmed := substring 0 20 (trim username) in
        await player ← Player_findOne trimmed ;
        match player with
        | Some (_id, player) =>
            await _ ← Player_save _id 0 ;
            let player := set_score 0 player in
            Ret (Session _id (IPlayer.username player) (IPlayer.score player)
                   (Some (IPlayer.highScore player)))
        | None =>
            await player ← Player_create trimmed (Some 0) (Some 0) ;
            match player with
            | Some (_id, player) =>
                Ret (Session _id (IPlayer.username player) (IPlayer.score player)
                       (Some (IPlayer.highScore player)))
            | None => Ret (Failure 500 "Server error")
            end
        end
  | None => Ret (Failure 400 "Username is required")
  end.

Definition POST_req (body : JoinBody.t) : prog Response :=
  match body with
  | JoinBody.Unparsable | JoinBody.Null => Ret (Failure 500 "Server error")
  | JoinBody.Parsed JoinBody.Falsy => POST None
  | JoinBody.Parsed JoinBody.NotString => Ret (Failure 500 "Server error")
  | JoinBody.Parsed (JoinBody.Str username) => POST (Some username)
  end.

End JoinRoute2.

(** ** [unnamed/part_002]: the leaderboard and question routes *)

Module LeaderboardRoute.

(** [.select("username score highScore")] *)
Definition select (x : nat * IPlayer.t) : LeaderboardEntry.t :=
  LeaderboardEntry.Make x.1 (IPlayer.username x.2) (IPlayer.score x.2)
    (Some (IPlayer.highScore x.2)).

Definition GET : prog Response :=
  await leaderboard ← Player_find ;
  Ret (Ranking (select <$> leaderboard)).

End LeaderboardRoute.

Module QuestionRoute.

Definition QUESTION_TIMEOUT_MS : Z := 60000.

(** [.select("username score")] *)
Definition select (x : nat * IPlayer.t) : LeaderboardEntry.t :=
  LeaderboardEntry.Make x.1 (IPlayer.username x.2) (IPlayer.score x.2) None.

(** [generateQuestion()] followed by [Question.create]; [None] when the
    generator throws. *)
Definition create : prog (option (nat * IQuestion.t)) :=
  call q ← generateQuestion ;
  match q with
  | Some q =>
      await question ←
        Question_create (GeneratedQuestion.text q) (GeneratedQuestion.answer q) ;
      Ret (Some question)
  | None => Ret None
  end.

Definition GET : prog Response :=
  await question ← Question_findOne_active ;
  call question ←
    match question with
    | None => create
    | Some (_id, question) =>
        if bool_decide (is_Some (IQuestion.winnerId question))
        then Ret (Some (_id, question))
        else
          await now ← Date_now ;
          if now - IQuestion.createdAt question >? QUESTION_TIMEOUT_MS then
            await _ ← Question_save _id ;
            create
          else Ret (Some (_id, question))
    end ;
  match question with
  | Some (_id, question) =>
      await leaderboard ← Player_find ;
      await now ← Date_now ;
      let elapsed := now - IQuestion.createdAt question in
      let remainingMs := Z.max 0 (QUESTION_TIMEOUT_MS - elapsed) in
      Ret (Snapshot _id (IQuestion.text question) (IQuestion.winnerId question)
             (IQuestion.winnerName question) remainingMs (select <$> leaderboard))
  | None => Ret (Failure 500 "Server error")
  end.

End QuestionRoute.

(** ** Requests in flight

    The server handles a request up to its next [await], then any other
    request, a due timer or nothing at all may take its turn. *)

Inductive Request : Type :=
| PostAnswer (playerId questionId : option ObjectId) (answer : option JsNumber)
| PostJoin (username : option string)
| PostJoin2 (username : option string)
| GetQuestion
| GetLeaderboard
| PostAnswerReq (body : AnswerRoute.Body).

Definition handler (r : Request) : prog Response :=
  match r with
  | PostAnswer playerId questionId answer => AnswerRoute.POST playerId questionId answer
  | PostJoin username => JoinRoute.POST username
  | PostJoin2 username => JoinRoute2.POST username
  | GetQuestion => QuestionRoute.GET
  | GetLeaderboard => LeaderboardRoute.GET
  | PostAnswerReq body => AnswerRoute.POST_req body
  end.

Inductive thread : Type :=
| Serving (r : Request) (p : prog Response)
| Detached (p : prog unit).

Record System : Type := { world : World; pool : list thread }.

Definition boot (w : World) (reqs : list Request) : System :=
  {| world := w; pool := (λ r, Serving r (handler r)) <$> reqs |}.

Inductive action : Type :=
| Advance (i : nat)     (** thread [i] runs its next operation *)
| Tick (d : Z)          (** [d] ms pass *)
| Fire (i : nat).       (** pending timer [i] is due and starts its task *)

Definition advance (t : thread) (w : World) : option (World * thread) :=
  match t with
  | Serving r (Vis o k) => let '(w', x) := exec o w in Some (w', Serving r (k x))
  | Detached (Vis o k) => let '(w', x) := exec o w in Some (w', Detached (k x))
  | Serving _ (Ret _) | Detached (Ret _) => None
  end.

Definition perform (a : action) (s : System) : option System :=
  match a with
  | Advance i =>
      t ← pool s !! i;
      '(w', t') ← advance t (world s);
      Some {| world := w'; pool := <[i := t']> (pool s) |}
  | Tick d =>
      if 0 <=? d
      then Some {| world := with_clock (clock (world s) + d) (world s); pool := pool s |}
      else None
  | Fire i =>
      t ← timers (world s) !! i;
      if due t <=? clock (world s)
      then Some {| world := with_timers (delete i (timers (world s))) (world s);
                   pool := pool s ++ [Detached (AnswerRoute.rotation (rotates t))] |}
      else None
  end.

Fixpoint execute (acts : list action) (s : System) : option System :=
  match acts with
  | [] => Some s
  | a :: acts => s' ← perform a s; execute acts s'
  end.

Definition finished (t : thread) : bool :=
  match t with
  | Serving _ (Ret _) | Detached (Ret _) => true
  | _ => false
  end.

(** ** The client ([app/page.tsx]) *)

Module QuestionData.
Record t : Type := Make {
  questionId : ObjectId;
  text : string;
  winnerId : option ObjectId;
  winnerName : option string;
  remainingMs : Z;
  leaderboard : list LeaderboardEntry.t
}.
End QuestionData.

(** What the network does with one attempt when nothing aborts it. *)
Inductive Wire (A : Type) : Type :=
| Responds (after : Z) (res : A)
| Breaks (after : Z) (err : string)
| Hangs.
Arguments Responds {A} after res.
Arguments Breaks {A} after err.
Arguments Hangs {A}.

Inductive Settled (A : Type) : Type :=
| Resolved (res : A)
| Rejected (err : string).
Arguments Resolved {A} res.
Arguments Rejected {A} err.

(** [fetch(url, { signal })] under [setTimeout(() => controller.abort(),
    8000)]: how long the attempt lasted and how it settled. An answer
    arriving at the very instant of the abort counts as aborted. *)
Definition fetch {A : Type} (b : Wire A) : Z * Settled A :=
  match b with
  | Responds t res =>
      if t <? 8000 then (t, Resolved res) else (8000, Rejected "AbortError")
  | Breaks t err =>
      if t <? 8000 then (t, Rejected err) else (8000, Rejected "AbortError")
  | Hangs => (8000, Rejected "AbortError")
  end.

(** What [fetchWithRetry] did, in order: an attempt and the time it
    took, or a pause of [ms] milliseconds. *)
Inductive Event : Type :=
| attempted (url : string) (attempt : Z) (elapsed : Z)
| waited (ms : Z).

(** The delays [setTimeout] takes as they are: the integers of
    [[0, 2^31 - 1]]. *)
Definition fits (ms : Z) : bool := (0 <=? ms) && (ms <=? 2147483647).

Inductive Outcome (A : Type) : Type :=
| Returned (res : A)
| Thrown (lastError : option string).
Arguments Returned {A} res.
Arguments Thrown {A} lastError.

(** The [for] loop of [fetchWithRetry] from [attempt] on, for integers
    [maxRetries] and [baseDelay]: what it does and how it ends; [net] tells
    what the network does with each attempt.  [None] when the fuel does not
    cover the loop, and when the loop comes to a pause whose delay
    [setTimeout] would not take as it is: such calls are not modelled. *)
Fixpoint attempts {A : Type} (fuel : nat) (net : Z → Wire A) (url : string)
    (maxRetries baseDelay : Z) (attempt : Z) (lastError : option string)
  : option (list Event * Outcome A) :=
  match fuel with
  | O => None
  | S fuel =>
      if attempt <=? maxRetries then
        let '(elapsed, settled) := fetch (net attempt) in
        match settled with
        | Resolved res => Some ([attempted url attempt elapsed], Returned res)
        | Rejected err =>
            if (attempt <? maxRetries) && negb (fits (baseDelay * 2 ^ attempt)) then None
            else
              let pause :=
                if attempt <? maxRetries then [waited (baseDelay * 2 ^ attempt)] else [] in
              '(log, outcome) ←
                attempts fuel net url maxRetries baseDelay (attempt + 1) (Some err);
              Some (attempted url attempt elapsed :: pause ++ log, outcome)
        end
      else Some ([], Thrown lastError)
  end.

(** [fetchWithRetry(url, options, maxRetries = 3, baseDelay = 500)] *)
Definition fetchWithRetry {A : Type} (net : Z → Wire A) (url : string)
    (maxRetries baseDelay : option Z) : option (list Event * Outcome A) :=
  let maxRetries := default 3 maxRetries in
  let baseDelay := default 500 baseDelay in
  attempts (S (Z.to_nat (maxRetries + 1))) net url maxRetries baseDelay 0 None.

Inductive Status : Type := connected | reconnecting | offline.

Inductive FeedbackType : Type := success | error | info.

Module HttpResponse.
(** [json] is [None] when [res.json()] rejects. *)
Record t (A : Type) : Type := Make { ok : bool; json : option A }.
Arguments Make {A} ok json.
Arguments ok {A} _.
Arguments json {A} _.
End HttpResponse.

Record Client : Type := {
  question : option QuestionData.t;
  answerInput : string;
  feedback : option (string * FeedbackType);
  timeLeft : Z;
  connectionStatus : Status;
  consecutiveFailures : Z;
  pollIntervalRef : Z;
  lastQuestionId : option ObjectId
}.

Definition mounted : Client :=
  {| question := None; answerInput := EmptyString; feedback := None; timeLeft := 60;
     connectionStatus := connected; consecutiveFailures := 0; pollIntervalRef := 1500;
     lastQuestionId := None |}.

Definition with_health (st : Status) (f i : Z) (c : Client) : Client :=
  {| question := question c; answerInput := answerInput c; feedback := feedback c;
     timeLeft := timeLeft c; connectionStatus := st; consecutiveFailures := f;
     pollIntervalRef := i; lastQuestionId := lastQuestionId c |}.

(** [Math.ceil(ms / 1000)] *)
Definition seconds (ms : Z) : Z := - ((- ms) / 1000).

(** The [try] block of [fetchQuestion] once the response has been parsed. *)
Definition received (data : QuestionData.t) (c : Client) : Client :=
  let c :=
    {| question := Some data; answerInput := answerInput c; feedback := feedback c;
       timeLeft := seconds (QuestionData.remainingMs data);
       connectionStatus := connectionStatus c;
       consecutiveFailures := consecutiveFailures c;
       pollIntervalRef := pollIntervalRef c; lastQuestionId := lastQuestionId c |} in
  let c :=
    if 0 <? consecutiveFailures c then with_health connected 0 1500 c else c in
  if bool_decide (Some (QuestionData.questionId data) ≠ lastQuestionId c) then
    {| question := question c; answerInput := EmptyString;
       feedback := if bool_decide (is_Some (QuestionData.winnerId data))
                   then feedback c else None;
       timeLeft := timeLeft c; connectionStatus := connectionStatus c;
       consecutiveFailures := consecutiveFailures c;
       pollIntervalRef := pollIntervalRef c;
       lastQuestionId := Some (QuestionData.questionId data) |}
  else c.

(** The [catch] block of [fetchQuestion]. *)
Definition failed (c : Client) : Client :=
  let f := consecutiveFailures c + 1 in
  if 5 <=? f then with_health offline f 10000 c
  else if 2 <=? f then with_health reconnecting f 4000 c
  else with_health (connectionStatus c) f (pollIntervalRef c) c.

(** The request of [fetchQuestion]:
    [fetchWithRetry("/api/question", undefined, 1, 300)]. *)
Definition pollQuestion {A : Type} (net : Z → Wire A) : option (list Event * Outcome A) :=
  fetchWithRetry net "/api/question" (Some 1) (Some 300).

Definition fetchQuestion (net : Z → Wire (HttpResponse.t QuestionData.t)) (c : Client)
  : option Client :=
  '(_, outcome) ← pollQuestion net;
  Some match outcome with
       | Returned res =>
           if negb (HttpResponse.ok res) then c
           else match HttpResponse.json res with
                | Some data => received data c
                | None => failed c
                end
       | Thrown _ => failed c
       end.

Definition goOffline (c : Client) : Client :=
  with_health offline (consecutiveFailures c) (pollIntervalRef c) c.

Definition goOnline (c : Client) : Client := with_health connected 0 1500 c.

(** The request of [handleSubmit]: [fetchWithRetry("/api/answer", ..., 2, 300)]. *)
Definition submitAnswer {A : Type} (net : Z → Wire A) : option (list Event * Outcome A) :=
  fetchWithRetry net "/api/answer" (Some 2) (Some 300).

(** What can happen to a client between two reschedules of its poll. *)
Inductive Happening : Type :=
| Polls (net : Z → Wire (HttpResponse.t QuestionData.t))
| BrowserOffline
| BrowserOnline.

Definition happen (h : Happening) (c : Client) : option Client :=
  match h with
  | Polls net => fetchQuestion net c
  | BrowserOffline => Some (goOffline c)
  | BrowserOnline => Some (goOnline c)
  end.

Fixpoint session (hs : list Happening) (c : Client) : option Client :=
  match hs with
  | [] => Some c
  | h :: hs => c' ← happen h c; session hs c'
  end.

(** A poll that succeeded: an attempt was answered in time with an OK
    response whose body parses. *)
Definition succeeds (net : Z → Wire (HttpResponse.t QuestionData.t)) : Prop :=
  ∃ log res data,
    fetchWithRetry net "/api/question" (Some 1) (Some 300) = Some (log, Returned res)
    ∧ HttpResponse.ok res = true ∧ HttpResponse.json res = Some data.

(** ** Auxiliary notions used in the statements *)

Fixpoint blankfree (s : string) : bool :=
  match s with
  | EmptyString => true
  | String c r => negb (Ascii.eqb c " "%char) && blankfree r
  end.

(** The six outcomes the specification lists for an answer. *)
Definition specified (r : Response) : Prop :=
  r = Failure 404 "Question not found"
  ∨ r = Verdict false false "Question is no longer active"
  ∨ r = Verdict false false "Someone already answered correctly"
  ∨ r = Verdict false false "Wrong answer, try again!"
  ∨ r = Verdict true false "Correct, but someone was faster!"
  ∨ ∃ name, r = Verdict true true ("🏆 " +:+ name +:+ " wins!").

(** The outcomes of the code: those six, the two validation failures and
    the unknown player. *)
Definition outcome (r : Response) : Prop :=
  r = Failure 400 "playerId, questionId, and answer are required"
  ∨ r = Failure 400 "Answer must be a number"
  ∨ r = Failure 404 "Player not found"
  ∨ specified r.

(** Every answer a program can end with satisfies [P]. *)
Fixpoint replies {R : Type} (P : R → Prop) (p : prog R) : Prop :=
  match p with
  | Ret r => P r
  | Vis o k => ∀ x, replies P (k x)
  end.

(** Every operation a program can come to satisfies [P]. *)
Fixpoint uses {R : Type} (P : ∀ X, op X → Prop) (p : prog R) : Prop :=
  match p with
  | Ret _ => True
  | Vis o k => P _ o ∧ ∀ x, uses P (k x)
  end.

Definition touches_players {X : Type} (o : op X) : bool :=
  match o with
  | Player_create _ _ _ | Player_save _ _ | Player_findByIdAndUpdate _ => true
  | _ => false
  end.

Definition quiet {R : Type} (p : prog R) : Prop :=
  uses (λ X o, touches_players o = false) p.

(** How far an answer request has come: it has not claimed the win, it has
    claimed it and owes the score, or it has paid the score. *)
Inductive Phase : Type := Pending | Claimed | Credited.

#[global] Instance Phase_eq_dec : EqDecision Phase.
Proof. solve_decision. Defined.

Definition phase (p : prog Response) : Phase :=
  match p with
  | Ret (Verdict true true _) => Credited
  | Ret _ => Pending
  | Vis o _ =>
      match o with
      | Player_findByIdAndUpdate _ => Claimed
      | setTimeout _ _ => Credited
      | _ => Pending
      end
  end.

(** The operations an answer request may perform in each phase, and the
    phase each result leads to: only a successful claim of its own question
    for its own player leaves [Pending], only the increment of that player's
    score leaves [Claimed]. *)
Definition legal (playerId questionId : option ObjectId) (ph : Phase)
    {X : Type} (o : op X) : X → Phase → Prop :=
  match o in op X return X → Phase → Prop with
  | Question_findById _ | Player_findById _ => λ _ ph', ph = Pending ∧ ph' = Pending
  | Question_findOneAndUpdate q p _ =>
      λ x ph', ph = Pending ∧ questionId = Some q ∧ playerId = Some p
               ∧ ph' = match x with Some _ => Claimed | None => Pending end
  | Player_findByIdAndUpdate p =>
      λ _ ph', ph = Claimed ∧ playerId = Some p ∧ ph' = Credited
  | setTimeout _ _ => λ _ ph', ph = Credited ∧ ph' = Credited
  | _ => λ _ _, False
  end.

Fixpoint conforms (playerId questionId : option ObjectId) (p : prog Response) : Prop :=
  match p with
  | Ret _ => True
  | Vis o k =>
      ∀ x, legal playerId questionId (phase (Vis o k)) o x (phase (k x))
           ∧ conforms playerId questionId (k x)
  end.

Definition is_answer (r : Request) : Prop :=
  match r with PostAnswer _ _ _ => True | _ => False end.

(** Threads of a pool that satisfy [f]. *)
Fixpoint tally (f : thread → bool) (l : list thread) : nat :=
  match l with
  | [] => 0%nat
  | t :: l => ((if f t then 1 else 0) + tally f l)%nat
  end.

(** The thread answers question [q] and has claimed it. *)
Definition holds (q : ObjectId) (t : thread) : bool :=
  match t with
  | Serving (PostAnswer _ (Some q') _) p =>
      bool_decide (q' = q) && negb (bool_decide (phase p = Pending))
  | _ => false
  end.

(** The thread answers question [q] and has incremented a score for it. *)
Definition paid_for (q : ObjectId) (t : thread) : bool :=
  match t with
  | Serving (PostAnswer _ (Some q') _) p =>
      bool_decide (q' = q) && bool_decide (phase p = Credited)
  | _ => false
  end.

(** The thread answers for player [pid] and has incremented their score. *)
Definition paid_to (pid : ObjectId) (t : thread) : bool :=
  match t with
  | Serving (PostAnswer (Some pid') _ _) p =>
      bool_decide (pid' = pid) && bool_decide (phase p = Credited)
  | _ => false
  end.

(** The thread has answered ["accepted: win"] for question [q]. *)
Definition won (q : ObjectId) (t : thread) : bool :=
  match t with
  | Serving (PostAnswer _ (Some q') _) (Ret (Verdict true true _)) => bool_decide (q' = q)
  | _ => false
  end.

(** The attempts a log records. *)
Definition is_attempt (e : Event) : bool :=
  match e with attempted _ _ _ => true | waited _ => false end.

Definition tries (log : list Event) : nat :=
  length (filter (λ e, is_attempt e = true) log).

(** The attempt fails: the network breaks it, or the abort does. *)
Definition fails {A : Type} (b : Wire A) : Prop := ∃ err, (fetch b).2 = Rejected err.

(** The linkage between failure counter, status and poll interval. *)
Definition linked (c : Client) : Prop :=
  let f := consecutiveFailures c in
  0 ≤ f
  ∧ (f = 0 → connectionStatus c = connected ∧ pollIntervalRef c = 1500)
  ∧ (1 ≤ f < 2 → connectionStatus c = connected ∧ pollIntervalRef c = 1500)
  ∧ (2 ≤ f < 5 → connectionStatus c = reconnecting ∧ pollIntervalRef c = 4000)
  ∧ (5 ≤ f → connectionStatus c = offline ∧ pollIntervalRef c = 10000).

Definition recovered (c : Client) : Prop :=
  consecutiveFailures c = 0 ∧ connectionStatus c = connected ∧ pollIntervalRef c = 1500.

(** What the pool of a mixed load, and of a load of answers only, holds. *)
Definition typed (t : thread) : Prop :=
  match t with
  | Serving (PostAnswer playerId questionId _) p => conforms playerId questionId p
  | Serving _ _ | Detached _ => True
  end.

Definition batch_typed (t : thread) : Prop :=
  match t with
  | Serving (PostAnswer playerId questionId _) p => conforms playerId questionId p
  | Serving _ _ => False
  | Detached p => quiet p
  end.

(** The outcomes of any request to the route: those nine and the 500 of
    the [catch] block. *)
Definition caught (r : Response) : Prop :=
  outcome r ∨ r = Failure 500 "Server error".

Definition answering (t : thread) : Prop :=
  match t with
  | Serving (PostAnswer _ _ _) p => replies outcome p
  | Serving (PostAnswerReq _) p => replies caught p
  | Serving _ _ | Detached _ => True
  end.

(** At most one thread holds a question, and then the question has a
    winner. *)
Definition one_holder (s : System) : Prop :=
  Forall typed (pool s)
  ∧ ∀ q, tally (holds q) (pool s) = 0%nat
         ∨ (tally (holds q) (pool s) = 1%nat
            ∧ ∃ qu, questions (world s) !! q = Some qu
                    ∧ is_Some (IQuestion.winnerId qu)).

(** Every player of [w0] has the score of [w0] plus one point for every
    thread that has paid them. *)
Definition accounted (w0 : World) (s : System) : Prop :=
  Forall batch_typed (pool s)
  ∧ ∀ pid p0, players w0 !! pid = Some p0 →
      ∃ p, players (world s) !! pid = Some p
           ∧ IPlayer.username p = IPlayer.username p0
           ∧ IPlayer.highScore p = IPlayer.highScore p0
           ∧ IPlayer.score p
             = IPlayer.score p0 + Z.of_nat (tally (paid_to pid) (pool s)).

(** The request asks about question [q]. *)
Definition asks (q : ObjectId) (r : Request) : Prop :=
  match r with PostAnswer _ (Some q') _ => q' = q | _ => False end.

(** The thread serves one of [calls], or is a detached task. *)
Definition issued (calls : list Request) (t : thread) : Prop :=
  match t with Serving r _ => r ∈ calls | Detached _ => True end.

(** ** Sample data *)

Definition ann : IPlayer.t := IPlayer.Make "ann" 3 7.
Definition bob : IPlayer.t := IPlayer.Make "bob" 0 0.

Definition seven_by_eight : IQuestion.t := IQuestion.Make "7 × 8" 56 true None None 0.

(** The question above once [ann] has won it. *)
Definition seven_by_eight_won : IQuestion.t := claim 0%nat "ann" seven_by_eight.

(** One question, two players, no timer pending, at time [now]. *)
Definition quiz (q : IQuestion.t) (now : Z) : World :=
  {| questions := {[ 0%nat := q ]};
     players := {[ 0%nat := ann; 1%nat := bob ]};
     timers := [];
     clock := now;
     entropy := λ _, Double.Make 1 (-1);
     drawn := 0 |}.

(** The question is exactly 60000 ms old; one ms older; won long ago with
    its grace-delay task lost. *)
Definition at_boundary : World := quiz seven_by_eight 60000.
Definition expired : World := quiz seven_by_eight 60001.
Definition abandoned : World := quiz seven_by_eight_won 1000000.

(** A network that never answers, and one that answers every attempt in
    20 ms with the snapshot of the question above. *)
Definition dead {A : Type} : Z → Wire A := λ _, Hangs.

Definition snapshot : QuestionData.t :=
  QuestionData.Make 0%nat "7 × 8" None None 59000 [].

Definition healthy : Z → Wire (HttpResponse.t QuestionData.t) :=
  λ _, Responds 20 (HttpResponse.Make true (Some snapshot)).

(** [ann] and [bob] both submit 56 for the question above. *)
Definition race : list Request :=
  [PostAnswer (Some 0%nat) (Some 0%nat) (Some (Num (56 # 1)));
   PostAnswer (Some 1%nat) (Some 0%nat) (Some (Num (56 # 1)))].

(** Both read the question and their player before either claims; [ann]
    claims first; the timer of her win fires after the grace delay. *)
Definition photo_finish : list action :=
  [Advance 0; Advance 1; Advance 0; Advance 1; Advance 0; Advance 1;
   Advance 0; Advance 0; Tick 3000; Fire 0;
   Advance 2; Advance 2; Advance 2; Advance 2; Advance 2].

(** Two new players ask for the same name at the same time: both look the
    name up before either creates it. *)
Definition twins : list Request := [PostJoin2 (Some "cy"); PostJoin2 (Some "cy")].
Definition collision : list action := [Advance 0; Advance 1; Advance 0; Advance 1].

(** ** Further notions *)

(** No two stored players bear the same name. *)
Definition unique_names (ps : gmap nat IPlayer.t) : Prop :=
  ∀ i j p q, ps !! i = Some p → ps !! j = Some q →
             IPlayer.username p = IPlayer.username q → i = j.

(** What a stored question may become: it stays stored with its text,
    answer and date; once retired it stays retired; once won it keeps its
    winner. *)
Definition evolves (q q' : IQuestion.t) : Prop :=
  IQuestion.text q' = IQuestion.text q
  ∧ IQuestion.answer q' = IQuestion.answer q
  ∧ IQuestion.createdAt q' = IQuestion.createdAt q
  ∧ (IQuestion.isActive q = false → IQuestion.isActive q' = false)
  ∧ (is_Some (IQuestion.winnerId q) →
     IQuestion.winnerId q' = IQuestion.winnerId q
     ∧ IQuestion.winnerName q' = IQuestion.winnerName q).

(** ** Requests served one at a time

    A server that finishes each request, and each timer task, before it
    takes the next one up. *)

Inductive event : Type :=
| Handle (r : Request)   (** a request is served from start to end *)
| Elapse (d : Z)         (** [d] ms pass *)
| Expire (i : nat).      (** pending timer [i] is due; its task runs to its end *)

Definition occur (e : event) (w : World) : option World :=
  match e with
  | Handle r => Some (run (handler r) w).1
  | Elapse d => if 0 <=? d then Some (with_clock (clock w + d) w) else None
  | Expire i =>
      t ← timers w !! i;
      if due t <=? clock w
      then Some (run (AnswerRoute.rotation (rotates t))
                   (with_timers (delete i (timers w)) w)).1
      else None
  end.

Fixpoint history (es : list event) (w : World) : option World :=
  match es with
  | [] => Some w
  | e :: es => w' ← occur e w; history es w'
  end.

Definition single_active (qs : gmap nat IQuestion.t) : Prop :=
  ∀ i j qi qj, qs !! i = Some qi → qs !! j = Some qj →
               IQuestion.isActive qi = true → IQuestion.isActive qj = true → i = j.

(** At most one question is active, at most one timer is pending, and a
    pending timer is for an active question that has a winner. *)
Definition orderly (w : World) : Prop :=
  (∀ n, unit_interval (entropy w n))
  ∧ single_active (questions w)
  ∧ (length (timers w) ≤ 1)%nat
  ∧ ∀ t, t ∈ timers w →
         ∃ q, questions w !! rotates t = Some q
              ∧ IQuestion.isActive q = true ∧ is_Some (IQuestion.winnerId q).

(** [bob] wins the question; three seconds later its timer task runs; then
    a poll and a late answer arrive. *)
Definition evening : list event :=
  [Handle (PostAnswer (Some 1%nat) (Some 0%nat) (Some (Num (56 # 1))));
   Elapse 3000; Expire 0; Handle GetQuestion;
   Handle (PostAnswer (Some 0%nat) (Some 0%nat) (Some (Num (56 # 1))))].

(** ** Time spent in [fetchWithRetry] *)

Definition lasts (e : Event) : Z :=
  match e with attempted _ _ elapsed => elapsed | waited ms => ms end.

Definition duration (log : list Event) : Z := foldr (λ e t, lasts e + t) 0 log.

(** ** Submitting an answer ([handleSubmit]) *)

Definition status (r : Response) : Z :=
  match r with Failure s _ => s | _ => 200 end.

(** A route's response as the client gets it: [res.ok] and [res.json()]. *)
Definition reply (r : Response) : HttpResponse.t Response :=
  HttpResponse.Make ((200 <=? status r) && (status r <=? 299)) (Some r).

(** The fields [handleSubmit] reads of the body; a body without the field
    yields [undefined], which is falsy. *)
Definition won_of (data : Response) : bool :=
  match data with Verdict _ won _ => won | _ => false end.

Definition correct_of (data : Response) : bool :=
  match data with Verdict correct _ _ => correct | _ => false end.

Definition message_of (data : Response) : option string :=
  match data with Verdict _ _ message => Some message | _ => None end.

(** [message || fallback] *)
Definition or_else (message : option string) (fallback : string) : string :=
  match message with
  | Some (String c s) => String c s
  | Some EmptyString | None => fallback
  end.

Definition with_form (input : string) (fb : option (string * FeedbackType)) (c : Client)
  : Client :=
  {| question := question c; answerInput := input; feedback := fb;
     timeLeft := timeLeft c; connectionStatus := connectionStatus c;
     consecutiveFailures := consecutiveFailures c;
     pollIntervalRef := pollIntervalRef c; lastQuestionId := lastQuestionId c |}.

(** The body [handleSubmit] sends; [number] is [Number(answerInput)], and
    [JSON.stringify] writes [NaN] as [null]. *)
Definition submission (playerId : option ObjectId) (number : JsNumber) (c : Client)
  : Request :=
  PostAnswer playerId (QuestionData.questionId <$> question c)
    match number with NaN => None | Num q => Some (Num q) end.

(** [playerId] and [submitting] are state of the page outside [Client]. *)
Definition handleSubmit (net : Z → Wire (HttpResponse.t Response))
    (playerId : option ObjectId) (submitting : bool) (c : Client) : option Client :=
  if match playerId with None => true | Some _ => false end
     || match question c with None => true | Some _ => false end
     || submitting
     || bool_decide (trim (answerInput c) = EmptyString)
  then Some c
  else
    '(_, outcome) ← submitAnswer net;
    Some match outcome with
         | Returned res =>
             match HttpResponse.json res with
             | Some data =>
                 let fb :=
                   if won_of data then (default EmptyString (message_of data), success)
                   else if correct_of data
                        then (default EmptyString (message_of data), info)
                        else (or_else (message_of data) "Wrong answer!", error) in
                 with_form (if correct_of data then answerInput c else EmptyString)
                   (Some fb) c
             | None =>
                 with_form (answerInput c)
                   (Some ("Network error. Please try again.", error)) c
             end
         | Thrown _ =>
             with_form (answerInput c)
               (Some ("Network error. Please try again.", error)) c
         end.

(** [d] ms pass on the server: every timer that falls due in them runs
    its task to the end at the time it is due, or at once when it is
    overdue, in the order the timers were set; the others stay pending. *)
Definition lapse (d : Z) (w : World) : World :=
  let now := clock w + d in
  with_clock now
    (foldl (λ w t,
              if due t <=? now
              then (run (AnswerRoute.rotation (rotates t))
                      (with_clock (Z.max (clock w) (due t)) w)).1
              else with_timers (timers w ++ [t]) w)
       (with_timers [] w) (timers w)).

(** The network of [handleSubmit] when every attempt reaches the server
    and its response arrives [lag attempt] ms after it was made.  A
    response that comes too late has its attempt aborted after 8000 ms;
    the client pauses [300 × 2^attempt] ms and sends the next attempt,
    which so reaches the server that much later than the one before.
    [reached r n w] is the store on which attempt [n] is served,
    [served r n w] the store once [n] attempts have been. *)
Fixpoint reached (r : Request) (n : nat) (w : World) : World :=
  match n with
  | O => w
  | S k => lapse (8000 + 300 * 2 ^ Z.of_nat k) (run (handler r) (reached r k w)).1
  end.

Definition served (r : Request) (n : nat) (w : World) : World :=
  match n with
  | O => w
  | S k => (run (handler r) (reached r k w)).1
  end.

Definition line (r : Request) (lag : Z → Z) (w : World)
  : Z → Wire (HttpResponse.t Response) :=
  λ attempt,
    Responds (lag attempt) (reply (run (handler r) (reached r (Z.to_nat attempt) w)).2).

(** ** The countdown *)

(** [setTimeLeft((prev) => Math.max(0, prev - 1))] *)
Definition countdown (c : Client) : Client :=
  {| question := question c; answerInput := answerInput c; feedback := feedback c;
     timeLeft := Z.max 0 (timeLeft c - 1); connectionStatus := connectionStatus c;
     consecutiveFailures := consecutiveFailures c;
     pollIntervalRef := pollIntervalRef c; lastQuestionId := lastQuestionId c |}.

Inductive Moment : Type :=
| Passes                 (** a second of the interval timer *)
| Occurs (h : Happening).

Definition moment (m : Moment) (c : Client) : option Client :=
  match m with
  | Passes => Some (countdown c)
  | Occurs h => happen h c
  end.

Fixpoint moments (ms : list Moment) (c : Client) : option Client :=
  match ms with
  | [] => Some c
  | m :: ms => c' ← moment m c; moments ms c'
  end.

(** Every body the network can deliver has its [remainingMs] in [[0, 60000]]. *)
Definition timely (m : Moment) : Prop :=
  match m with
  | Occurs (Polls net) =>
      ∀ attempt after res data,
        net attempt = Responds after res → HttpResponse.json res = Some data →
        0 ≤ QuestionData.remainingMs data ≤ 60000
  | _ => True
  end.

(** [ann] looks at the question of [quiz] and has typed 56. *)
Definition typing : Client :=
  with_form "56" None
    {| question := Some snapshot; answerInput := EmptyString; feedback := None;
       timeLeft := 59; connectionStatus := connected; consecutiveFailures := 0;
       pollIntervalRef := 1500; lastQuestionId := Some 0%nat |}.


(** Five seconds pass, a poll is answered, a poll gets no answer, the
    browser goes offline, and a second passes. *)
Definition afternoon : list Moment :=
  [Passes; Passes; Passes; Passes; Passes; Occurs (Polls healthy);
   Occurs (Polls dead); Occurs BrowserOffline; Passes].

(** ** Time passing inside a handler *)

(** Every way program [p] can end, started at time [now] or later and
    given, at each operation, whatever store the server then has, its
    clock not behind and its draws those of [E]: the result and the time
    of the last operation satisfy [P]. *)
Fixpoint ends {A : Type} (E : nat → Double.t) (P : A → Z → Prop) (p : prog A) (now : Z)
  : Prop :=
  match p with
  | Ret a => P a now
  | Vis o k =>
      ∀ w, now ≤ clock w → entropy w = E → ends E P (k (exec o w).2) (clock w)
  end.

(** A snapshot of a question without winner that leaves between 0 and
    60000 ms. *)
Definition fresh_snapshot (r : Response) : Prop :=
  ∃ _id text remainingMs leaderboard,
    r = Snapshot _id text None None remainingMs leaderboard
    ∧ 0 ≤ remainingMs ≤ QuestionRoute.QUESTION_TIMEOUT_MS.

(** A minute of a lone poll: it looks for the question, 7 ms pass, and it
    goes on to the end. *)
Definition unhurried : list action :=
  [Advance 0; Tick 7; Advance 0; Advance 0; Advance 0; Advance 0; Tick 7;
   Advance 0; Advance 0].

(** * Properties *)

(** ** Running programs *)

Lemma run_bind {A B : Type} (p : prog A) (f : A → prog B) (w : World) :
  run (bind p f) w = let '(w', a) := run p w in run (f a) w'.
Proof.
  revert w. induction p as [a | X o k IH]; intros w; simpl; [done |].
  destruct (exec o w) as [w' x]. apply IH.
Qed.

Lemma run_randInt (min max : Z) (w : World) :
  run (randInt min max) w
  = (with_drawn (S (drawn w)) w,
     Double.floor (Double.times (entropy w (drawn w)) (max - min + 1)) + min).
Proof. reflexivity. Qed.

(** The draws of the sample worlds are all one half. *)
Lemma quiz_entropy (q : IQuestion.t) (now : Z) (n : nat) :
  unit_interval (entropy (quiz q now) n).
Proof. split; [split; cbn; lia | split; vm_compute; congruence]. Qed.

(** ** The question generator *)

Section Generator.

(** Rounding to the nearest moves by half a unit at most. *)
Lemma nearest_even_near (m s : Z) :
  0 ≤ m → 0 < s →
  0 ≤ Double.nearest_even m s
  ∧ m - 2 ^ (s - 1) ≤ Double.nearest_even m s * 2 ^ s ≤ m + 2 ^ (s - 1).
Proof.
  intros Hm Hs. unfold Double.nearest_even.
  destruct (Z.leb_spec s 0); [lia |].
  assert (Hpow : 2 ^ s = 2 * 2 ^ (s - 1)).
  { replace s with (1 + (s - 1)) at 1 by lia. rewrite Z.pow_add_r by lia. done. }
  assert (Hhalf : 0 < 2 ^ (s - 1)) by (apply Z.pow_pos_nonneg; lia).
  pose proof (Z.div_mod m (2 ^ s) ltac:(lia)) as Hdiv.
  pose proof (Z.mod_pos_bound m (2 ^ s) ltac:(lia)) as Hmod.
  assert (Hq : 0 ≤ m / 2 ^ s) by (apply Z.div_pos; lia).
  set (q := m / 2 ^ s) in *. set (r := m mod 2 ^ s) in *.
  destruct (Z.ltb_spec r (2 ^ (s - 1))); [nia |].
  destruct (Z.ltb_spec (2 ^ (s - 1)) r); [nia |].
  destruct (Z.even q); nia.
Qed.

(** The product as [Double.times] rounds it: exact when its mantissa
    fits in 53 bits; otherwise cut to 53 bits, to 54 when the rounding
    carries, and at most half a unit of the last bit kept away from the
    exact product. *)
Lemma times_nearest (u : Double.t) (n : Z) :
  0 ≤ Double.mantissa u → 0 ≤ n →
  ∃ s, 0 ≤ s
       ∧ Double.exponent (Double.times u n) = Double.exponent u + s
       ∧ (Double.mantissa u * n < 2 ^ 53 →
          s = 0 ∧ Double.mantissa (Double.times u n) = Double.mantissa u * n)
       ∧ (2 ^ 53 ≤ Double.mantissa u * n →
          2 ^ 52 ≤ Double.mantissa (Double.times u n) ≤ 2 ^ 53
          ∧ Double.mantissa u * n - 2 ^ (s - 1)
            ≤ Double.mantissa (Double.times u n) * 2 ^ s
            ≤ Double.mantissa u * n + 2 ^ (s - 1)).
Proof.
  intros Hm Hn. unfold Double.times. cbn [Double.mantissa Double.exponent].
  set (M := Double.mantissa u * n). assert (HM : 0 ≤ M) by (unfold M; nia).
  set (s := Z.max 0 (Z.log2 M + 1 - 53)).
  exists s. split; [lia |]. split; [done |]. split.
  - intros Hfit. assert (Hs : s = 0).
    { destruct (Z.eq_dec M 0) as [-> | Hne]; [done |].
      assert (Z.log2 M < 53) by (apply Z.log2_lt_pow2; lia). lia. }
    rewrite Hs. split; [done |]. unfold Double.nearest_even. done.
  - intros Hbig.
    assert (Hlog : 53 ≤ Z.log2 M) by (apply Z.log2_le_pow2; lia).
    assert (Hs : s = Z.log2 M - 52) by lia.
    pose proof (Z.log2_spec M ltac:(lia)) as [Hlow Hhigh].
    destruct (nearest_even_near M s HM ltac:(lia)) as (Hq0 & Hdown & Hup).
    split; [| done].
    assert (Hhalf : 0 < 2 ^ (s - 1)) by (apply Z.pow_pos_nonneg; lia).
    assert (Hpow : 2 ^ s = 2 * 2 ^ (s - 1)).
    { replace s with (1 + (s - 1)) at 1 by lia. rewrite Z.pow_add_r by lia. done. }
    assert (Hlo : 2 ^ Z.log2 M = 2 ^ 52 * 2 ^ s).
    { rewrite <- Z.pow_add_r by lia. f_equal. lia. }
    assert (Hhi : 2 ^ Z.succ (Z.log2 M) = 2 ^ 53 * 2 ^ s).
    { rewrite <- Z.pow_add_r by lia. f_equal. lia. }
    set (q := Double.nearest_even M s) in *. nia.
Qed.

(** A draw below 1, as its mantissa and exponent have it. *)
Lemma unit_interval_mantissa (u : Double.t) :
  unit_interval u →
  0 ≤ Double.mantissa u < 2 ^ 53
  ∧ (0 ≤ Double.exponent u → Double.mantissa u = 0)
  ∧ (Double.exponent u < 0 → Double.mantissa u < 2 ^ (- Double.exponent u)).
Proof.
  intros ([Hm He] & _ & Hlt). split; [done |].
  unfold Double.value in Hlt. split; intros Hexp.
  - destruct (Z.leb_spec 0 (Double.exponent u)); [| lia].
    change 1%Q with (inject_Z 1) in Hlt. rewrite <- Zlt_Qlt in Hlt.
    assert (0 < 2 ^ Double.exponent u) by (apply Z.pow_pos_nonneg; lia). nia.
  - destruct (Z.leb_spec 0 (Double.exponent u)); [lia |].
    unfold Qlt in Hlt. cbn [Qnum Qden] in Hlt.
    rewrite Z2Pos.id in Hlt by (apply Z.pow_pos_nonneg; lia). lia.
Qed.

(** [Math.floor(Math.random() * n)] is an index below [n]: rounding the
    product never carries it up to [n]. *)
Lemma floor_scaled (u : Double.t) (n : Z) :
  unit_interval u → 0 < n → 0 ≤ Double.floor (Double.times u n) < n.
Proof.
  intros Hu Hn. destruct (unit_interval_mantissa u Hu) as (Hm & Hzero & Hbelow).
  unfold Double.times, Double.floor. cbn [Double.mantissa Double.exponent].
  set (m := Double.mantissa u) in *. set (e := Double.exponent u) in *.
  destruct (Z.le_gt_cases 0 e) as [He | He].
  { rewrite (Hzero He). cbn [Z.mul Z.log2 Z.add Z.sub Z.max Z.opp Z.pos_sub Z.compare
                             Pos.compare Pos.compare_cont].
    unfold Double.nearest_even. cbn [Z.leb Z.compare]. rewrite Z.shiftl_0_l. lia. }
  specialize (Hbelow He).
  assert (Hk : 0 < 2 ^ (- e)) by (apply Z.pow_pos_nonneg; lia).
  set (s := Z.max 0 (Z.log2 (m * n) + 1 - 53)).
  set (q := Double.nearest_even (m * n) s).
  assert (Hs : 0 ≤ s) by lia.
  assert (H2s : 0 < 2 ^ s) by (apply Z.pow_pos_nonneg; lia).
  assert (Hcore : 0 ≤ q ∧ q * 2 ^ s < n * 2 ^ (- e)).
  { destruct (Z.eq_dec s 0) as [Hs0 | Hs0].
    - unfold q, Double.nearest_even. rewrite Hs0. cbn [Z.leb Z.compare Z.pow Z.pow_pos].
      nia.
    - assert (Hspos : 0 < s) by lia.
      destruct (nearest_even_near (m * n) s ltac:(nia) Hspos) as (Hq0 & _ & Hup).
      fold q in Hq0, Hup. split; [done |].
      assert (Hlog : Z.log2 (m * n) = s + 52) by lia.
      assert (Hpos : 0 < m * n).
      { destruct (Z.eq_dec (m * n) 0) as [Hz | Hz]; [| nia].
        rewrite Hz in Hlog. cbn in Hlog. lia. }
      pose proof (Z.log2_spec (m * n) Hpos) as [Hlow _]. rewrite Hlog in Hlow.
      assert (H53 : 2 ^ (s + 52) = 2 ^ (s - 1) * 2 ^ 53).
      { rewrite <- Z.pow_add_r by lia. f_equal. lia. }
      assert (Hh : 0 < 2 ^ (s - 1)) by (apply Z.pow_pos_nonneg; lia).
      assert (Hn1 : 2 ^ (s - 1) < n) by nia.
      nia. }
  destruct Hcore as [Hq0 Hlt].
  destruct (Z.le_gt_cases 0 (e + s)) as [Hes | Hes].
  - rewrite Z.shiftl_mul_pow2 by done.
    assert (Hsplit : 2 ^ s = 2 ^ (e + s) * 2 ^ (- e)).
    { rewrite <- Z.pow_add_r by lia. f_equal. lia. }
    assert (0 < 2 ^ (e + s)) by (apply Z.pow_pos_nonneg; lia).
    split; [nia |]. rewrite Hsplit in Hlt. nia.
  - rewrite Z.shiftl_div_pow2 by lia.
    assert (Hsplit : 2 ^ (- e) = 2 ^ (- (e + s)) * 2 ^ s).
    { rewrite <- Z.pow_add_r by lia. f_equal. lia. }
    assert (0 < 2 ^ (- (e + s))) by (apply Z.pow_pos_nonneg; lia).
    split; [apply Z.div_pos; lia |].
    apply Z.div_lt_upper_bound; [done |]. rewrite Hsplit in Hlt. nia.
Qed.

Lemma randInt_range (u : Double.t) (min max : Z) :
  unit_interval u → min ≤ max →
  min ≤ Double.floor (Double.times u (max - min + 1)) + min ≤ max.
Proof.
  intros Hu Hle.
  pose proof (floor_scaled u (max - min + 1) Hu ltac:(lia)). lia.
Qed.

Lemma upto_blank_app (s r : string) :
  blankfree s = true → upto_blank (s +:+ String " " r) = (s, Some r).
Proof.
  induction s as [| c s IH]; simpl; [done |].
  intros [Hc Hs]%andb_prop. destruct (Ascii.eqb c " "); [done |].
  by rewrite (IH Hs).
Qed.

Lemma blankfree_digits (d : Decimal.uint) :
  blankfree (NilEmpty.string_of_uint d) = true.
Proof. induction d; simpl; done. Qed.

Lemma blankfree_showZ (z : Z) : blankfree (showZ z) = true.
Proof.
  unfold showZ.
  destruct (Z.to_int z) as [d | d]; simpl;
    destruct d; simpl; auto using blankfree_digits.
Qed.

Lemma readZ_showZ (z : Z) : readZ (showZ z) = Some z.
Proof.
  unfold readZ, showZ. rewrite NilZero.isi.
  - simpl. by rewrite DecimalZ.of_to.
  - destruct z; simpl; try done.
    intros [= H]. by apply Unsigned.to_uint_nonnil in H.
  - destruct z; simpl; try done.
    intros [= H]. by apply Unsigned.to_uint_nonnil in H.
Qed.

Lemma parse_expression (a b : Z) (o : Operator) :
  parse (expression a o b) = Some (a, o, b).
Proof.
  unfold parse, expression.
  change (showZ a +:+ " " +:+ symbol o +:+ " " +:+ showZ b)
    with (showZ a +:+ String " " (symbol o +:+ String " " (showZ b))).
  rewrite upto_blank_app by apply blankfree_showZ. simpl.
  rewrite upto_blank_app by (by destruct o). simpl.
  rewrite !readZ_showZ. simpl.
  by destruct o.
Qed.

Lemma evaluate_expression (a b : Z) (o : Operator) :
  evaluate (expression a o b) = value a o b.
Proof. unfold evaluate. by rewrite parse_expression. Qed.

End Generator.

Lemma value_divide (b c : Z) : b ≠ 0 → value (b * c) Divide b = Some c.
Proof.
  intros Hb. unfold value.
  rewrite (Z.mul_comm b c), Z_mod_mult, Z.div_mul by done.
  by destruct (Z.eqb_spec b 0).
Qed.

Lemma generateQuestion_run (w : World) :
  (∀ n, unit_interval (entropy w n)) →
  ∃ g a o b,
    run generateQuestion w = (with_drawn (S (S (S (drawn w)))) w, Some g)
    ∧ GeneratedQuestion.text g = expression a o b
    ∧ evaluate (GeneratedQuestion.text g) = Some (GeneratedQuestion.answer g)
    ∧ 0 ≤ GeneratedQuestion.answer g
    ∧ match o with
      | Plus => 10 ≤ a ≤ 99 ∧ 10 ≤ b ≤ 99 ∧ GeneratedQuestion.answer g = a + b
      | Minus => 20 ≤ a ≤ 99 ∧ 1 ≤ b ≤ a ∧ GeneratedQuestion.answer g = a - b
      | Times => 2 ≤ a ≤ 12 ∧ 2 ≤ b ≤ 12 ∧ GeneratedQuestion.answer g = a * b
      | Divide =>
          2 ≤ b ≤ 12 ∧ 2 ≤ GeneratedQuestion.answer g ≤ 12
          ∧ a = b * GeneratedQuestion.answer g
      end.
Proof.
  intros Hu. unfold generateQuestion. cbn [run exec].
  change (Z.of_nat (length operators)) with 4.
  pose proof (floor_scaled _ 4 (Hu (drawn w)) ltac:(lia)) as Hi.
  set (i := Double.floor (Double.times (entropy w (drawn w)) 4)) in *.
  set (w1 := with_drawn (S (drawn w)) w).
  assert (Hu1 : unit_interval (entropy w1 (drawn w1))) by apply Hu.
  assert (Hu2 : unit_interval (entropy w1 (S (drawn w1)))) by apply Hu.
  assert (Hi' : i = 0 ∨ i = 1 ∨ i = 2 ∨ i = 3) by lia.
  assert (Hidx : index operators 0 = Some Plus ∧ index operators 1 = Some Minus
                 ∧ index operators 2 = Some Times ∧ index operators 3 = Some Divide)
    by done.
  destruct Hidx as (I0 & I1 & I2 & I3).
  destruct Hi' as [-> | [-> | [-> | ->]]];
    rewrite ?I0, ?I1, ?I2, ?I3;
    rewrite run_bind, run_randInt; cbv beta iota;
    rewrite run_bind, run_randInt; cbv beta iota; cbn [run];
    change (entropy (with_drawn (S (drawn w1)) w1)) with (entropy w1);
    change (drawn (with_drawn (S (drawn w1)) w1)) with (S (drawn w1)).
  - pose proof (randInt_range _ 10 99 Hu1 ltac:(lia)).
    pose proof (randInt_range _ 10 99 Hu2 ltac:(lia)).
    set (a := Double.floor (Double.times (entropy w1 (drawn w1)) _) + _) in *.
    set (b := Double.floor (Double.times (entropy w1 (S (drawn w1))) _) + _) in *.
    exists (GeneratedQuestion.Make (expression a Plus b) (a + b)), a, Plus, b.
    cbn [GeneratedQuestion.text GeneratedQuestion.answer].
    rewrite evaluate_expression. cbn [value]. repeat split; try done; lia.
  - pose proof (randInt_range _ 20 99 Hu1 ltac:(lia)).
    set (a := Double.floor (Double.times (entropy w1 (drawn w1)) _) + _) in *.
    pose proof (randInt_range _ 1 a Hu2 ltac:(lia)).
    set (b := Double.floor (Double.times (entropy w1 (S (drawn w1))) _) + _) in *.
    exists (GeneratedQuestion.Make (expression a Minus b) (a - b)), a, Minus, b.
    cbn [GeneratedQuestion.text GeneratedQuestion.answer].
    rewrite evaluate_expression. cbn [value]. repeat split; try done; lia.
  - pose proof (randInt_range _ 2 12 Hu1 ltac:(lia)).
    pose proof (randInt_range _ 2 12 Hu2 ltac:(lia)).
    set (a := Double.floor (Double.times (entropy w1 (drawn w1)) _) + _) in *.
    set (b := Double.floor (Double.times (entropy w1 (S (drawn w1))) _) + _) in *.
    exists (GeneratedQuestion.Make (expression a Times b) (a * b)), a, Times, b.
    cbn [GeneratedQuestion.text GeneratedQuestion.answer].
    rewrite evaluate_expression. cbn [value]. repeat split; try done; nia.
  - pose proof (randInt_range _ 2 12 Hu1 ltac:(lia)).
    pose proof (randInt_range _ 2 12 Hu2 ltac:(lia)).
    set (b := Double.floor (Double.times (entropy w1 (drawn w1)) _) + _) in *.
    set (c := Double.floor (Double.times (entropy w1 (S (drawn w1))) _) + _) in *.
    exists (GeneratedQuestion.Make (expression (b * c) Divide b) c), (b * c), Divide, b.
    cbn [GeneratedQuestion.text GeneratedQuestion.answer].
    rewrite evaluate_expression, value_divide by lia.
    repeat split; try done; lia.
Qed.

(** C10: whatever doubles of [[0, 1)] [Math.random()] returns, their
    products being rounded as double arithmetic rounds them, every question
    [generateQuestion] produces carries the exact value of the expression
    its text spells, a non-negative integer; the operands are in [10,99] for
    an addition, [b ≤ a] for a subtraction, in [2,12] for a multiplication,
    and a division has [a = b × answer] with divisor and quotient in
    [2,12]. *)
Theorem generateQuestion_sound (w : World) :
  (∀ n, unit_interval (entropy w n)) →
  ∃ g a o b,
    (run generateQuestion w).2 = Some g
    ∧ GeneratedQuestion.text g = expression a o b
    ∧ evaluate (GeneratedQuestion.text g) = Some (GeneratedQuestion.answer g)
    ∧ 0 ≤ GeneratedQuestion.answer g
    ∧ match o with
      | Plus => 10 ≤ a ≤ 99 ∧ 10 ≤ b ≤ 99 ∧ GeneratedQuestion.answer g = a + b
      | Minus => 20 ≤ a ≤ 99 ∧ 1 ≤ b ≤ a ∧ GeneratedQuestion.answer g = a - b
      | Times => 2 ≤ a ≤ 12 ∧ 2 ≤ b ≤ 12 ∧ GeneratedQuestion.answer g = a * b
      | Divide =>
          2 ≤ b ≤ 12 ∧ 2 ≤ GeneratedQuestion.answer g ≤ 12
          ∧ a = b * GeneratedQuestion.answer g
      end.
Proof.
  intros Hu. destruct (generateQuestion_run w Hu) as (g & a & o & b & Hrun & H).
  exists g, a, o, b. by rewrite Hrun.
Qed.

Lemma generateQuestion_frame (w w' : World) :
  entropy w = entropy w' → drawn w = drawn w' →
  (run generateQuestion w).2 = (run generateQuestion w').2.
Proof.
  intros He Hd. unfold generateQuestion. cbn [run exec]. rewrite He, Hd.
  destruct (index operators _) as [[] |]; [| | | | done];
    repeat (rewrite run_bind, run_randInt; cbv beta iota);
    cbn [run snd with_drawn entropy drawn]; rewrite ?He, ?Hd; done.
Qed.

Lemma generateQuestion_sound_witness :
  ∃ g a o b,
    (run generateQuestion (quiz seven_by_eight 0)).2 = Some g
    ∧ GeneratedQuestion.text g = expression a o b
    ∧ evaluate (GeneratedQuestion.text g) = Some (GeneratedQuestion.answer g)
    ∧ 0 ≤ GeneratedQuestion.answer g
    ∧ match o with
      | Plus => 10 ≤ a ≤ 99 ∧ 10 ≤ b ≤ 99 ∧ GeneratedQuestion.answer g = a + b
      | Minus => 20 ≤ a ≤ 99 ∧ 1 ≤ b ≤ a ∧ GeneratedQuestion.answer g = a - b
      | Times => 2 ≤ a ≤ 12 ∧ 2 ≤ b ≤ 12 ∧ GeneratedQuestion.answer g = a * b
      | Divide =>
          2 ≤ b ≤ 12 ∧ 2 ≤ GeneratedQuestion.answer g ≤ 12
          ∧ a = b * GeneratedQuestion.answer g
      end.
Proof.
  apply (generateQuestion_sound (quiz seven_by_eight 0)).
  intros n. apply quiz_entropy.
Defined.

(** ** Storage queries *)

Lemma latest_elem (cands : list (nat * IQuestion.t)) (x : nat * IQuestion.t) :
  latest cands = Some x → x ∈ cands.
Proof.
  revert x. induction cands as [| c cands IH]; intros x; simpl; [done |].
  destruct (latest cands) as [y |] eqn:Hy.
  - destruct (_ <? _); intros [= <-]; [right; by apply IH | left].
  - intros [= <-]. left.
Qed.

Lemma latest_None (cands : list (nat * IQuestion.t)) :
  latest cands = None → cands = [].
Proof.
  destruct cands as [| c cands]; simpl; [done |].
  destruct (latest cands); [destruct (_ <? _) |]; done.
Qed.

Lemma findOne_active_Some (qs : gmap nat IQuestion.t) (i : nat) (q : IQuestion.t) :
  findOne_active qs = Some (i, q) → qs !! i = Some q ∧ IQuestion.isActive q = true.
Proof.
  intros H%latest_elem. apply list_elem_of_filter in H as [Ha H].
  by apply elem_of_map_to_list in H.
Qed.

Lemma findOne_active_None (qs : gmap nat IQuestion.t) (i : nat) (q : IQuestion.t) :
  findOne_active qs = None → qs !! i = Some q → IQuestion.isActive q = false.
Proof.
  intros H%latest_None Hq. apply elem_of_map_to_list in Hq.
  destruct (IQuestion.isActive q) eqn:Ha; [| done].
  by apply (filter_nil_not_elem_of _ _ _ H) in Hq.
Qed.

Lemma findOne_username_Some (name : string) (ps : gmap nat IPlayer.t)
    (i : nat) (p : IPlayer.t) :
  findOne_username name ps = Some (i, p) → ps !! i = Some p ∧ IPlayer.username p = name.
Proof.
  intros H%head_Some_elem_of. apply list_elem_of_filter in H as [Hn H].
  by apply elem_of_map_to_list in H.
Qed.

Lemma findOne_username_None (name : string) (ps : gmap nat IPlayer.t)
    (i : nat) (p : IPlayer.t) :
  findOne_username name ps = None → ps !! i = Some p → IPlayer.username p ≠ name.
Proof.
  intros H%head_None Hp Hn. apply elem_of_map_to_list in Hp.
  by apply (filter_nil_not_elem_of _ _ _ H) in Hp.
Qed.

Lemma fresh_unused {A : Type} (m : gmap nat A) : m !! fresh (dom m) = None.
Proof. apply not_elem_of_dom, is_fresh. Qed.

(** ** [GET /api/question] *)

Lemma run_create (w : World) :
  (∀ n, unit_interval (entropy w n)) →
  ∃ g,
    (run generateQuestion w).2 = Some g
    ∧ run QuestionRoute.create w
      = let q := IQuestion.Make (GeneratedQuestion.text g) (GeneratedQuestion.answer g)
                   true None None (clock w) in
        let _id := fresh (dom (questions w)) in
        (with_drawn (S (S (S (drawn w)))) (with_questions (<[_id := q]> (questions w)) w),
         Some (_id, q)).
Proof.
  intros Hu. destruct (generateQuestion_run w Hu) as (g & _ & _ & _ & Hrun & _).
  exists g. rewrite Hrun. split; [done |].
  unfold QuestionRoute.create. by rewrite run_bind, Hrun.
Qed.

Lemma run_GET_won (w : World) (_id : nat) (q : IQuestion.t) :
  findOne_active (questions w) = Some (_id, q) →
  is_Some (IQuestion.winnerId q) →
  run QuestionRoute.GET w
  = (w, Snapshot _id (IQuestion.text q) (IQuestion.winnerId q) (IQuestion.winnerName q)
          (Z.max 0 (QuestionRoute.QUESTION_TIMEOUT_MS - (clock w - IQuestion.createdAt q)))
          (QuestionRoute.select <$> top10 (players w))).
Proof.
  intros Hfind Hwon. unfold QuestionRoute.GET. cbn [run exec]. rewrite Hfind.
  rewrite run_bind, bool_decide_eq_true_2 by done. reflexivity.
Qed.

Lemma polls_keep_won (w : World) (_id : nat) (q : IQuestion.t) (n : nat) :
  findOne_active (questions w) = Some (_id, q) →
  is_Some (IQuestion.winnerId q) →
  Nat.iter n (λ w, (run QuestionRoute.GET w).1) w = w.
Proof.
  intros Hfind Hwon. induction n as [| n IH]; [done |].
  rewrite Nat.iter_succ, IH. by rewrite (run_GET_won w _id q).
Qed.

(** C3, as the code has it: a poll that finds the active question won
    changes nothing and answers with that question, whatever its age and
    however often it is repeated; only the grace-delay task retires it. *)
Theorem GET_keeps_won (w : World) (_id : nat) (q : IQuestion.t) (n : nat) :
  findOne_active (questions w) = Some (_id, q) →
  is_Some (IQuestion.winnerId q) →
  Nat.iter n (λ w, (run QuestionRoute.GET w).1) w = w
  ∧ run QuestionRoute.GET w
    = (w, Snapshot _id (IQuestion.text q) (IQuestion.winnerId q)
            (IQuestion.winnerName q)
            (Z.max 0 (QuestionRoute.QUESTION_TIMEOUT_MS
                      - (clock w - IQuestion.createdAt q)))
            (QuestionRoute.select <$> top10 (players w))).
Proof.
  intros Hfind Hwon. split.
  - by apply (polls_keep_won w _id q).
  - by apply run_GET_won.
Qed.

Lemma GET_keeps_won_witness :
  Nat.iter 3 (λ w, (run QuestionRoute.GET w).1) abandoned = abandoned
  ∧ run QuestionRoute.GET abandoned
    = (abandoned,
       Snapshot 0%nat "7 × 8" (Some 0%nat) (Some "ann") 0
         (QuestionRoute.select <$> top10 (players abandoned))).
Proof.
  apply (GET_keeps_won abandoned 0%nat seven_by_eight_won 3).
  - vm_compute. reflexivity.
  - vm_compute. eauto.
Defined.

(** The claim of C3 fails: in [abandoned] the won question, its grace-delay
    task lost and a thousand seconds old, is still the active question after
    a poll, and after five of them; no successor has been created. *)
Lemma GET_never_retires_won :
  timers abandoned = []
  ∧ findOne_active (questions abandoned) = Some (0%nat, seven_by_eight_won)
  ∧ IQuestion.winnerId seven_by_eight_won = Some 0%nat
  ∧ (run QuestionRoute.GET abandoned).1 = abandoned
  ∧ Nat.iter 5 (λ w, (run QuestionRoute.GET w).1) abandoned = abandoned
  ∧ questions (run QuestionRoute.GET abandoned).1 = {[ 0%nat := seven_by_eight_won ]}.
Proof.
  assert (Hfind : findOne_active (questions abandoned)
                  = Some (0%nat, seven_by_eight_won)) by (vm_compute; reflexivity).
  assert (Hwon : is_Some (IQuestion.winnerId seven_by_eight_won)) by (by eexists).
  split; [done |]. split; [done |]. split; [done |].
  rewrite (polls_keep_won _ _ _ 5 Hfind Hwon).
  by rewrite (run_GET_won _ _ _ Hfind Hwon).
Qed.

Lemma run_GET_young (w : World) (_id : nat) (q : IQuestion.t) :
  findOne_active (questions w) = Some (_id, q) →
  IQuestion.winnerId q = None →
  clock w - IQuestion.createdAt q ≤ QuestionRoute.QUESTION_TIMEOUT_MS →
  run QuestionRoute.GET w
  = (w, Snapshot _id (IQuestion.text q) None (IQuestion.winnerName q)
          (Z.max 0 (QuestionRoute.QUESTION_TIMEOUT_MS - (clock w - IQuestion.createdAt q)))
          (QuestionRoute.select <$> top10 (players w))).
Proof.
  intros Hfind Hwon Hage. unfold QuestionRoute.GET. cbn [run exec]. rewrite Hfind.
  rewrite run_bind, Hwon, bool_decide_eq_false_2 by (by intros [? ?]).
  cbn [run exec]. destruct (Z.gtb_spec (clock w - IQuestion.createdAt q)
                              QuestionRoute.QUESTION_TIMEOUT_MS); [lia |].
  cbn. by rewrite Hwon.
Qed.

Lemma run_GET_timed_out (w : World) (_id : nat) (q : IQuestion.t) :
  (∀ n, unit_interval (entropy w n)) →
  findOne_active (questions w) = Some (_id, q) →
  IQuestion.winnerId q = None →
  clock w - IQuestion.createdAt q > QuestionRoute.QUESTION_TIMEOUT_MS →
  ∃ g new,
    (run generateQuestion w).2 = Some g
    ∧ questions w !! new = None
    ∧ run QuestionRoute.GET w
      = let successor :=
          IQuestion.Make (GeneratedQuestion.text g) (GeneratedQuestion.answer g)
            true None None (clock w) in
        (with_drawn (S (S (S (drawn w))))
           (with_questions (<[new := successor]> (<[_id := retire q]> (questions w))) w),
         Snapshot new (GeneratedQuestion.text g) None None
           QuestionRoute.QUESTION_TIMEOUT_MS
           (QuestionRoute.select <$> top10 (players w))).
Proof.
  intros Hu Hfind Hwon Hage.
  destruct (findOne_active_Some _ _ _ Hfind) as [Hq _].
  set (w1 := with_questions (<[_id := retire q]> (questions w)) w).
  destruct (run_create w1 Hu) as (g & Hg & Hcreate).
  exists g, (fresh (dom (questions w1))). split; [| split].
  - by rewrite <- Hg; apply generateQuestion_frame.
  - pose proof (fresh_unused (questions w1)) as Hnew. cbn in Hnew.
    destruct (decide (fresh (dom (<[_id := retire q]> (questions w))) = _id)) as [He | Hne].
    + rewrite He in Hnew. by rewrite lookup_insert_eq in Hnew.
    + by rewrite lookup_insert_ne in Hnew.
  - unfold QuestionRoute.GET. cbn [run exec]. rewrite Hfind.
    rewrite run_bind, Hwon, bool_decide_eq_false_2 by (by intros [? ?]).
    cbn [run exec]. destruct (Z.gtb_spec (clock w - IQuestion.createdAt q)
                                QuestionRoute.QUESTION_TIMEOUT_MS); [| lia].
    cbn [run exec]. rewrite Hq. fold w1. rewrite Hcreate. cbn.
    by rewrite Z.sub_diag, Z.sub_0_r.
Qed.

(** C5, as the code has it: a poll that finds the active question without
    a winner and older than 60000 ms retires it, creates an active successor
    from the generator and answers with the successor; at 60000 ms or less
    the question stays as it is and is the one returned. *)
Theorem GET_rotates_after_timeout (w : World) (_id : nat) (q : IQuestion.t) :
  (∀ n, unit_interval (entropy w n)) →
  findOne_active (questions w) = Some (_id, q) →
  IQuestion.winnerId q = None →
  (clock w - IQuestion.createdAt q > 60000 →
   ∃ g new,
     (run generateQuestion w).2 = Some g
     ∧ questions w !! new = None
     ∧ questions (run QuestionRoute.GET w).1 !! _id = Some (retire q)
     ∧ questions (run QuestionRoute.GET w).1 !! new
       = Some (IQuestion.Make (GeneratedQuestion.text g) (GeneratedQuestion.answer g)
                 true None None (clock w))
     ∧ (∀ i, i ≠ _id → i ≠ new →
             questions (run QuestionRoute.GET w).1 !! i = questions w !! i)
     ∧ (run QuestionRoute.GET w).2
       = Snapshot new (GeneratedQuestion.text g) None None 60000
           (QuestionRoute.select <$> top10 (players w)))
  ∧ (clock w - IQuestion.createdAt q ≤ 60000 →
     (run QuestionRoute.GET w).1 = w
     ∧ ∃ remainingMs leaderboard,
         (run QuestionRoute.GET w).2
         = Snapshot _id (IQuestion.text q) None (IQuestion.winnerName q)
             remainingMs leaderboard).
Proof.
  intros Hu Hfind Hwon. split; intros Hage.
  - destruct (run_GET_timed_out w _id q Hu Hfind Hwon Hage)
      as (g & new & Hg & Hnew & ->).
    destruct (findOne_active_Some _ _ _ Hfind) as [Hq _].
    assert (new ≠ _id) by congruence.
    exists g, new. cbn. repeat split; try done.
    + by rewrite lookup_insert_ne, lookup_insert_eq.
    + by rewrite lookup_insert_eq.
    + intros i ? ?. by rewrite !lookup_insert_ne.
  - rewrite (run_GET_young w _id q) by done. eauto.
Qed.

Lemma GET_rotates_after_timeout_witness :
  ∃ g new,
    (run generateQuestion expired).2 = Some g
    ∧ questions expired !! new = None
    ∧ questions (run QuestionRoute.GET expired).1 !! 0%nat = Some (retire seven_by_eight)
    ∧ questions (run QuestionRoute.GET expired).1 !! new
      = Some (IQuestion.Make (GeneratedQuestion.text g) (GeneratedQuestion.answer g)
                true None None (clock expired))
    ∧ (∀ i, i ≠ 0%nat → i ≠ new →
            questions (run QuestionRoute.GET expired).1 !! i = questions expired !! i)
    ∧ (run QuestionRoute.GET expired).2
      = Snapshot new (GeneratedQuestion.text g) None None 60000
          (QuestionRoute.select <$> top10 (players expired)).
Proof.
  refine (proj1 (GET_rotates_after_timeout expired 0%nat seven_by_eight _ _ _) _).
  - intros n. apply quiz_entropy.
  - vm_compute. reflexivity.
  - reflexivity.
  - vm_compute. reflexivity.
Defined.

(** The claim of C5 fails at its boundary: at an age of exactly 60000 ms the
    poll retires nothing and returns the old question, 0 ms remaining. *)
Lemma GET_keeps_question_at_60000 :
  findOne_active (questions at_boundary) = Some (0%nat, seven_by_eight)
  ∧ IQuestion.winnerId seven_by_eight = None
  ∧ clock at_boundary - IQuestion.createdAt seven_by_eight = 60000
  ∧ questions (run QuestionRoute.GET at_boundary).1 !! 0%nat = Some seven_by_eight
  ∧ IQuestion.isActive seven_by_eight = true
  ∧ (run QuestionRoute.GET at_boundary).1 = at_boundary
  ∧ (run QuestionRoute.GET at_boundary).2
    = Snapshot 0%nat "7 × 8" None None 0
        (QuestionRoute.select <$> top10 (players at_boundary)).
Proof. vm_compute. repeat split; reflexivity. Qed.

(** ** [POST /api/answer], one request at a time *)

Section Answer.

Variables (w : World) (playerId questionId : ObjectId) (numAnswer : Q).

Let request : prog Response :=
  AnswerRoute.POST (Some playerId) (Some questionId) (Some (Num numAnswer)).

Lemma run_POST_unknown :
  questions w !! questionId = None →
  run request w = (w, Failure 404 "Question not found").
Proof. intros H. unfold request, AnswerRoute.POST. cbn [run exec]. by rewrite H. Qed.

Lemma run_POST_inactive (q : IQuestion.t) :
  questions w !! questionId = Some q →
  IQuestion.isActive q = false →
  run request w = (w, Verdict false false "Question is no longer active").
Proof.
  intros H Ha. unfold request, AnswerRoute.POST. cbn [run exec]. by rewrite H, Ha.
Qed.

Lemma run_POST_taken (q : IQuestion.t) :
  questions w !! questionId = Some q →
  IQuestion.isActive q = true →
  is_Some (IQuestion.winnerId q) →
  run request w = (w, Verdict false false "Someone already answered correctly").
Proof.
  intros H Ha Hw. unfold request, AnswerRoute.POST. cbn [run exec].
  by rewrite H, Ha, bool_decide_eq_true_2.
Qed.

Lemma run_POST_wrong (q : IQuestion.t) :
  questions w !! questionId = Some q →
  IQuestion.isActive q = true →
  IQuestion.winnerId q = None →
  ¬ (numAnswer == inject_Z (IQuestion.answer q))%Q →
  run request w = (w, Verdict false false "Wrong answer, try again!").
Proof.
  intros H Ha Hw Hne. unfold request, AnswerRoute.POST. cbn [run exec].
  rewrite H, Ha, Hw, bool_decide_eq_false_2 by (by intros [? ?]). cbn.
  destruct (Qeq_bool _ _) eqn:He; [| done]. by apply Qeq_bool_eq in He.
Qed.

Lemma run_POST_stranger (q : IQuestion.t) :
  questions w !! questionId = Some q →
  IQuestion.isActive q = true →
  IQuestion.winnerId q = None →
  (numAnswer == inject_Z (IQuestion.answer q))%Q →
  players w !! playerId = None →
  run request w = (w, Failure 404 "Player not found").
Proof.
  intros H Ha Hw He Hp. unfold request, AnswerRoute.POST. cbn [run exec].
  rewrite H, Ha, Hw, bool_decide_eq_false_2 by (by intros [? ?]). cbn [negb].
  apply Qeq_eq_bool in He. rewrite He. cbn [negb run exec]. by rewrite Hp.
Qed.

Lemma run_POST_win (q : IQuestion.t) (p : IPlayer.t) :
  questions w !! questionId = Some q →
  IQuestion.isActive q = true →
  IQuestion.winnerId q = None →
  (numAnswer == inject_Z (IQuestion.answer q))%Q →
  players w !! playerId = Some p →
  run request w
  = (with_timers (timers w ++ [{| due := clock w + 3000; rotates := questionId |}])
       (with_players
          (<[playerId := set_score (IPlayer.score p + 1) p]> (players w))
          (with_questions
             (<[questionId := claim playerId (IPlayer.username p) q]> (questions w)) w)),
     Verdict true true ("🏆 " +:+ IPlayer.username p +:+ " wins!")).
Proof.
  intros H Ha Hw He Hp. unfold request, AnswerRoute.POST. cbn [run exec].
  rewrite H, Ha, Hw, bool_decide_eq_false_2 by (by intros [? ?]). cbn [negb].
  apply Qeq_eq_bool in He. rewrite He. cbn [negb run exec].
  rewrite Hp. cbn [run exec]. rewrite H, Hw, Ha. cbn [run exec players with_questions].
  by rewrite Hp.
Qed.

(** A request that does not carry the stored answer leaves the world as
    it is, whatever else holds of it. *)
Lemma run_POST_mismatch (q : IQuestion.t) :
  questions w !! questionId = Some q →
  ¬ (numAnswer == inject_Z (IQuestion.answer q))%Q →
  ∃ message, run request w = (w, Verdict false false message).
Proof.
  intros H Hne.
  destruct (IQuestion.isActive q) eqn:Ha;
    [| by eexists; apply (run_POST_inactive q)].
  destruct (IQuestion.winnerId q) as [winner |] eqn:Hw;
    [by eexists; apply (run_POST_taken q); rewrite ?Hw |].
  by eexists; apply (run_POST_wrong q).
Qed.

End Answer.

(** C8: a submission whose value differs from the stored answer writes
    nothing: questions, players, timers and all the rest of the world are
    the same afterwards, however often it is repeated, and it is answered
    [{correct: false, won: false}]. *)
Theorem wrong_answer_writes_nothing (w : World) (playerId questionId : ObjectId)
    (numAnswer : Q) (q : IQuestion.t) (times : nat) :
  questions w !! questionId = Some q →
  ¬ (numAnswer == inject_Z (IQuestion.answer q))%Q →
  Nat.iter times
    (λ w, (run (AnswerRoute.POST (Some playerId) (Some questionId)
                  (Some (Num numAnswer))) w).1) w = w
  ∧ ∃ message,
      run (AnswerRoute.POST (Some playerId) (Some questionId) (Some (Num numAnswer))) w
      = (w, Verdict false false message).
Proof.
  intros Hq Hne.
  destruct (run_POST_mismatch w playerId questionId numAnswer q Hq Hne) as [m Hm].
  split; [| by exists m].
  induction times as [| n IH]; [done |]. by rewrite Nat.iter_succ, IH, Hm.
Qed.

Lemma wrong_answer_writes_nothing_witness :
  Nat.iter 4
    (λ w, (run (AnswerRoute.POST (Some 1%nat) (Some 0%nat) (Some (Num (55 # 1)))) w).1)
    (quiz seven_by_eight 1000) = quiz seven_by_eight 1000
  ∧ ∃ message,
      run (AnswerRoute.POST (Some 1%nat) (Some 0%nat) (Some (Num (55 # 1))))
        (quiz seven_by_eight 1000)
      = (quiz seven_by_eight 1000, Verdict false false message).
Proof.
  apply (wrong_answer_writes_nothing (quiz seven_by_eight 1000) 1%nat 0%nat (55 # 1)
           seven_by_eight 4).
  - vm_compute. reflexivity.
  - vm_compute. discriminate.
Defined.

(** ** [POST /api/join] *)

Section Join.

Variables (w : World) (username : string).

Hypothesis named : String.length (trim username) ≠ 0%nat.

Let trimmed : string := substring 0 20 (trim username).

Lemma named_valid :
  bool_decide (username = EmptyString) || (String.length (trim username) =? 0)%nat
  = false.
Proof using named.
  apply orb_false_intro.
  - apply bool_decide_eq_false_2. intros ->. by apply named.
  - by apply Nat.eqb_neq.
Qed.

Lemma run_join2_returning (_id : nat) (p : IPlayer.t) :
  findOne_username trimmed (players w) = Some (_id, p) →
  run (JoinRoute2.POST (Some username)) w
  = (with_players (<[_id := set_score 0 p]> (players w)) w,
     Session _id (IPlayer.username p) 0 (Some (IPlayer.highScore p))).
Proof using named.
  intros Hfind. destruct (findOne_username_Some _ _ _ _ Hfind) as [Hp _].
  unfold JoinRoute2.POST. rewrite named_valid. cbn [run exec]. fold trimmed.
  rewrite Hfind. cbn [run exec]. by rewrite Hp.
Qed.

Lemma run_join2_new :
  findOne_username trimmed (players w) = None →
  run (JoinRoute2.POST (Some username)) w
  = (with_players (<[fresh (dom (players w)) := IPlayer.Make trimmed 0 0]> (players w)) w,
     Session (fresh (dom (players w))) trimmed 0 (Some 0)).
Proof using named.
  intros Hfind. unfold JoinRoute2.POST. rewrite named_valid. cbn [run exec].
  fold trimmed. rewrite Hfind. cbn [run exec]. by rewrite Hfind.
Qed.

Lemma run_join_returning (_id : nat) (p : IPlayer.t) :
  findOne_username trimmed (players w) = Some (_id, p) →
  run (JoinRoute.POST (Some username)) w
  = (w, Session _id (IPlayer.username p) (IPlayer.score p) None).
Proof using named.
  intros Hfind. unfold JoinRoute.POST. rewrite named_valid. cbn [run exec].
  fold trimmed. by rewrite Hfind.
Qed.

Lemma run_join_new :
  findOne_username trimmed (players w) = None →
  run (JoinRoute.POST (Some username)) w
  = (with_players (<[fresh (dom (players w)) := IPlayer.Make trimmed 0 0]> (players w)) w,
     Session (fresh (dom (players w))) trimmed 0 None).
Proof using named.
  intros Hfind. unfold JoinRoute.POST. rewrite named_valid. cbn [run exec].
  fold trimmed. rewrite Hfind. cbn [run exec]. by rewrite Hfind.
Qed.

End Join.

(** The second join route does what the specification says of a join: a
    returning player keeps the record, with [score] 0 and [highScore] as it
    was; a new name gets a record with both at 0; nobody else changes. *)
Lemma join2_rejoin_semantics (w : World) (username : string) :
  String.length (trim username) ≠ 0%nat →
  let trimmed := substring 0 20 (trim username) in
  let w' := (run (JoinRoute2.POST (Some username)) w).1 in
  match findOne_username trimmed (players w) with
  | Some (_id, p) =>
      players w' !! _id
      = Some (IPlayer.Make (IPlayer.username p) 0 (IPlayer.highScore p))
      ∧ ∀ i, i ≠ _id → players w' !! i = players w !! i
  | None =>
      ∃ _id, players w !! _id = None
             ∧ players w' !! _id = Some (IPlayer.Make trimmed 0 0)
             ∧ ∀ i, i ≠ _id → players w' !! i = players w !! i
  end.
Proof.
  intros Hname trimmed w'. subst w'.
  destruct (findOne_username trimmed (players w)) as [[_id p] |] eqn:Hfind.
  - rewrite (run_join2_returning w username Hname _id p Hfind). cbn. split.
    + by rewrite lookup_insert_eq.
    + intros i Hi. by rewrite lookup_insert_ne.
  - rewrite (run_join2_new w username Hname Hfind). cbn.
    exists (fresh (dom (players w))). split; [apply fresh_unused |]. split.
    + by rewrite lookup_insert_eq.
    + intros i Hi. by rewrite lookup_insert_ne.
Qed.

(** C2 at [api/join/route.ts]: [ann], who has 3 points, joins again; the
    route answers with her 3 points and writes nothing, where the claim and
    the second join route reset the score to 0. *)
Theorem join_route_keeps_score :
  findOne_username "ann" (players (quiz seven_by_eight 0)) = Some (0%nat, ann)
  ∧ IPlayer.score ann = 3
  ∧ run (JoinRoute.POST (Some "ann")) (quiz seven_by_eight 0)
    = (quiz seven_by_eight 0, Session 0%nat "ann" 3 None)
  ∧ players (run (JoinRoute2.POST (Some "ann")) (quiz seven_by_eight 0)).1 !! 0%nat
    = Some (IPlayer.Make "ann" 0 7).
Proof. vm_compute. repeat split; reflexivity. Qed.

(** ** The client's retry wrapper *)

Lemma fetch_elapsed {A : Type} (b : Wire A) : (fetch b).1 ≤ 8000.
Proof.
  destruct b as [t res | t err |]; simpl; [| | done];
    destruct (Z.ltb_spec t 8000); simpl; lia.
Qed.

Lemma tries_cons (e : Event) (log : list Event) :
  tries (e :: log) = ((if is_attempt e then 1 else 0) + tries log)%nat.
Proof.
  unfold tries. by destruct e.
Qed.

Lemma tries_app (l1 l2 : list Event) : tries (l1 ++ l2) = (tries l1 + tries l2)%nat.
Proof. unfold tries. by rewrite filter_app, length_app. Qed.

Section Retry.

Context {A : Type} (net : Z → Wire A) (url : string) (maxRetries baseDelay : Z).

Let loop (fuel : nat) (attempt : Z) (lastError : option string) :=
  attempts fuel net url maxRetries baseDelay attempt lastError.

Let pause (attempt : Z) : list Event :=
  if attempt <? maxRetries then [waited (baseDelay * 2 ^ attempt)] else [].

(** The loop comes to a pause that is not modelled. *)
Let unfit (attempt : Z) : bool :=
  (attempt <? maxRetries) && negb (fits (baseDelay * 2 ^ attempt)).

Lemma fits_pause (a : Z) :
  0 ≤ baseDelay → baseDelay * 2 ^ maxRetries ≤ 2147483647 → unfit a = false.
Proof.
  intros Hb Hfit. unfold unfit, fits.
  destruct (Z.ltb_spec a maxRetries) as [Ha |]; [| done]. cbn [andb].
  assert (H0 : 0 ≤ 2 ^ a) by (apply Z.pow_nonneg; lia).
  assert (Hmono : 2 ^ a ≤ 2 ^ maxRetries).
  { destruct (Z.le_gt_cases 0 a); [apply Z.pow_le_mono_r; lia |].
    rewrite (Z.pow_neg_r 2 a) by lia. apply Z.pow_nonneg. lia. }
  pose proof (Z.mul_nonneg_nonneg _ _ Hb H0).
  pose proof (Z.mul_le_mono_nonneg_l _ _ _ Hb Hmono).
  destruct (Z.leb_spec 0 (baseDelay * 2 ^ a)); [| lia].
  destruct (Z.leb_spec (baseDelay * 2 ^ a) 2147483647); [done | lia].
Qed.

(** One turn of the loop, case by case. *)
Lemma loop_exit (fuel : nat) (a : Z) (last : option string) :
  maxRetries < a → loop (S fuel) a last = Some ([], Thrown last).
Proof. intros H. unfold loop. simpl. by destruct (Z.leb_spec a maxRetries); [lia |]. Qed.

Lemma loop_resolved (fuel : nat) (a : Z) (last : option string) (res : A) :
  a ≤ maxRetries → (fetch (net a)).2 = Resolved res →
  loop (S fuel) a last = Some ([attempted url a (fetch (net a)).1], Returned res).
Proof.
  intros H Hres. unfold loop. simpl. destruct (Z.leb_spec a maxRetries); [| lia].
  destruct (fetch (net a)) as [e settled]. simpl in *. by subst.
Qed.

Lemma loop_rejected (fuel : nat) (a : Z) (last : option string) (err : string) :
  a ≤ maxRetries → (fetch (net a)).2 = Rejected err →
  loop (S fuel) a last
  = if unfit a then None
    else '(log, outcome) ← loop fuel (a + 1) (Some err);
         Some (attempted url a (fetch (net a)).1 :: pause a ++ log, outcome).
Proof.
  intros H Hres. unfold loop. simpl. destruct (Z.leb_spec a maxRetries); [| lia].
  destruct (fetch (net a)) as [e settled]. simpl in *. by subst.
Qed.

Lemma loop_cases (fuel : nat) (a : Z) (last : option string)
    (log : list Event) (outcome : Outcome A) :
  loop (S fuel) a last = Some (log, outcome) →
  (maxRetries < a ∧ log = [] ∧ outcome = Thrown last)
  ∨ (a ≤ maxRetries ∧ ∃ res, (fetch (net a)).2 = Resolved res
       ∧ log = [attempted url a (fetch (net a)).1] ∧ outcome = Returned res)
  ∨ (a ≤ maxRetries ∧ ∃ err log',
       (fetch (net a)).2 = Rejected err
       ∧ loop fuel (a + 1) (Some err) = Some (log', outcome)
       ∧ log = attempted url a (fetch (net a)).1 :: pause a ++ log').
Proof.
  intros Hrun. destruct (Z.le_gt_cases a maxRetries) as [Hle | Hgt].
  - destruct ((fetch (net a)).2) as [res | err] eqn:Hres.
    + rewrite (loop_resolved _ _ _ res) in Hrun by done.
      injection Hrun as <- <-. right; left. eauto.
    + rewrite (loop_rejected _ _ _ err) in Hrun by done.
      destruct (unfit a); [done |].
      destruct (loop fuel (a + 1) (Some err)) as [[log' out'] |] eqn:Hrec; [| done].
      injection Hrun as <- <-. right; right. split; [done |]. by exists err, log'.
  - rewrite loop_exit in Hrun by lia. injection Hrun as <- <-. by left.
Qed.

Lemma loop_total (fuel : nat) (a : Z) (last : option string) :
  0 ≤ baseDelay → baseDelay * 2 ^ maxRetries ≤ 2147483647 →
  (Z.to_nat (maxRetries + 1 - a) < fuel)%nat → is_Some (loop fuel a last).
Proof.
  intros Hb Hfit.
  revert a last. induction fuel as [| fuel IH]; intros a last Hfuel; [lia |].
  destruct (Z.le_gt_cases a maxRetries) as [Hle | Hgt].
  - destruct ((fetch (net a)).2) as [res | err] eqn:Hres.
    + by rewrite (loop_resolved _ _ _ res).
    + rewrite (loop_rejected _ _ _ err), (fits_pause a Hb Hfit) by done.
      destruct (IH (a + 1) (Some err) ltac:(lia)) as [[log out] ->]. by eexists.
  - by rewrite loop_exit by lia.
Qed.

Lemma loop_tries (fuel : nat) (a : Z) (last : option string)
    (log : list Event) (outcome : Outcome A) :
  loop fuel a last = Some (log, outcome) →
  (tries log ≤ Z.to_nat (maxRetries + 1 - a))%nat.
Proof.
  revert a last log. induction fuel as [| fuel IH]; intros a last log Hrun; [done |].
  apply loop_cases in Hrun
    as [(_ & -> & _) | [(Hle & res & _ & -> & _) | (Hle & err & log' & _ & Hrec & ->)]].
  - unfold tries. simpl. lia.
  - rewrite tries_cons. unfold tries. simpl. lia.
  - apply IH in Hrec. rewrite tries_cons, tries_app. simpl.
    assert (tries (pause a) = 0%nat) as -> by (unfold pause; by destruct (_ <? _)).
    lia.
Qed.

Lemma loop_attempted (fuel : nat) (a : Z) (last : option string)
    (log : list Event) (outcome : Outcome A) (u : string) (i e : Z) :
  loop fuel a last = Some (log, outcome) →
  attempted u i e ∈ log →
  u = url ∧ a ≤ i ≤ maxRetries ∧ e = (fetch (net i)).1 ∧ e ≤ 8000.
Proof.
  revert a last log. induction fuel as [| fuel IH]; intros a last log Hrun Hin; [done |].
  apply loop_cases in Hrun
    as [(_ & -> & _) | [(Hle & res & _ & -> & _) | (Hle & err & log' & _ & Hrec & ->)]].
  - by apply not_elem_of_nil in Hin.
  - apply list_elem_of_singleton in Hin. injection Hin as -> -> ->.
    pose proof (fetch_elapsed (net a)). repeat split; try done; lia.
  - apply elem_of_cons in Hin as [Hin | Hin].
    + injection Hin as -> -> ->.
      pose proof (fetch_elapsed (net a)). repeat split; try done; lia.
    + apply elem_of_app in Hin as [Hin | Hin].
      * unfold pause in Hin. destruct (_ <? _);
          [apply list_elem_of_singleton in Hin | apply not_elem_of_nil in Hin]; done.
      * destruct (IH _ _ _ Hrec Hin) as (? & ? & ? & ?). repeat split; try done; lia.
Qed.

Lemma loop_waited (fuel : nat) (a : Z) (last : option string)
    (log : list Event) (outcome : Outcome A) (d : Z) :
  loop fuel a last = Some (log, outcome) →
  waited d ∈ log →
  ∃ i, a ≤ i < maxRetries ∧ d = baseDelay * 2 ^ i ∧ fails (net i).
Proof.
  revert a last log. induction fuel as [| fuel IH]; intros a last log Hrun Hin; [done |].
  apply loop_cases in Hrun
    as [(_ & -> & _) | [(Hle & res & _ & -> & _) | (Hle & err & log' & Hf & Hrec & ->)]].
  - by apply not_elem_of_nil in Hin.
  - by apply list_elem_of_singleton in Hin.
  - apply elem_of_cons in Hin as [Hin | Hin]; [done |].
    apply elem_of_app in Hin as [Hin | Hin].
    + unfold pause in Hin. destruct (Z.ltb_spec a maxRetries);
        [| by apply not_elem_of_nil in Hin].
      apply list_elem_of_singleton in Hin. injection Hin as ->.
      exists a. repeat split; try done; try lia. by exists err.
    + destruct (IH _ _ _ Hrec Hin) as (i & ? & ? & ?). exists i.
      repeat split; try done; lia.
Qed.

(** After a failed attempt that is not the last one the wrapper waits
    [baseDelay × 2^attempt] and then makes the next attempt. *)
Lemma loop_backoff (fuel : nat) (a : Z) (last : option string)
    (log : list Event) (outcome : Outcome A) (i : Z) :
  loop fuel a last = Some (log, outcome) →
  a ≤ i < maxRetries →
  (∀ j, a ≤ j ≤ i → fails (net j)) →
  ∃ l1 l2 e e',
    log = l1 ++ attempted url i e :: waited (baseDelay * 2 ^ i)
                :: attempted url (i + 1) e' :: l2.
Proof.
  revert a last log. induction fuel as [| fuel IH]; intros a last log Hrun Hi Hfail;
    [done |].
  apply loop_cases in Hrun
    as [(? & _) | [(Hle & res & Hres & _) | (Hle & err & log' & Hf & Hrec & ->)]].
  - lia.
  - destruct (Hfail a ltac:(lia)) as [err Herr]. congruence.
  - destruct (decide (a = i)) as [-> | Hne].
    + unfold pause. destruct (Z.ltb_spec i maxRetries); [| lia].
      destruct fuel as [| fuel]; [done |].
      apply loop_cases in Hrec
        as [(? & _) | [(_ & res & _ & -> & _) | (_ & err' & log'' & _ & _ & ->)]].
      * lia.
      * by exists [], [], (fetch (net i)).1, (fetch (net (i + 1))).1.
      * by eexists [], _, (fetch (net i)).1, (fetch (net (i + 1))).1.
    + destruct (IH _ _ _ Hrec ltac:(lia)) as (l1 & l2 & e & e' & ->).
      { intros j Hj. apply Hfail. lia. }
      exists (attempted url a (fetch (net a)).1 :: pause a ++ l1), l2, e, e'.
      cbn [app]. by rewrite <- app_assoc.
Qed.

(** When every attempt fails, all [maxRetries + 1] of them are made and
    the last error is thrown. *)
Lemma loop_exhausted (fuel : nat) (a : Z) (last : option string)
    (log : list Event) (outcome : Outcome A) :
  loop fuel a last = Some (log, outcome) →
  a ≤ maxRetries →
  (∀ j, a ≤ j ≤ maxRetries → fails (net j)) →
  tries log = Z.to_nat (maxRetries + 1 - a)
  ∧ ∃ err, outcome = Thrown (Some err) ∧ (fetch (net maxRetries)).2 = Rejected err.
Proof.
  revert a last log. induction fuel as [| fuel IH]; intros a last log Hrun Ha Hfail;
    [done |].
  apply loop_cases in Hrun
    as [(? & _) | [(Hle & res & Hres & _) | (Hle & err & log' & Hf & Hrec & ->)]].
  - lia.
  - destruct (Hfail a ltac:(lia)) as [err Herr]. congruence.
  - rewrite tries_cons, tries_app. simpl.
    assert (tries (pause a) = 0%nat) as -> by (unfold pause; by destruct (_ <? _)).
    destruct (decide (a = maxRetries)) as [-> | Hne].
    + destruct fuel as [| fuel]; [done |].
      rewrite loop_exit in Hrec by lia. injection Hrec as <- <-.
      split; [unfold tries; simpl; lia |]. by exists err.
    + destruct (IH _ _ _ Hrec ltac:(lia)) as (Ht & err' & ? & ?).
      { intros j Hj. apply Hfail. lia. }
      split; [lia |]. by exists err'.
Qed.

(** A response that is returned is that of the first attempt the network
    answers in time. *)
Lemma loop_returned (fuel : nat) (a : Z) (last : option string)
    (log : list Event) (res : A) :
  loop fuel a last = Some (log, Returned res) →
  ∃ i, a ≤ i ≤ maxRetries ∧ (fetch (net i)).2 = Resolved res
       ∧ ∀ j, a ≤ j < i → fails (net j).
Proof.
  revert a last log. induction fuel as [| fuel IH]; intros a last log Hrun; [done |].
  apply loop_cases in Hrun
    as [(_ & _ & ?) | [(Hle & res' & Hres & _ & ?) | (Hle & err & log' & Hf & Hrec & _)]].
  - done.
  - exists a. repeat split; try lia. congruence.
  - destruct (IH _ _ _ Hrec) as (i & ? & ? & Hbefore). exists i.
    repeat split; try done; try lia.
    intros j Hj. destruct (decide (j = a)) as [-> | ?]; [by exists err |].
    apply Hbefore. lia.
Qed.

End Retry.

Lemma fetchWithRetry_total {A : Type} (net : Z → Wire A) (url : string)
    (maxRetries baseDelay : Z) :
  0 ≤ baseDelay → baseDelay * 2 ^ maxRetries ≤ 2147483647 →
  is_Some (fetchWithRetry net url (Some maxRetries) (Some baseDelay)).
Proof. intros Hb Hfit. unfold fetchWithRetry. apply loop_total; [done | done | lia]. Qed.

Lemma pollQuestion_total {A : Type} (net : Z → Wire A) : is_Some (pollQuestion net).
Proof. apply fetchWithRetry_total; [lia | done]. Qed.

Lemma submitAnswer_total {A : Type} (net : Z → Wire A) : is_Some (submitAnswer net).
Proof. apply fetchWithRetry_total; [lia | done]. Qed.

(** The two call sites, attempt by attempt. *)
Lemma pollQuestion_cases {A : Type} (net : Z → Wire A) :
  pollQuestion net
  = match (fetch (net 0)).2 with
    | Resolved res => Some ([attempted "/api/question" 0 (fetch (net 0)).1], Returned res)
    | Rejected _ =>
        Some ([attempted "/api/question" 0 (fetch (net 0)).1; waited 300;
               attempted "/api/question" 1 (fetch (net 1)).1],
              match (fetch (net 1)).2 with
              | Resolved res => Returned res
              | Rejected err => Thrown (Some err)
              end)
    end.
Proof.
  change (pollQuestion net) with (attempts 3 net "/api/question" 1 300 0 None).
  cbn [attempts]. change (0 <=? 1) with true. change (0 + 1 <=? 1) with true.
  change (0 + 1 + 1 <=? 1) with false.
  change ((0 <? 1) && negb (fits (300 * 2 ^ 0))) with false.
  change ((0 + 1 <? 1) && negb (fits (300 * 2 ^ (0 + 1)))) with false.
  change (0 <? 1) with true. change (0 + 1 <? 1) with false.
  change (300 * 2 ^ 0) with 300. change (0 + 1) with 1. cbv iota.
  destruct (fetch (net 0)) as [e0 [res0 | err0]]; [done |].
  by destruct (fetch (net 1)) as [e1 [res1 | err1]].
Qed.

Lemma submitAnswer_cases {A : Type} (net : Z → Wire A) :
  submitAnswer net
  = match (fetch (net 0)).2 with
    | Resolved res => Some ([attempted "/api/answer" 0 (fetch (net 0)).1], Returned res)
    | Rejected _ =>
        match (fetch (net 1)).2 with
        | Resolved res =>
            Some ([attempted "/api/answer" 0 (fetch (net 0)).1; waited 300;
                   attempted "/api/answer" 1 (fetch (net 1)).1], Returned res)
        | Rejected _ =>
            Some ([attempted "/api/answer" 0 (fetch (net 0)).1; waited 300;
                   attempted "/api/answer" 1 (fetch (net 1)).1; waited 600;
                   attempted "/api/answer" 2 (fetch (net 2)).1],
                  match (fetch (net 2)).2 with
                  | Resolved res => Returned res
                  | Rejected err => Thrown (Some err)
                  end)
        end
    end.
Proof.
  change (submitAnswer net) with (attempts 4 net "/api/answer" 2 300 0 None).
  cbn [attempts]. change (0 <=? 2) with true. change (0 + 1 <=? 2) with true.
  change (0 + 1 + 1 <=? 2) with true. change (0 + 1 + 1 + 1 <=? 2) with false.
  change ((0 <? 2) && negb (fits (300 * 2 ^ 0))) with false.
  change ((0 + 1 <? 2) && negb (fits (300 * 2 ^ (0 + 1)))) with false.
  change ((0 + 1 + 1 <? 2) && negb (fits (300 * 2 ^ (0 + 1 + 1)))) with false.
  change (0 <? 2) with true. change (0 + 1 <? 2) with true.
  change (0 + 1 + 1 <? 2) with false.
  change (300 * 2 ^ 0) with 300. change (300 * 2 ^ (0 + 1)) with 600.
  change (0 + 1 + 1) with 2. change (0 + 1) with 1. cbv iota.
  destruct (fetch (net 0)) as [e0 [res0 | err0]]; [done |].
  destruct (fetch (net 1)) as [e1 [res1 | err1]]; [done |].
  by destruct (fetch (net 2)) as [e2 [res2 | err2]].
Qed.

(** C7, as the code has it: for an integer [maxRetries] and pauses that
    [setTimeout] takes as they are, a call makes at most [maxRetries + 1]
    attempts, the first one and [maxRetries] retries; every attempt is cut
    off at 8000 ms; after a failed attempt that is not the last the wrapper
    waits [baseDelay × 2^attempt], attempts counted from 0, and tries again;
    when every attempt fails the last error is thrown to the caller.  A poll
    makes one retry after 300 ms: [fetchQuestion] looks at the first two
    attempts and no further.  An answer submission makes two, after 300 and
    600 ms: [handleSubmit] looks at the first three attempts. *)
Theorem fetchWithRetry_budget {A : Type} (net : Z → Wire A) (url : string)
    (maxRetries baseDelay : Z) :
  0 ≤ baseDelay → baseDelay * 2 ^ maxRetries ≤ 2147483647 →
  ∃ log outcome,
    fetchWithRetry net url (Some maxRetries) (Some baseDelay) = Some (log, outcome)
    ∧ (tries log ≤ Z.to_nat (maxRetries + 1))%nat
    ∧ (∀ u i e, attempted u i e ∈ log →
         u = url ∧ 0 ≤ i ≤ maxRetries ∧ e = (fetch (net i)).1 ∧ e ≤ 8000)
    ∧ (∀ d, waited d ∈ log →
         ∃ i, 0 ≤ i < maxRetries ∧ d = baseDelay * 2 ^ i ∧ 0 ≤ d ≤ 2147483647
              ∧ fails (net i))
    ∧ (∀ i, 0 ≤ i < maxRetries → (∀ j, 0 ≤ j ≤ i → fails (net j)) →
         ∃ l1 l2 e e',
           log = l1 ++ attempted url i e :: waited (baseDelay * 2 ^ i)
                       :: attempted url (i + 1) e' :: l2)
    ∧ (0 ≤ maxRetries → (∀ j, 0 ≤ j ≤ maxRetries → fails (net j)) →
         tries log = Z.to_nat (maxRetries + 1)
         ∧ ∃ err, outcome = Thrown (Some err)
                  ∧ (fetch (net maxRetries)).2 = Rejected err)
    ∧ (∀ res, outcome = Returned res →
         ∃ i, 0 ≤ i ≤ maxRetries ∧ (fetch (net i)).2 = Resolved res
              ∧ ∀ j, 0 ≤ j < i → fails (net j))
    ∧ (∀ poll : Z → Wire (HttpResponse.t QuestionData.t),
         ∃ plog pout,
           pollQuestion poll = Some (plog, pout)
           ∧ (tries plog ≤ 2)%nat
           ∧ (fails (poll 0) →
              ∃ e e', plog = [attempted "/api/question" 0 e; waited 300;
                              attempted "/api/question" 1 e'])
           ∧ (∀ res, (fetch (poll 1)).2 = Resolved res → fails (poll 0) →
                     pout = Returned res)
           ∧ (∀ c data after,
                fails (poll 0) →
                poll 1 = Responds after (HttpResponse.Make true (Some data)) →
                after < 8000 → fetchQuestion poll c = Some (received data c))
           ∧ (∀ c poll', poll' 0 = poll 0 → poll' 1 = poll 1 →
                         fetchQuestion poll' c = fetchQuestion poll c))
    ∧ (∀ submit : Z → Wire (HttpResponse.t Response),
         ∃ slog sout,
           submitAnswer submit = Some (slog, sout)
           ∧ (tries slog ≤ 3)%nat
           ∧ (fails (submit 0) → fails (submit 1) →
              ∃ e e' e'', slog = [attempted "/api/answer" 0 e; waited 300;
                                  attempted "/api/answer" 1 e'; waited 600;
                                  attempted "/api/answer" 2 e''])
           ∧ (∀ res, (fetch (submit 2)).2 = Resolved res →
                     fails (submit 0) → fails (submit 1) → sout = Returned res)
           ∧ (∀ playerId submitting c submit',
                submit' 0 = submit 0 → submit' 1 = submit 1 → submit' 2 = submit 2 →
                handleSubmit submit' playerId submitting c
                = handleSubmit submit playerId submitting c)).
Proof.
  intros Hb Hfit.
  destruct (loop_total net url maxRetries baseDelay
              (S (Z.to_nat (maxRetries + 1))) 0 None Hb Hfit) as [[log outcome] Hrun];
    [lia |].
  exists log, outcome. split; [exact Hrun |].
  split; [| split; [| split; [| split; [| split; [| split; [| split]]]]]].
  - apply loop_tries in Hrun. by rewrite Z.sub_0_r in Hrun.
  - intros u i e. by apply (loop_attempted _ _ _ _ _ _ _ _ _ _ _ _ Hrun).
  - intros d Hd.
    destruct (loop_waited _ _ _ _ _ _ _ _ _ _ Hrun Hd) as (i & Hi & -> & Hfail).
    exists i. split; [done |]. split; [done |]. split; [| done].
    pose proof (fits_pause maxRetries baseDelay i Hb Hfit) as Hin.
    unfold fits in Hin. rewrite (proj2 (Z.ltb_lt i maxRetries)) in Hin by lia.
    cbn [andb] in Hin. apply negb_false_iff, andb_prop in Hin as [H0 H1]. lia.
  - intros i. by apply (loop_backoff _ _ _ _ _ _ _ _ _ _ Hrun).
  - intros Hmax Hfail.
    destruct (loop_exhausted _ _ _ _ _ _ _ _ _ Hrun Hmax Hfail) as [Ht He].
    by rewrite Z.sub_0_r in Ht.
  - intros res ->. by apply (loop_returned _ _ _ _ _ _ _ _ _ Hrun).
  - intros poll. rewrite pollQuestion_cases.
    destruct ((fetch (poll 0)).2) as [res0 | err0] eqn:H0.
    + eexists _, _. split; [reflexivity |]. split; [unfold tries; simpl; lia |].
      split; [intros [err He]; congruence |].
      split; [intros res _ [err He]; congruence |].
      split; [intros c data after [err He]; congruence |].
      intros c poll' E0 E1. unfold fetchQuestion.
      rewrite !pollQuestion_cases, E0, E1, H0. done.
    + eexists _, _. split; [reflexivity |]. split; [unfold tries; simpl; lia |].
      split; [intros _; by eexists _, _ |].
      split; [intros res -> _; done |].
      split.
      * intros c data after _ H1 Hafter. unfold fetchQuestion.
        rewrite pollQuestion_cases, H0, H1. cbn [fetch].
        destruct (Z.ltb_spec after 8000); [done | lia].
      * intros c poll' E0 E1. unfold fetchQuestion.
        rewrite !pollQuestion_cases, E0, E1, H0. done.
  - intros submit. rewrite submitAnswer_cases.
    assert (Hsame : ∀ playerId submitting c submit',
              submit' 0 = submit 0 → submit' 1 = submit 1 → submit' 2 = submit 2 →
              handleSubmit submit' playerId submitting c
              = handleSubmit submit playerId submitting c).
    { intros playerId submitting c submit' E0 E1 E2. unfold handleSubmit.
      by rewrite !submitAnswer_cases, E0, E1, E2. }
    destruct ((fetch (submit 0)).2) as [res0 | err0] eqn:H0.
    + eexists _, _. split; [reflexivity |]. split; [unfold tries; simpl; lia |].
      split; [intros [err He]; congruence |].
      split; [intros res _ [err He]; congruence | exact Hsame].
    + destruct ((fetch (submit 1)).2) as [res1 | err1] eqn:H1.
      * eexists _, _. split; [reflexivity |]. split; [unfold tries; simpl; lia |].
        split; [intros _ [err He]; congruence |].
        split; [intros res _ _ [err He]; congruence | exact Hsame].
      * eexists _, _. split; [reflexivity |]. split; [unfold tries; simpl; lia |].
        split; [intros _ _; by eexists _, _, _ |].
        split; [intros res -> _ _; done | exact Hsame].
Qed.

Lemma fetchWithRetry_budget_witness :
  ∃ log outcome,
    fetchWithRetry (@dead unit) "/api/answer" (Some 2) (Some 300) = Some (log, outcome)
    ∧ tries log = 3%nat
    ∧ (∃ l1 l2 e e',
         log = l1 ++ attempted "/api/answer" 1 e :: waited 600
                     :: attempted "/api/answer" 2 e' :: l2)
    ∧ ∃ err, outcome = Thrown (Some err).
Proof.
  destruct (fetchWithRetry_budget (@dead unit) "/api/answer" 2 300)
    as (log & outcome & Hrun & _ & _ & _ & Hwait & Hall & _); [lia | done |].
  assert (Hdead : ∀ j : Z, fails (@dead unit j)) by (intros j; by exists "AbortError").
  exists log, outcome. split; [done |].
  destruct (Hall ltac:(lia) (λ j _, Hdead j)) as (Ht & err & Hout & _).
  split; [done |]. split; [| by exists err].
  apply (Hwait 1 ltac:(lia) (λ j _, Hdead j)).
Defined.

(** The claim of C7 fails on the number of attempts: a poll has
    [maxRetries = 1] and, on a network that never answers, makes 2
    attempts. *)
Lemma poll_makes_two_attempts :
  fetchWithRetry (@dead unit) "/api/question" (Some 1) (Some 300)
  = Some ([attempted "/api/question" 0 8000; waited 300;
           attempted "/api/question" 1 8000],
          Thrown (Some "AbortError"))
  ∧ tries [attempted "/api/question" 0 8000; waited 300;
           attempted "/api/question" 1 8000] = 2%nat
  ∧ ¬ (2 ≤ 1)%nat.
Proof. split; [done |]. split; [done | lia]. Qed.

(** ** The client's connection health *)

Lemma fetchQuestion_total (net : Z → Wire (HttpResponse.t QuestionData.t)) (c : Client) :
  is_Some (fetchQuestion net c).
Proof.
  unfold fetchQuestion.
  destruct (pollQuestion_total net)
    as [[log outcome] ->].
  by eexists.
Qed.

Lemma linked_failed (c : Client) : linked c → linked (failed c).
Proof.
  unfold linked, failed. intros (Hf & H0 & H1 & H2 & H5).
  destruct (Z.leb_spec 5 (consecutiveFailures c + 1));
    [| destruct (Z.leb_spec 2 (consecutiveFailures c + 1))]; cbn;
    (split; [lia |]); repeat split; intros; try lia;
    destruct H0 as [? ?]; (lia || done).
Qed.

Lemma linked_received (data : QuestionData.t) (c : Client) :
  linked c → recovered (received data c).
Proof.
  unfold linked, recovered, received. intros (Hf & H0 & _).
  cbn [consecutiveFailures connectionStatus pollIntervalRef lastQuestionId].
  destruct (Z.ltb_spec 0 (consecutiveFailures c)); case_bool_decide; cbn;
    try done; destruct H0 as [? ?]; try lia; repeat split; try done; lia.
Qed.

Lemma recovered_linked (c : Client) : recovered c → linked c.
Proof. unfold recovered, linked. intros (-> & -> & ->). repeat split; lia || done. Qed.

Lemma linked_happen (h : Happening) (c : Client) :
  h ≠ BrowserOffline → linked c → ∃ c', happen h c = Some c' ∧ linked c'.
Proof.
  intros Hh Hc. destruct h as [net | |]; [| done |].
  - simpl. unfold fetchQuestion.
    destruct (pollQuestion_total net)
      as [[log outcome] ->].
    simpl. eexists. split; [done |].
    destruct outcome as [res | err]; [| by apply linked_failed].
    destruct (HttpResponse.ok res); simpl; [| done].
    destruct (HttpResponse.json res) as [data |];
      [by apply recovered_linked, linked_received | by apply linked_failed].
  - simpl. eexists. split; [done |]. by apply recovered_linked.
Qed.

Lemma linked_session (hs : list Happening) (c : Client) :
  Forall (λ h, h ≠ BrowserOffline) hs → linked c →
  ∃ c', session hs c = Some c' ∧ linked c'.
Proof.
  intros Hhs. revert c. induction Hhs as [| h hs Hh _ IH]; intros c Hc; [by exists c |].
  destruct (linked_happen h c Hh Hc) as (c1 & Hstep & Hc1).
  destruct (IH c1 Hc1) as (c' & Hrest & Hc'). exists c'. simpl. by rewrite Hstep.
Qed.

Lemma fetchQuestion_recovers (net : Z → Wire (HttpResponse.t QuestionData.t))
    (c : Client) :
  succeeds net → linked c → ∃ c', fetchQuestion net c = Some c' ∧ recovered c'.
Proof.
  intros (log & res & data & Hrun & Hok & Hjson) Hc. unfold fetchQuestion, pollQuestion.
  rewrite Hrun. simpl. rewrite Hok, Hjson. simpl. eexists. split; [done |].
  by apply linked_received.
Qed.

(** C6, as the code has it: as long as the browser reports no [offline]
    event, the failure counter [f], the status and the poll interval stay
    linked after every poll and [online] event — 0 or 1 failure: connected
    at 1500 ms, 2 to 4: reconnecting at 4000 ms, 5 or more: offline at
    10000 ms — and a successful poll leaves [f = 0], connected, 1500 ms. An
    [offline] event sets the status alone. *)
Theorem health_linked (hs : list Happening) :
  Forall (λ h, h ≠ BrowserOffline) hs →
  ∃ c,
    session hs mounted = Some c
    ∧ linked c
    ∧ (∀ net, succeeds net → ∃ c', fetchQuestion net c = Some c' ∧ recovered c')
    ∧ connectionStatus (goOffline c) = offline
    ∧ consecutiveFailures (goOffline c) = consecutiveFailures c
    ∧ pollIntervalRef (goOffline c) = pollIntervalRef c.
Proof.
  intros Hhs.
  destruct (linked_session hs mounted Hhs) as (c & Hrun & Hc).
  { by apply recovered_linked. }
  exists c. split; [done |]. split; [done |]. split; [| done].
  intros net Hnet. by apply fetchQuestion_recovers.
Qed.

Lemma health_linked_witness :
  ∃ c,
    session [Polls dead; Polls dead; Polls dead; Polls dead; Polls dead] mounted = Some c
    ∧ linked c
    ∧ consecutiveFailures c = 5 ∧ connectionStatus c = offline ∧ pollIntervalRef c = 10000
    ∧ ∃ c', fetchQuestion healthy c = Some c' ∧ recovered c'.
Proof.
  destruct (health_linked [Polls dead; Polls dead; Polls dead; Polls dead; Polls dead])
    as (c & Hrun & Hc & Hgood & _).
  { repeat constructor; discriminate. }
  exists c. split; [done |]. split; [done |].
  vm_compute in Hrun. injection Hrun as <-.
  split; [done |]. split; [done |]. split; [done |].
  apply Hgood. by eexists _, _, _.
Defined.

(** The claim of C6 fails once the browser reports [offline]: the counter
    is 0 and the status is offline, and a poll that succeeds then leaves the
    status offline. *)
Lemma offline_event_breaks_linkage :
  session [BrowserOffline] mounted = Some (goOffline mounted)
  ∧ consecutiveFailures (goOffline mounted) = 0
  ∧ connectionStatus (goOffline mounted) = offline
  ∧ succeeds healthy
  ∧ ∃ c, session [BrowserOffline; Polls healthy] mounted = Some c
         ∧ consecutiveFailures c = 0 ∧ connectionStatus c = offline.
Proof.
  split; [done |]. split; [done |]. split; [done |]. split.
  - by eexists _, _, _.
  - by eexists.
Qed.

(** ** What the operations do to the collections *)

Lemma exec_question_kept {X : Type} (o : op X) (w : World) (q : nat) (qu : IQuestion.t) :
  questions w !! q = Some qu →
  ∃ qu', questions (exec o w).1 !! q = Some qu'
         ∧ IQuestion.text qu' = IQuestion.text qu
         ∧ IQuestion.answer qu' = IQuestion.answer qu
         ∧ IQuestion.createdAt qu' = IQuestion.createdAt qu
         ∧ (is_Some (IQuestion.winnerId qu) →
            IQuestion.winnerId qu' = IQuestion.winnerId qu
            ∧ IQuestion.winnerName qu' = IQuestion.winnerName qu)
         ∧ (IQuestion.isActive qu = false → IQuestion.isActive qu' = false).
Proof.
  intros Hq. destruct o; simpl; try by (exists qu).
  - (* the conditional claim *)
    destruct (questions w !! qid) as [q0 |] eqn:Hq0; [| by exists qu].
    destruct (IQuestion.winnerId q0) eqn:Hw0; [by exists qu |].
    destruct (IQuestion.isActive q0) eqn:Ha0; [| by exists qu]. simpl.
    destruct (decide (qid = q)) as [-> | Hne].
    + rewrite lookup_insert_eq. assert (q0 = qu) as -> by congruence.
      eexists. split; [done |]. split; [done |]. split; [done |]. split; [done |].
      split.
      * intros [? ?]. congruence.
      * congruence.
    + rewrite lookup_insert_ne by done. by exists qu.
  - destruct (questions w !! qid) as [q0 |] eqn:Hq0; [| by exists qu]. simpl.
    destruct (decide (qid = q)) as [-> | Hne].
    + rewrite lookup_insert_eq. assert (q0 = qu) as -> by congruence.
      by eexists.
    + rewrite lookup_insert_ne by done. by exists qu.
  - destruct (questions w !! qid) as [q0 |] eqn:Hq0; [| by exists qu]. simpl.
    destruct (decide (qid = q)) as [-> | Hne].
    + rewrite lookup_insert_eq. assert (q0 = qu) as -> by congruence.
      by eexists.
    + rewrite lookup_insert_ne by done. by exists qu.
  - (* a new document never takes the place of an old one *)
    destruct (decide (fresh (dom (questions w)) = q)) as [He | Hne].
    + pose proof (fresh_unused (questions w)) as Hf. rewrite He in Hf. congruence.
    + rewrite lookup_insert_ne by done. by exists qu.
  - destruct (findOne_username name (players w)); by exists qu.
  - destruct (players w !! pid); by exists qu.
  - destruct (players w !! pid); by exists qu.
Qed.

Lemma exec_player_kept {X : Type} (o : op X) (w : World) (pid : nat) (p : IPlayer.t) :
  players w !! pid = Some p →
  ∃ p', players (exec o w).1 !! pid = Some p'
        ∧ IPlayer.username p' = IPlayer.username p
        ∧ IPlayer.highScore p' = IPlayer.highScore p.
Proof.
  intros Hp. destruct o; simpl; try by (exists p).
  - destruct (questions w !! qid) as [q0 |]; [| by exists p].
    destruct (IQuestion.winnerId q0); [by exists p |].
    destruct (IQuestion.isActive q0); by exists p.
  - destruct (questions w !! qid); by exists p.
  - destruct (questions w !! qid); by exists p.
  - destruct (findOne_username name (players w)); [by exists p |]. simpl.
    destruct (decide (fresh (dom (players w)) = pid)) as [He | Hne].
    + pose proof (fresh_unused (players w)) as Hf. rewrite He in Hf. congruence.
    + rewrite lookup_insert_ne by done. by exists p.
  - destruct (players w !! pid0) as [p0 |] eqn:Hp0; [| by exists p]. simpl.
    destruct (decide (pid0 = pid)) as [-> | Hne].
    + rewrite lookup_insert_eq. assert (p0 = p) as -> by congruence. by eexists.
    + rewrite lookup_insert_ne by done. by exists p.
  - destruct (players w !! pid0) as [p0 |] eqn:Hp0; [| by exists p]. simpl.
    destruct (decide (pid0 = pid)) as [-> | Hne].
    + rewrite lookup_insert_eq. assert (p0 = p) as -> by congruence. by eexists.
    + rewrite lookup_insert_ne by done. by exists p.
Qed.

Lemma exec_quiet {X : Type} (o : op X) (w : World) :
  touches_players o = false → players (exec o w).1 = players w.
Proof.
  destruct o; simpl; try done.
  - destruct (questions w !! qid) as [q0 |]; [| done].
    destruct (IQuestion.winnerId q0); [done |]. by destruct (IQuestion.isActive q0).
  - by destruct (questions w !! qid).
  - by destruct (questions w !! qid).
Qed.

(** The conditional update of the answer route, spelled out: it writes
    exactly when the question exists, is active and has no winner, and then
    it sets [winnerId] and [winnerName] and nothing else. *)
Lemma exec_claim (qid pid : nat) (name : string) (w : World) :
  match questions w !! qid with
  | Some q =>
      if bool_decide (IQuestion.winnerId q = None ∧ IQuestion.isActive q = true)
      then exec (Question_findOneAndUpdate qid pid name) w
           = (with_questions (<[qid := claim pid name q]> (questions w)) w,
              Some (claim pid name q))
      else exec (Question_findOneAndUpdate qid pid name) w = (w, None)
  | None => exec (Question_findOneAndUpdate qid pid name) w = (w, None)
  end.
Proof.
  simpl. destruct (questions w !! qid) as [q |]; [| done].
  destruct (IQuestion.winnerId q), (IQuestion.isActive q); case_bool_decide as H;
    first [done | by destruct H | by exfalso; apply H].
Qed.

(** What one operation of a conforming answer request does: nothing to the
    collections and to its phase, or the claim, or the increment. *)
Lemma legal_step (playerId questionId : option ObjectId) (ph ph' : Phase)
    {X : Type} (o : op X) (w : World) :
  legal playerId questionId ph o (exec o w).2 ph' →
  (ph' = ph ∧ questions (exec o w).1 = questions w ∧ players (exec o w).1 = players w)
  ∨ (ph = Pending ∧ ph' = Claimed
     ∧ ∃ q p name qu,
         questionId = Some q ∧ playerId = Some p
         ∧ questions w !! q = Some qu ∧ IQuestion.winnerId qu = None
         ∧ questions (exec o w).1 = <[q := claim p name qu]> (questions w)
         ∧ players (exec o w).1 = players w)
  ∨ (ph = Claimed ∧ ph' = Credited
     ∧ ∃ p,
         playerId = Some p
         ∧ questions (exec o w).1 = questions w
         ∧ players (exec o w).1
           = match players w !! p with
             | Some pl => <[p := set_score (IPlayer.score pl + 1) pl]> (players w)
             | None => players w
             end).
Proof.
  destruct o; simpl; try done.
  - intros [-> ->]. by left.
  - intros (-> & -> & -> & Hph').
    destruct (questions w !! qid) as [qu |] eqn:Hq; [| by left].
    destruct (IQuestion.winnerId qu) eqn:Hw; [by left |].
    destruct (IQuestion.isActive qu); [| by left].
    right; left. split; [done |]. split; [done |]. by exists qid, pid, name, qu.
  - intros [-> ->]. by left.
  - intros (-> & -> & ->). right; right. split; [done |]. split; [done |].
    exists pid. split; [done |]. by destruct (players w !! pid).
  - intros [-> ->]. by left.
Qed.

(** ** What the handlers can do *)

Ltac walk :=
  repeat first
    [ progress cbn [conforms replies uses legal phase bind negb]
    | progress intros
    | match goal with
      | |- _ ∧ _ => split
      | |- context [match ?x with _ => _ end] => destruct x
      | |- context [if ?b then _ else _] => destruct b
      end
    | done ].

Lemma POST_conforms (playerId questionId : option ObjectId) (answer : option JsNumber) :
  conforms playerId questionId (AnswerRoute.POST playerId questionId answer).
Proof. unfold AnswerRoute.POST. walk. Qed.

Lemma POST_replies (playerId questionId : option ObjectId) (answer : option JsNumber) :
  replies outcome (AnswerRoute.POST playerId questionId answer).
Proof.
  unfold AnswerRoute.POST, outcome, specified. walk; try tauto.
  right; right; right. repeat right. by eexists.
Qed.

Lemma replies_mono {R : Type} (P Q : R → Prop) (p : prog R) :
  (∀ r, P r → Q r) → replies P p → replies Q p.
Proof.
  intros HPQ. induction p as [r | X o k IH]; simpl; [apply HPQ |].
  intros Hp x. apply IH, Hp.
Qed.

Lemma POST_req_replies (body : AnswerRoute.Body) :
  replies caught (AnswerRoute.POST_req body).
Proof.
  destruct body as [| | [| | playerId] [| | questionId] [[| numAnswer] |]];
    cbn [AnswerRoute.POST_req replies];
    try (by right);
    try (left; unfold outcome; tauto).
  - intros [question |]; [| left; unfold outcome, specified; tauto].
    destruct (negb (IQuestion.isActive question));
      [left; unfold outcome, specified; tauto |].
    destruct (bool_decide _); [left; unfold outcome, specified; tauto |].
    destruct (negb (Qeq_bool _ _)); [left; unfold outcome, specified; tauto | by right].
  - apply (replies_mono outcome); [by left | apply POST_replies].
Qed.

Lemma POST_pending (playerId questionId : option ObjectId) (answer : option JsNumber) :
  phase (AnswerRoute.POST playerId questionId answer) = Pending.
Proof. unfold AnswerRoute.POST. by destruct playerId, questionId, answer as [[| ?] |]. Qed.

Lemma uses_bind {A B : Type} (P : ∀ X, op X → Prop) (p : prog A) (f : A → prog B) :
  uses P p → (∀ a, uses P (f a)) → uses P (bind p f).
Proof.
  intros Hp Hf. induction p as [a | X o k IH]; simpl in *; [done |].
  destruct Hp as [Ho Hk]. split; [done |]. intros x. by apply IH.
Qed.

Lemma generateQuestion_quiet : quiet generateQuestion.
Proof.
  unfold quiet, generateQuestion. cbn [uses]. split; [done |]. intros u.
  destruct (index operators _) as [[] |]; [| | | | done];
    repeat (apply uses_bind; [by cbn | intros ?]); done.
Qed.

Lemma rotation_quiet (questionId : ObjectId) : quiet (AnswerRoute.rotation questionId).
Proof.
  unfold quiet, AnswerRoute.rotation. cbn [uses]. split; [done |]. intros _.
  apply uses_bind; [apply generateQuestion_quiet |]. intros [q |]; by cbn.
Qed.

(** ** Requests in flight *)

Lemma tally_insert (f : thread → bool) (l : list thread) (i : nat) (t t' : thread) :
  l !! i = Some t →
  (tally f (<[i := t']> l) + Nat.b2n (f t) = tally f l + Nat.b2n (f t'))%nat.
Proof.
  revert i. induction l as [| t0 l IH]; intros [| i] Hi; simplify_eq/=.
  - destruct (f t), (f t'); simpl; lia.
  - specialize (IH i Hi). destruct (f t0); simpl; lia.
Qed.

Lemma tally_app (f : thread → bool) (l1 l2 : list thread) :
  tally f (l1 ++ l2) = (tally f l1 + tally f l2)%nat.
Proof. induction l1 as [| t l1 IH]; simpl; [done |]. rewrite IH. lia. Qed.

Lemma tally_le (f g : thread → bool) (l : list thread) :
  Forall (λ t, f t = true → g t = true) l → (tally f l ≤ tally g l)%nat.
Proof.
  induction 1 as [| t l Ht _ IH]; simpl; [done |].
  destruct (f t), (g t); simpl; try lia.
  all: try by discriminate Ht.
Qed.

Lemma tally_none (f : thread → bool) (l : list thread) :
  Forall (λ t, f t = false) l → tally f l = 0%nat.
Proof. induction 1 as [| t l Ht _ IH]; simpl; [done |]. by rewrite Ht, IH. Qed.

(** Two indicator sums that exclude each other fit under a third. *)
Lemma tally_disjoint (f g h : thread → bool) (l : list thread) :
  Forall (λ t, (f t = true → h t = true) ∧ (g t = true → h t = true)
               ∧ (f t = true → g t = true → False)) l →
  (tally f l + tally g l ≤ tally h l)%nat.
Proof.
  induction 1 as [| t l (Hf & Hg & Hfg) _ IH]; simpl; [done |].
  destruct (f t), (g t), (h t); simpl; try lia.
  all: try (exfalso; auto; by (discriminate Hf || discriminate Hg)).
Qed.

Lemma advance_cases (t t' : thread) (w w' : World) :
  advance t w = Some (w', t') →
  (∃ r X (o : op X) k,
     t = Serving r (Vis o k) ∧ w' = (exec o w).1 ∧ t' = Serving r (k (exec o w).2))
  ∨ (∃ X (o : op X) k,
       t = Detached (Vis o k) ∧ w' = (exec o w).1 ∧ t' = Detached (k (exec o w).2)).
Proof.
  destruct t as [r [a | X o k] | [a | X o k]]; simpl; try done;
    destruct (exec o w) as [w1 x] eqn:He; intros [= <- <-].
  - left. exists r, X, o, k. by rewrite He.
  - right. exists X, o, k. by rewrite He.
Qed.

Lemma perform_cases (a : action) (s s' : System) :
  perform a s = Some s' →
  (∃ i t w' t',
     a = Advance i ∧ pool s !! i = Some t ∧ advance t (world s) = Some (w', t')
     ∧ s' = {| world := w'; pool := <[i := t']> (pool s) |})
  ∨ (∃ d, a = Tick d ∧ 0 ≤ d
          ∧ s' = {| world := with_clock (clock (world s) + d) (world s);
                    pool := pool s |})
  ∨ (∃ i t, a = Fire i ∧ timers (world s) !! i = Some t ∧ due t ≤ clock (world s)
            ∧ s' = {| world := with_timers (delete i (timers (world s))) (world s);
                      pool := pool s ++ [Detached (AnswerRoute.rotation (rotates t))] |}).
Proof.
  destruct a as [i | d | i]; simpl.
  - destruct (pool s !! i) as [t |] eqn:Hi; [| done]. simpl.
    destruct (advance t (world s)) as [[w' t'] |] eqn:Ha; [| done]. simpl.
    intros [= <-]. left. by exists i, t, w', t'.
  - destruct (Z.leb_spec 0 d); [| done]. intros [= <-]. right; left. by exists d.
  - destruct (timers (world s) !! i) as [t |] eqn:Hi; [| done]. simpl.
    destruct (Z.leb_spec (due t) (clock (world s))); [| done]. intros [= <-].
    right; right. by exists i, t.
Qed.

Section Invariant.

Variable I : System → Prop.
Hypothesis preserved : ∀ a s s', I s → perform a s = Some s' → I s'.

Lemma execute_invariant (acts : list action) (s s' : System) :
  I s → execute acts s = Some s' → I s'.
Proof using preserved.
  revert s. induction acts as [| a acts IH]; intros s Hs; simpl.
  - by intros [= <-].
  - destruct (perform a s) as [s1 |] eqn:Ha; [| done]. simpl.
    apply IH. by apply (preserved a s).
Qed.

End Invariant.

(** A property of threads that booting, advancing and firing respect holds
    of every thread of every pool. *)
Section Threads.

Variable T : thread → Prop.
Variable reqs : list Request.
Hypothesis T_boot : ∀ r, r ∈ reqs → T (Serving r (handler r)).
Hypothesis T_fire : ∀ q, T (Detached (AnswerRoute.rotation q)).
Hypothesis T_advance : ∀ t w w' t', T t → advance t w = Some (w', t') → T t'.

Lemma threads_perform (a : action) (s s' : System) :
  Forall T (pool s) → perform a s = Some s' → Forall T (pool s').
Proof using T_fire T_advance.
  intros Hs Hperf.
  apply perform_cases in Hperf
    as [(i & t & w' & t' & _ & Hi & Hadv & ->) | [(d & _ & _ & ->) | (i & t & _ & _ & _ & ->)]];
    simpl.
  - apply Forall_insert; [done |].
    apply (T_advance t (world s) w' t'); [| done].
    by apply (Forall_lookup_1 _ _ _ _ Hs Hi).
  - done.
  - apply Forall_app. split; [done |]. by constructor.
Qed.

Lemma threads_execute (w : World) (acts : list action) (s : System) :
  execute acts (boot w reqs) = Some s → Forall T (pool s).
Proof using All.
  apply (execute_invariant (λ s, Forall T (pool s))).
  - intros a s0 s1. apply threads_perform.
  - simpl. apply Forall_fmap, Forall_forall. intros r Hr. by apply T_boot.
Qed.

End Threads.

(** ** At most one winner *)

Lemma holds_phase (q : ObjectId) (playerId questionId : option ObjectId)
    (answer : option JsNumber) (p : prog Response) :
  holds q (Serving (PostAnswer playerId questionId answer) p)
  = bool_decide (questionId = Some q) && negb (bool_decide (phase p = Pending)).
Proof.
  destruct questionId as [q' |]; simpl; [| done].
  f_equal. apply bool_decide_ext. split; congruence.
Qed.

Lemma one_holder_kept (q : ObjectId) (s : System) (l : list thread)
    (qs : gmap nat IQuestion.t) :
  (tally (holds q) (pool s) = 0%nat
   ∨ (tally (holds q) (pool s) = 1%nat
      ∧ ∃ qu, questions (world s) !! q = Some qu ∧ is_Some (IQuestion.winnerId qu))) →
  tally (holds q) l = tally (holds q) (pool s) →
  (∀ qu, questions (world s) !! q = Some qu → is_Some (IQuestion.winnerId qu) →
         ∃ qu', qs !! q = Some qu' ∧ is_Some (IQuestion.winnerId qu')) →
  tally (holds q) l = 0%nat
  ∨ (tally (holds q) l = 1%nat
     ∧ ∃ qu, qs !! q = Some qu ∧ is_Some (IQuestion.winnerId qu)).
Proof.
  intros [H0 | (H1 & qu & Hq & Hw)] -> Hkeep; [by left | right].
  split; [done |]. by apply (Hkeep qu).
Qed.

Lemma one_holder_perform (a : action) (s s' : System) :
  one_holder s → perform a s = Some s' → one_holder s'.
Proof.
  intros [Ht Hq] Hperf. split.
  { revert Hperf. apply threads_perform; [done | | done].
    intros t w w' t' Htyped Hadv.
    apply advance_cases in Hadv
      as [(r & X & o & k & -> & -> & ->) | (X & o & k & -> & -> & ->)]; [| done].
    destruct r; try done. simpl in *. apply Htyped. }
  intros q.
  apply perform_cases in Hperf
    as [(i & t & w' & t' & _ & Hi & Hadv & ->) | [(d & _ & _ & ->) | (i & t & _ & _ & _ & ->)]];
    simpl.
  - pose proof (tally_insert (holds q) _ _ _ t' Hi) as Htally.
    pose proof (Forall_lookup_1 _ _ _ _ Ht Hi) as Htyped.
    apply advance_cases in Hadv
      as [(r & X & o & k & -> & -> & ->) | (X & o & k & -> & -> & ->)].
    + destruct r as [playerId questionId answer | | | | |].
      * (* an answer request *)
        destruct (Htyped (exec o (world s)).2) as [Hlegal _].
        rewrite !holds_phase in Htally.
        apply legal_step in Hlegal
          as [(Hph & Hqs & _) | [(Hph & Hph' & q0 & p0 & name & qu & -> & _ & Hq0 & Hw0 & Hqs & _)
                                | (Hph & Hph' & _ & _ & Hqs & _)]].
        -- rewrite Hph in Htally. apply (one_holder_kept q s); [done | lia |].
           rewrite Hqs. eauto.
        -- rewrite Hph, Hph' in Htally. rewrite Hqs.
           destruct (decide (q0 = q)) as [-> | Hne].
           ++ rewrite !bool_decide_eq_true_2 in Htally by done. simpl in Htally.
              destruct (Hq q) as [H0 | (_ & qu' & Hqu' & [? Hw'])]; [| congruence].
              right. split; [lia |]. rewrite lookup_insert_eq. by eexists.
           ++ rewrite (bool_decide_eq_false_2 (Some q0 = Some q)) in Htally by congruence.
              apply (one_holder_kept q s); [done | simpl in Htally; lia |].
              intros qu' Hqu' Hw'. rewrite lookup_insert_ne by done. eauto.
        -- rewrite Hph, Hph' in Htally. apply (one_holder_kept q s);
             [done | simpl in Htally; lia |].
           rewrite Hqs. eauto.
      * apply (one_holder_kept q s); [done | simpl in Htally; lia |].
        intros qu Hqu Hw.
        destruct (exec_question_kept o (world s) q qu Hqu) as (qu' & ? & _ & _ & _ & Hk & _).
        exists qu'. split; [done |]. by destruct (Hk Hw) as [-> _].
      * apply (one_holder_kept q s); [done | simpl in Htally; lia |].
        intros qu Hqu Hw.
        destruct (exec_question_kept o (world s) q qu Hqu) as (qu' & ? & _ & _ & _ & Hk & _).
        exists qu'. split; [done |]. by destruct (Hk Hw) as [-> _].
      * apply (one_holder_kept q s); [done | simpl in Htally; lia |].
        intros qu Hqu Hw.
        destruct (exec_question_kept o (world s) q qu Hqu) as (qu' & ? & _ & _ & _ & Hk & _).
        exists qu'. split; [done |]. by destruct (Hk Hw) as [-> _].
      * apply (one_holder_kept q s); [done | simpl in Htally; lia |].
        intros qu Hqu Hw.
        destruct (exec_question_kept o (world s) q qu Hqu) as (qu' & ? & _ & _ & _ & Hk & _).
        exists qu'. split; [done |]. by destruct (Hk Hw) as [-> _].
      * apply (one_holder_kept q s); [done | simpl in Htally; lia |].
        intros qu Hqu Hw.
        destruct (exec_question_kept o (world s) q qu Hqu) as (qu' & ? & _ & _ & _ & Hk & _).
        exists qu'. split; [done |]. by destruct (Hk Hw) as [-> _].
    + apply (one_holder_kept q s); [done | simpl in Htally; lia |].
      intros qu Hqu Hw.
      destruct (exec_question_kept o (world s) q qu Hqu) as (qu' & ? & _ & _ & _ & Hk & _).
      exists qu'. split; [done |]. by destruct (Hk Hw) as [-> _].
  - apply (one_holder_kept q s); [done | done | eauto].
  - apply (one_holder_kept q s); [done | | eauto].
    rewrite tally_app. simpl. lia.
Qed.

Lemma one_holder_boot (w : World) (reqs : list Request) : one_holder (boot w reqs).
Proof.
  split; simpl.
  - apply Forall_fmap, Forall_forall. intros [] _; simpl; try done.
    apply POST_conforms.
  - intros q. left. apply tally_none, Forall_fmap, Forall_forall.
    intros [] _; try done. cbn [compose handler].
    rewrite holds_phase, POST_pending.
    rewrite (bool_decide_eq_true_2 (Pending = Pending)) by done. apply andb_false_r.
Qed.

Lemma one_holder_execute (w : World) (reqs : list Request) (acts : list action)
    (s : System) :
  execute acts (boot w reqs) = Some s → one_holder s.
Proof.
  apply (execute_invariant one_holder); [apply one_holder_perform |].
  apply one_holder_boot.
Qed.

(** ** Score accounting in a load of answers *)

Lemma paid_to_phase (pid : ObjectId) (playerId questionId : option ObjectId)
    (answer : option JsNumber) (p : prog Response) :
  paid_to pid (Serving (PostAnswer playerId questionId answer) p)
  = bool_decide (playerId = Some pid) && bool_decide (phase p = Credited).
Proof.
  destruct playerId as [pid' |]; simpl; [| done].
  f_equal. apply bool_decide_ext. split; congruence.
Qed.

Lemma paid_for_phase (q : ObjectId) (playerId questionId : option ObjectId)
    (answer : option JsNumber) (p : prog Response) :
  paid_for q (Serving (PostAnswer playerId questionId answer) p)
  = bool_decide (questionId = Some q) && bool_decide (phase p = Credited).
Proof.
  destruct questionId as [q' |]; simpl; [| done].
  f_equal. apply bool_decide_ext. split; congruence.
Qed.

Lemma batch_typed_advance (t : thread) (w w' : World) (t' : thread) :
  batch_typed t → advance t w = Some (w', t') → batch_typed t'.
Proof.
  intros Ht Hadv.
  apply advance_cases in Hadv
    as [(r & X & o & k & -> & -> & ->) | (X & o & k & -> & -> & ->)].
  - destruct r; try done. simpl in *. apply Ht.
  - simpl in *. apply Ht.
Qed.

Lemma accounted_perform (w0 : World) (a : action) (s s' : System) :
  accounted w0 s → perform a s = Some s' → accounted w0 s'.
Proof.
  intros [Ht Hacc] Hperf. split.
  { revert Hperf. apply threads_perform; [apply rotation_quiet | | done].
    apply batch_typed_advance. }
  intros pid p0 Hp0. destruct (Hacc pid p0 Hp0) as (p & Hp & Hname & Hhigh & Hscore).
  apply perform_cases in Hperf
    as [(i & t & w' & t' & _ & Hi & Hadv & ->) | [(d & _ & _ & ->) | (i & t & _ & _ & _ & ->)]];
    simpl.
  - pose proof (tally_insert (paid_to pid) _ _ _ t' Hi) as Htally.
    pose proof (Forall_lookup_1 _ _ _ _ Ht Hi) as Htyped.
    apply advance_cases in Hadv
      as [(r & X & o & k & -> & -> & ->) | (X & o & k & -> & -> & ->)].
    + destruct r as [playerId questionId answer | | | | |]; try done.
      destruct (Htyped (exec o (world s)).2) as [Hlegal _].
      rewrite !paid_to_phase in Htally.
      apply legal_step in Hlegal
        as [(Hph & _ & Hps) | [(Hph & Hph' & _ & _ & _ & _ & _ & _ & _ & _ & _ & Hps)
                              | (Hph & Hph' & p1 & -> & _ & Hps)]].
      * rewrite Hph in Htally. rewrite Hps. exists p.
        repeat split; try done. rewrite Hscore. f_equal. lia.
      * rewrite Hph, Hph' in Htally. rewrite Hps. exists p.
        rewrite !andb_false_r in Htally.
        repeat split; try done. rewrite Hscore. f_equal. simpl in Htally. lia.
      * rewrite Hph, Hph' in Htally. rewrite Hps.
        rewrite andb_false_r, andb_true_r in Htally. simpl in Htally.
        destruct (decide (p1 = pid)) as [-> | Hne].
        -- rewrite Hp, lookup_insert_eq. eexists. split; [done |].
           rewrite bool_decide_eq_true_2 in Htally by done. simpl in *.
           repeat split; try done. lia.
        -- rewrite bool_decide_eq_false_2 in Htally by congruence. simpl in Htally.
           exists p. split.
           { destruct (players (world s) !! p1); [by rewrite lookup_insert_ne | done]. }
           repeat split; try done. rewrite Hscore. f_equal. lia.
    + destruct Htyped as [Hquiet _]. rewrite (exec_quiet o _ Hquiet). exists p.
      simpl in Htally. repeat split; try done. rewrite Hscore. f_equal. lia.
  - by exists p.
  - exists p. rewrite tally_app. simpl. repeat split; try done.
    rewrite Hscore. f_equal. lia.
Qed.

Lemma accounted_boot (w : World) (calls : list Request) :
  Forall is_answer calls → accounted w (boot w calls).
Proof.
  intros Hcalls. split; simpl.
  - apply Forall_fmap. eapply Forall_impl; [exact Hcalls |].
    intros [] Hr; try done. apply POST_conforms.
  - intros pid p0 Hp0. exists p0. repeat split; try done.
    rewrite tally_none; [lia |]. apply Forall_fmap, Forall_forall.
    intros [] _; try done. cbn [compose handler].
    rewrite paid_to_phase, POST_pending. apply andb_false_r.
Qed.

Lemma accounted_execute (w : World) (calls : list Request) (acts : list action)
    (s : System) :
  Forall is_answer calls → execute acts (boot w calls) = Some s → accounted w s.
Proof.
  intros Hcalls. apply (execute_invariant (accounted w)).
  - apply accounted_perform.
  - by apply accounted_boot.
Qed.

Lemma issued_execute (w : World) (calls : list Request) (acts : list action)
    (s : System) :
  execute acts (boot w calls) = Some s → Forall (issued calls) (pool s).
Proof.
  apply (threads_execute (issued calls) calls); try done.
  intros t w0 w' t' Ht Hadv.
  by apply advance_cases in Hadv
    as [(r & X & o & k & -> & -> & ->) | (X & o & k & -> & -> & ->)].
Qed.

(** ** Outcomes of an answer *)

Lemma answering_execute (w : World) (reqs : list Request) (acts : list action)
    (s : System) :
  execute acts (boot w reqs) = Some s → Forall answering (pool s).
Proof.
  apply (threads_execute answering reqs); try done.
  - intros [] _; try done; [apply POST_replies | apply POST_req_replies].
  - intros t w0 w' t' Ht Hadv.
    apply advance_cases in Hadv
      as [(r & X & o & k & -> & -> & ->) | (X & o & k & -> & -> & ->)]; [| done].
    destruct r; try done; simpl in *; apply Ht.
Qed.

Lemma answered_outcome (w : World) (reqs : list Request) (acts : list action)
    (s : System) (i : nat) (playerId questionId : option ObjectId)
    (answer : option JsNumber) (r : Response) :
  execute acts (boot w reqs) = Some s →
  pool s !! i = Some (Serving (PostAnswer playerId questionId answer) (Ret r)) →
  outcome r.
Proof.
  intros Hrun Hi.
  apply (Forall_lookup_1 _ _ _ _ (answering_execute _ _ _ _ Hrun) Hi).
Qed.

Lemma answered_caught (w : World) (reqs : list Request) (acts : list action)
    (s : System) (i : nat) (body : AnswerRoute.Body) (r : Response) :
  execute acts (boot w reqs) = Some s →
  pool s !! i = Some (Serving (PostAnswerReq body) (Ret r)) →
  caught r.
Proof.
  intros Hrun Hi.
  apply (Forall_lookup_1 _ _ _ _ (answering_execute _ _ _ _ Hrun) Hi).
Qed.

Lemma POST_req_typed (playerId questionId : option ObjectId) (answer : option JsNumber) :
  AnswerRoute.POST playerId questionId answer
  = AnswerRoute.POST_req
      (AnswerRoute.Parsed (from_option AnswerRoute.Castable AnswerRoute.Falsy playerId)
         (from_option AnswerRoute.Castable AnswerRoute.Falsy questionId) answer).
Proof. by destruct playerId, questionId, answer as [[| ?] |]. Qed.

Lemma advance_progress (t : thread) (w : World) :
  finished t = false → is_Some (advance t w).
Proof.
  destruct t as [r [a | X o k] | [a | X o k]]; simpl; try done;
    destruct (exec o w); by eexists.
Qed.

Lemma not_specified_stranger : ¬ specified (Failure 404 "Player not found").
Proof. intros [H | [H | [H | [H | [H | [name H]]]]]]; discriminate. Qed.

(** C4, as the code has it: a request to the answer route ends in exactly
    one of ten ways: the 500 of the [catch] block, the two validation
    failures, the six outcomes of the specification, or "Player not found".
    The 500 answers a body that is no JSON or is [null], a question id that
    does not cast when the question is looked up, and a player id that does
    not cast when, the answer being right, the player is looked up.  The
    checks are made in the order below, the first that applies deciding,
    and a request that is not finished can always take its next step.
    Alone, a request that passes every check wins; "too late" takes a
    second request in flight. *)
Theorem answer_outcomes :
  (∀ w reqs acts s i body r,
     execute acts (boot w reqs) = Some s →
     pool s !! i = Some (Serving (PostAnswerReq body) (Ret r)) →
     outcome r ∨ r = Failure 500 "Server error")
  ∧ (∀ w reqs acts s i playerId questionId answer r,
       execute acts (boot w reqs) = Some s →
       pool s !! i = Some (Serving (PostAnswer playerId questionId answer) (Ret r)) →
       outcome r)
  ∧ (∀ playerId questionId answer,
       AnswerRoute.POST playerId questionId answer
       = AnswerRoute.POST_req
           (AnswerRoute.Parsed
              (from_option AnswerRoute.Castable AnswerRoute.Falsy playerId)
              (from_option AnswerRoute.Castable AnswerRoute.Falsy questionId) answer))
  ∧ (∀ t w, finished t = false → is_Some (advance t w))
  ∧ (∀ w, run (AnswerRoute.POST_req AnswerRoute.Unparsable) w
          = (w, Failure 500 "Server error")
          ∧ run (AnswerRoute.POST_req AnswerRoute.Null) w
            = (w, Failure 500 "Server error"))
  ∧ (∀ w playerId questionId answer,
       playerId = AnswerRoute.Falsy ∨ questionId = AnswerRoute.Falsy ∨ answer = None →
       run (AnswerRoute.POST_req (AnswerRoute.Parsed playerId questionId answer)) w
       = (w, Failure 400 "playerId, questionId, and answer are required"))
  ∧ (∀ w playerId questionId,
       playerId ≠ AnswerRoute.Falsy → questionId ≠ AnswerRoute.Falsy →
       run (AnswerRoute.POST_req (AnswerRoute.Parsed playerId questionId (Some NaN))) w
       = (w, Failure 400 "Answer must be a number"))
  ∧ (∀ w playerId numAnswer,
       playerId ≠ AnswerRoute.Falsy →
       run (AnswerRoute.POST_req
              (AnswerRoute.Parsed playerId AnswerRoute.Uncastable (Some (Num numAnswer)))) w
       = (w, Failure 500 "Server error"))
  ∧ (∀ w playerId questionId numAnswer,
       playerId ≠ AnswerRoute.Falsy →
       let respond :=
         run (AnswerRoute.POST_req
                (AnswerRoute.Parsed playerId (AnswerRoute.Castable questionId)
                   (Some (Num numAnswer)))) w in
       match questions w !! questionId with
       | None => respond = (w, Failure 404 "Question not found")
       | Some q =>
           (IQuestion.isActive q = false →
            respond = (w, Verdict false false "Question is no longer active"))
           ∧ (IQuestion.isActive q = true → is_Some (IQuestion.winnerId q) →
              respond = (w, Verdict false false "Someone already answered correctly"))
           ∧ (IQuestion.isActive q = true → IQuestion.winnerId q = None →
              ¬ (numAnswer == inject_Z (IQuestion.answer q))%Q →
              respond = (w, Verdict false false "Wrong answer, try again!"))
           ∧ (IQuestion.isActive q = true → IQuestion.winnerId q = None →
              (numAnswer == inject_Z (IQuestion.answer q))%Q →
              match playerId with
              | AnswerRoute.Castable playerId =>
                  match players w !! playerId with
                  | None => respond = (w, Failure 404 "Player not found")
                  | Some p =>
                      respond.2
                      = Verdict true true ("🏆 " +:+ IPlayer.username p +:+ " wins!")
                  end
              | _ => respond = (w, Failure 500 "Server error")
              end)
       end).
Proof.
  split; [| split; [| split; [| split; [| split; [| split; [| split; [| split]]]]]]].
  - intros w reqs acts s i body r. apply answered_caught.
  - intros w reqs acts s i playerId questionId answer r. apply answered_outcome.
  - apply POST_req_typed.
  - apply advance_progress.
  - done.
  - intros w [| | p] [| | q] [[| n] |] [H | [H | H]]; done.
  - intros w [| | p] [| | q] Hp Hq; done.
  - intros w [| | p] n Hp; done.
  - intros w playerId questionId numAnswer Hp respond. subst respond.
    destruct playerId as [| | playerId]; [done | |].
    + cbn [AnswerRoute.POST_req run exec].
      destruct (questions w !! questionId) as [q |] eqn:Hq; [| done].
      split; [| split; [| split]].
      * by intros ->.
      * intros -> Hw. cbn [negb]. by rewrite bool_decide_eq_true_2.
      * intros -> -> Hne. cbn [negb].
        rewrite bool_decide_eq_false_2 by (by intros [? ?]).
        destruct (Qeq_bool _ _) eqn:He; [| done]. by apply Qeq_bool_eq in He.
      * intros -> -> He. cbn [negb].
        rewrite bool_decide_eq_false_2 by (by intros [? ?]).
        apply Qeq_eq_bool in He. by rewrite He.
    + cbn [AnswerRoute.POST_req].
      destruct (questions w !! questionId) as [q |] eqn:Hq;
        [| by apply run_POST_unknown].
      split; [| split; [| split]].
      * by apply run_POST_inactive.
      * by apply run_POST_taken.
      * by apply run_POST_wrong.
      * intros Ha Hw He. destruct (players w !! playerId) as [p |] eqn:Hpl.
        -- by rewrite (run_POST_win w playerId questionId numAnswer q p).
        -- by apply (run_POST_stranger w playerId questionId numAnswer q).
Qed.

Lemma answer_outcomes_witness :
  (∃ s, execute photo_finish (boot (quiz seven_by_eight 1000) race) = Some s
        ∧ pool s !! 1%nat
          = Some (Serving (PostAnswer (Some 1%nat) (Some 0%nat) (Some (Num (56 # 1))))
                    (Ret (Verdict true false "Correct, but someone was faster!")))
        ∧ outcome (Verdict true false "Correct, but someone was faster!"))
  ∧ run (AnswerRoute.POST_req
           (AnswerRoute.Parsed (AnswerRoute.Castable 1%nat) AnswerRoute.Falsy
              (Some (Num (56 # 1))))) (quiz seven_by_eight 1000)
    = (quiz seven_by_eight 1000,
       Failure 400 "playerId, questionId, and answer are required")
  ∧ run (AnswerRoute.POST_req
           (AnswerRoute.Parsed AnswerRoute.Uncastable (AnswerRoute.Castable 0%nat)
              (Some (Num (56 # 1))))) (quiz seven_by_eight 1000)
    = (quiz seven_by_eight 1000, Failure 500 "Server error").
Proof.
  destruct answer_outcomes as (_ & Hout & _ & _ & _ & Hreq & _ & _ & Hcast).
  split; [| split].
  - destruct (execute photo_finish (boot (quiz seven_by_eight 1000) race))
      as [s |] eqn:Hrun; [| by vm_compute in Hrun].
    exists s. split; [done |].
    assert (Hi : pool s !! 1%nat
                 = Some (Serving (PostAnswer (Some 1%nat) (Some 0%nat) (Some (Num (56 # 1))))
                           (Ret (Verdict true false "Correct, but someone was faster!")))).
    { vm_compute in Hrun. injection Hrun as <-. reflexivity. }
    split; [done |]. by apply (Hout _ _ _ _ _ _ _ _ _ Hrun Hi).
  - apply Hreq. right; left. reflexivity.
  - specialize (Hcast (quiz seven_by_eight 1000) AnswerRoute.Uncastable 0%nat (56 # 1)
                  ltac:(discriminate)).
    cbn zeta in Hcast.
    change (questions (quiz seven_by_eight 1000) !! 0%nat) with (Some seven_by_eight)
      in Hcast.
    destruct Hcast as (_ & _ & _ & Hright). apply Hright; reflexivity.
Defined.

(** The claim of C4 fails: a correct answer from a player the storage does
    not know is answered "Player not found", which is none of the six
    outcomes. *)
Lemma stranger_gets_seventh_outcome :
  run (AnswerRoute.POST (Some 7%nat) (Some 0%nat) (Some (Num (56 # 1))))
    (quiz seven_by_eight 1000)
  = (quiz seven_by_eight 1000, Failure 404 "Player not found")
  ∧ ¬ specified (Failure 404 "Player not found").
Proof. split; [by vm_compute | apply not_specified_stranger]. Qed.

(** ** The winner of a question *)

Lemma won_paid_for (q : ObjectId) (t : thread) : won q t = true → paid_for q t = true.
Proof.
  destruct t as [[playerId [q' |] answer | | | | |] [r | X o k] |]; simpl; try done.
  destruct r as [? ? | c v m | ? ? ? ? | ? ? ? ? ? ? | ?]; try done.
  destruct c, v; try done. intros ->. by rewrite bool_decide_eq_true_2.
Qed.

Lemma paid_for_holds (q : ObjectId) (t : thread) : paid_for q t = true → holds q t = true.
Proof.
  destruct t as [[playerId questionId answer | | | | |] p |]; try done.
  rewrite paid_for_phase, holds_phase. intros [-> Hph]%andb_prop.
  apply bool_decide_eq_true_1 in Hph. by rewrite Hph.
Qed.

Lemma finished_paid_for (q : ObjectId) (t : thread) :
  finished t = true → paid_for q t = won q t.
Proof.
  destruct t as [[playerId [q' |] answer | | | | |] [r | X o k] |]; simpl; try done.
  destruct r as [? ? | c v m | ? ? ? ? | ? ? ? ? ? ? | ?]; simpl;
    rewrite ?andb_false_r; try done.
  destruct c, v; simpl; rewrite ?andb_false_r, ?andb_true_r; done.
Qed.

Lemma tally_ext (f g : thread → bool) (l : list thread) :
  Forall (λ t, f t = g t) l → tally f l = tally g l.
Proof. induction 1 as [| t l Ht _ IH]; simpl; [done |]. by rewrite Ht, IH. Qed.

Lemma paid_to_asked (q pid pid' : ObjectId) (calls : list Request) (t : thread) :
  Forall (asks q) calls → issued calls t → pid ≠ pid' →
  (paid_to pid t = true → paid_for q t = true)
  ∧ (paid_to pid' t = true → paid_for q t = true)
  ∧ (paid_to pid t = true → paid_to pid' t = true → False).
Proof.
  intros Hcalls Ht Hne.
  destruct t as [[playerId questionId answer | | | | |] p |]; try done.
  simpl in Ht. apply (proj1 (Forall_forall _ _) Hcalls) in Ht.
  destruct questionId as [q' |]; [| done]. simpl in Ht. subst q'.
  rewrite !paid_to_phase, paid_for_phase.
  rewrite (bool_decide_eq_true_2 (Some q = Some q)) by done. simpl.
  repeat split.
  - by intros [_ ?]%andb_prop.
  - by intros [_ ?]%andb_prop.
  - intros [H1 _]%andb_prop [H2 _]%andb_prop.
    apply bool_decide_eq_true_1 in H1, H2. congruence.
Qed.

(** C1: in every interleaving of a set of answer requests, at most one
    request is answered "accepted: win" for a question and every request is
    answered with one of the outcomes; at most one score increment is made
    for the question, each win has made its own, and once all requests are
    finished the increments are exactly the wins; every player's score is
    the original one plus one point per increment made for them, so that a
    set of requests about one question raises one score by one and leaves
    the others as they were. The win is decided by one conditional update,
    which writes [winnerId] and [winnerName] only if the question is active
    and has no winner. *)
Theorem one_winner_per_question (w : World) (calls : list Request)
    (acts : list action) (s : System) :
  Forall is_answer calls →
  execute acts (boot w calls) = Some s →
  (∀ q,
     (tally (won q) (pool s) ≤ 1)%nat
     ∧ (tally (paid_for q) (pool s) ≤ 1)%nat
     ∧ (tally (won q) (pool s) ≤ tally (paid_for q) (pool s))%nat
     ∧ (Forall (λ t, finished t = true) (pool s) →
        tally (paid_for q) (pool s) = tally (won q) (pool s))
     ∧ (Forall (asks q) calls → ∀ pid pid', pid ≠ pid' →
        (tally (paid_to pid) (pool s) + tally (paid_to pid') (pool s) ≤ 1)%nat))
  ∧ (∀ i r resp, pool s !! i = Some (Serving r (Ret resp)) → outcome resp)
  ∧ (∀ pid p0, players w !! pid = Some p0 →
       ∃ p, players (world s) !! pid = Some p
            ∧ IPlayer.highScore p = IPlayer.highScore p0
            ∧ IPlayer.score p
              = IPlayer.score p0 + Z.of_nat (tally (paid_to pid) (pool s)))
  ∧ (∀ w0 qid pid name,
       match questions w0 !! qid with
       | Some q =>
           if bool_decide (IQuestion.winnerId q = None ∧ IQuestion.isActive q = true)
           then exec (Question_findOneAndUpdate qid pid name) w0
                = (with_questions (<[qid := claim pid name q]> (questions w0)) w0,
                   Some (claim pid name q))
           else exec (Question_findOneAndUpdate qid pid name) w0 = (w0, None)
       | None => exec (Question_findOneAndUpdate qid pid name) w0 = (w0, None)
       end).
Proof.
  intros Hcalls Hrun.
  destruct (one_holder_execute _ _ _ _ Hrun) as [_ Hone].
  destruct (accounted_execute _ _ _ _ Hcalls Hrun) as [Htyped Hacc].
  pose proof (issued_execute _ _ _ _ Hrun) as Hissued.
  pose proof (answering_execute _ _ _ _ Hrun) as Hans.
  split; [| split; [| split]].
  - intros q.
    assert (Hheld : (tally (holds q) (pool s) ≤ 1)%nat)
      by (destruct (Hone q) as [-> | [-> _]]; lia).
    assert (Hpaid : (tally (paid_for q) (pool s) ≤ tally (holds q) (pool s))%nat).
    { apply tally_le, Forall_forall. intros t _. apply paid_for_holds. }
    assert (Hwon : (tally (won q) (pool s) ≤ tally (paid_for q) (pool s))%nat).
    { apply tally_le, Forall_forall. intros t _. apply won_paid_for. }
    split; [lia |]. split; [lia |]. split; [done |]. split.
    + intros Hdone. apply tally_ext. eapply Forall_impl; [exact Hdone |].
      intros t. apply finished_paid_for.
    + intros Hasks pid pid' Hne.
      etrans; [| exact (Nat.le_trans _ _ _ Hpaid Hheld)].
      apply tally_disjoint. eapply Forall_impl; [exact Hissued |].
      intros t Ht. by apply (paid_to_asked q pid pid' calls).
  - intros i r resp Hi.
    pose proof (Forall_lookup_1 _ _ _ _ Hans Hi) as Ha.
    pose proof (Forall_lookup_1 _ _ _ _ Htyped Hi) as Hb.
    by destruct r.
  - intros pid p0 Hp0. destruct (Hacc pid p0 Hp0) as (p & ? & ? & ? & ?). by exists p.
  - intros w0 qid pid name. apply exec_claim.
Qed.

Lemma photo_finish_result :
  (λ s, (tally (won 0%nat) (pool s), players (world s) !! 0%nat,
         players (world s) !! 1%nat))
    <$> execute photo_finish (boot (quiz seven_by_eight 1000) race)
  = Some (1%nat, Some (IPlayer.Make "ann" 4 7), Some bob).
Proof. vm_compute. reflexivity. Qed.

Lemma one_winner_per_question_witness :
  ∃ s, execute photo_finish (boot (quiz seven_by_eight 1000) race) = Some s
       ∧ tally (won 0%nat) (pool s) = 1%nat
       ∧ (tally (paid_for 0%nat) (pool s) ≤ 1)%nat
       ∧ (tally (paid_to 0%nat) (pool s) + tally (paid_to 1%nat) (pool s) ≤ 1)%nat
       ∧ (∃ p, players (world s) !! 0%nat = Some p
               ∧ IPlayer.score p = 3 + Z.of_nat (tally (paid_to 0%nat) (pool s)))
       ∧ players (world s) !! 0%nat = Some (IPlayer.Make "ann" 4 7)
       ∧ players (world s) !! 1%nat = Some bob.
Proof.
  pose proof photo_finish_result as Hend.
  destruct (execute photo_finish (boot (quiz seven_by_eight 1000) race))
    as [s |] eqn:Hrun; [| discriminate Hend].
  injection Hend as Hwon Hann Hbob.
  exists s. split; [reflexivity |].
  assert (Hcalls : Forall is_answer race) by (repeat constructor).
  assert (Hasks : Forall (asks 0%nat) race) by (repeat constructor).
  destruct (one_winner_per_question (quiz seven_by_eight 1000) race photo_finish s
              Hcalls Hrun) as (Hq & _ & Hscore & _).
  destruct (Hq 0%nat) as (_ & Hpaid & _ & _ & Hone).
  destruct (Hscore 0%nat ann eq_refl) as (p & Hp & _ & Hs).
  split; [exact Hwon |]. split; [exact Hpaid |]. split.
  - apply (Hone Hasks). discriminate.
  - split; [exists p; split; [exact Hp | exact Hs] |]. split; [exact Hann | exact Hbob].
Defined.

(** ** [highScore] *)

Lemma run_player_kept {R : Type} (p : prog R) (w : World) (pid : nat) (pl : IPlayer.t) :
  players w !! pid = Some pl →
  ∃ pl', players (run p w).1 !! pid = Some pl'
         ∧ IPlayer.username pl' = IPlayer.username pl
         ∧ IPlayer.highScore pl' = IPlayer.highScore pl.
Proof.
  revert w pl. induction p as [r | X o k IH]; intros w pl Hpl; simpl; [by exists pl |].
  destruct (exec_player_kept o w pid pl Hpl) as (pl1 & Hpl1 & Hn1 & Hh1).
  destruct (exec o w) as [w1 x]. simpl in Hpl1.
  destruct (IH x w1 pl1 Hpl1) as (pl' & ? & Hn & Hh). exists pl'.
  split; [done |]. split; congruence.
Qed.

Lemma perform_player_kept (a : action) (s s' : System) (pid : nat) (pl : IPlayer.t) :
  perform a s = Some s' →
  players (world s) !! pid = Some pl →
  ∃ pl', players (world s') !! pid = Some pl'
         ∧ IPlayer.username pl' = IPlayer.username pl
         ∧ IPlayer.highScore pl' = IPlayer.highScore pl.
Proof.
  intros Hperf Hpl.
  apply perform_cases in Hperf
    as [(i & t & w' & t' & _ & Hi & Hadv & ->) | [(d & _ & _ & ->) | (i & t & _ & _ & _ & ->)]];
    simpl; [| by exists pl | by exists pl].
  apply advance_cases in Hadv
    as [(r & X & o & k & -> & -> & ->) | (X & o & k & -> & -> & ->)];
    by apply exec_player_kept.
Qed.

Lemma execute_player_kept (acts : list action) (s s' : System) (pid : nat)
    (pl : IPlayer.t) :
  execute acts s = Some s' →
  players (world s) !! pid = Some pl →
  ∃ pl', players (world s') !! pid = Some pl'
         ∧ IPlayer.username pl' = IPlayer.username pl
         ∧ IPlayer.highScore pl' = IPlayer.highScore pl.
Proof.
  revert s pl. induction acts as [| a acts IH]; intros s pl; simpl.
  - intros [= <-] Hpl. by exists pl.
  - destruct (perform a s) as [s1 |] eqn:Ha; [| done]. simpl. intros Hrun Hpl.
    destruct (perform_player_kept a s s1 pid pl Ha Hpl) as (pl1 & Hpl1 & Hn1 & Hh1).
    destruct (IH s1 pl1 Hrun Hpl1) as (pl' & ? & Hn & Hh). exists pl'.
    split; [done |]. split; congruence.
Qed.

(** C9: a win increments the winner's [score] and writes nothing else of
    any player; and no handler, join included, run alone or interleaved
    with any others, changes the [highScore] of a player that exists. *)
Theorem highScore_never_written :
  (∀ w playerId questionId numAnswer q p,
     questions w !! questionId = Some q →
     IQuestion.isActive q = true →
     IQuestion.winnerId q = None →
     (numAnswer == inject_Z (IQuestion.answer q))%Q →
     players w !! playerId = Some p →
     players (run (AnswerRoute.POST (Some playerId) (Some questionId)
                     (Some (Num numAnswer))) w).1
     = <[playerId := IPlayer.Make (IPlayer.username p) (IPlayer.score p + 1)
                       (IPlayer.highScore p)]> (players w))
  ∧ (∀ r w pid pl,
       players w !! pid = Some pl →
       ∃ pl', players (run (handler r) w).1 !! pid = Some pl'
              ∧ IPlayer.highScore pl' = IPlayer.highScore pl)
  ∧ (∀ q w pid pl,
       players w !! pid = Some pl →
       ∃ pl', players (run (AnswerRoute.rotation q) w).1 !! pid = Some pl'
              ∧ IPlayer.highScore pl' = IPlayer.highScore pl)
  ∧ (∀ acts s s' pid pl,
       execute acts s = Some s' →
       players (world s) !! pid = Some pl →
       ∃ pl', players (world s') !! pid = Some pl'
              ∧ IPlayer.highScore pl' = IPlayer.highScore pl).
Proof.
  split; [| split; [| split]].
  - intros w playerId questionId numAnswer q p Hq Ha Hw He Hp.
    by rewrite (run_POST_win w playerId questionId numAnswer q p).
  - intros r w pid pl Hpl.
    destruct (run_player_kept (handler r) w pid pl Hpl) as (pl' & ? & _ & ?).
    by exists pl'.
  - intros q w pid pl Hpl.
    destruct (run_player_kept (AnswerRoute.rotation q) w pid pl Hpl) as (pl' & ? & _ & ?).
    by exists pl'.
  - intros acts s s' pid pl Hrun Hpl.
    destruct (execute_player_kept acts s s' pid pl Hrun Hpl) as (pl' & ? & _ & ?).
    by exists pl'.
Qed.

Lemma highScore_never_written_witness :
  players (run (AnswerRoute.POST (Some 0%nat) (Some 0%nat) (Some (Num (56 # 1))))
             (quiz seven_by_eight 1000)).1
  = <[0%nat := IPlayer.Make "ann" 4 7]> (players (quiz seven_by_eight 1000))
  ∧ (∃ pl', players (run (handler (PostJoin2 (Some "ann")))
                       (quiz seven_by_eight 1000)).1 !! 0%nat = Some pl'
            ∧ IPlayer.highScore pl' = 7)
  ∧ ∃ s, execute photo_finish (boot (quiz seven_by_eight 1000) race) = Some s
         ∧ ∃ pl', players (world s) !! 0%nat = Some pl' ∧ IPlayer.highScore pl' = 7.
Proof.
  destruct highScore_never_written as (Hwin & Hrun & _ & Hall).
  split; [| split].
  - apply (Hwin (quiz seven_by_eight 1000) 0%nat 0%nat (56 # 1) seven_by_eight ann);
      reflexivity.
  - apply (Hrun (PostJoin2 (Some "ann")) (quiz seven_by_eight 1000) 0%nat ann).
    reflexivity.
  - pose proof photo_finish_result as Hend.
    destruct (execute photo_finish (boot (quiz seven_by_eight 1000) race))
      as [s |] eqn:Hexec; [| discriminate Hend].
    exists s. split; [reflexivity |].
    apply (Hall photo_finish (boot (quiz seven_by_eight 1000) race) s 0%nat ann Hexec).
    reflexivity.
Defined.

(** * Further properties *)

(** ** The life of a question *)

Lemma evolves_refl (q : IQuestion.t) : evolves q q.
Proof. by repeat split. Qed.

Lemma evolves_trans (q1 q2 q3 : IQuestion.t) : evolves q1 q2 → evolves q2 q3 → evolves q1 q3.
Proof.
  intros (Ht & Ha & Hc & Hi & Hw) (Ht' & Ha' & Hc' & Hi' & Hw').
  split; [congruence |]. split; [congruence |]. split; [congruence |]. split; [auto |].
  intros Hwon. destruct (Hw Hwon) as [Hid Hname].
  destruct Hw' as [Hid' Hname']; [by rewrite Hid |]. split; congruence.
Qed.

Lemma exec_evolves {X : Type} (o : op X) (w : World) (q : nat) (qu : IQuestion.t) :
  questions w !! q = Some qu →
  ∃ qu', questions (exec o w).1 !! q = Some qu' ∧ evolves qu qu'.
Proof.
  intros Hq.
  destruct (exec_question_kept o w q qu Hq) as (qu' & Hq' & Ht & Ha & Hc & Hw & Hi).
  exists qu'. split; [done |]. by split; [| split; [| split; [| split]]].
Qed.

Lemma run_evolves {R : Type} (p : prog R) (w : World) (q : nat) (qu : IQuestion.t) :
  questions w !! q = Some qu →
  ∃ qu', questions (run p w).1 !! q = Some qu' ∧ evolves qu qu'.
Proof.
  revert w qu. induction p as [r | X o k IH]; intros w qu Hq; simpl.
  - exists qu. split; [done | apply evolves_refl].
  - destruct (exec_evolves o w q qu Hq) as (qu1 & Hq1 & He1).
    destruct (exec o w) as [w1 x]. simpl in Hq1.
    destruct (IH x w1 qu1 Hq1) as (qu' & ? & ?). exists qu'.
    split; [done |]. by apply (evolves_trans qu qu1).
Qed.

Lemma perform_evolves (a : action) (s s' : System) (q : nat) (qu : IQuestion.t) :
  perform a s = Some s' →
  questions (world s) !! q = Some qu →
  ∃ qu', questions (world s') !! q = Some qu' ∧ evolves qu qu'.
Proof.
  intros Hperf Hq.
  apply perform_cases in Hperf
    as [(i & t & w' & t' & _ & Hi & Hadv & ->) | [(d & _ & _ & ->) | (i & t & _ & _ & _ & ->)]];
    simpl; [| exists qu; split; [done | apply evolves_refl] ..].
  apply advance_cases in Hadv
    as [(r & X & o & k & -> & -> & ->) | (X & o & k & -> & -> & ->)];
    by apply exec_evolves.
Qed.

(** X1: in every interleaving of whatever requests and timer tasks, a stored
    question stays stored and keeps its text, answer and creation date; once
    retired it is never active again; once won, its winner id and name never
    change. *)
Theorem question_lifecycle (acts : list action) (s s' : System) (q : nat)
    (qu : IQuestion.t) :
  execute acts s = Some s' →
  questions (world s) !! q = Some qu →
  ∃ qu', questions (world s') !! q = Some qu'
         ∧ IQuestion.text qu' = IQuestion.text qu
         ∧ IQuestion.answer qu' = IQuestion.answer qu
         ∧ IQuestion.createdAt qu' = IQuestion.createdAt qu
         ∧ (IQuestion.isActive qu = false → IQuestion.isActive qu' = false)
         ∧ (is_Some (IQuestion.winnerId qu) →
            IQuestion.winnerId qu' = IQuestion.winnerId qu
            ∧ IQuestion.winnerName qu' = IQuestion.winnerName qu).
Proof.
  revert s qu. induction acts as [| a acts IH]; intros s qu; simpl.
  - intros [= <-] Hq. exists qu. split; [done | apply evolves_refl].
  - destruct (perform a s) as [s1 |] eqn:Ha; [| done]. simpl. intros Hrun Hq.
    destruct (perform_evolves a s s1 q qu Ha Hq) as (qu1 & Hq1 & He1).
    destruct (IH s1 qu1 Hrun Hq1) as (qu' & Hq' & He').
    exists qu'. split; [done |]. by apply (evolves_trans qu qu1).
Qed.

Lemma photo_finish_question :
  (λ s, questions (world s) !! 0%nat)
    <$> execute photo_finish (boot (quiz seven_by_eight 1000) race)
  = Some (Some (retire seven_by_eight_won)).
Proof. vm_compute. reflexivity. Qed.

Lemma question_lifecycle_witness :
  ∃ s qu',
    execute photo_finish (boot (quiz seven_by_eight 1000) race) = Some s
    ∧ questions (world s) !! 0%nat = Some qu'
    ∧ IQuestion.text qu' = "7 × 8"
    ∧ IQuestion.answer qu' = 56
    ∧ IQuestion.createdAt qu' = 0.
Proof.
  pose proof photo_finish_question as Hend.
  destruct (execute photo_finish (boot (quiz seven_by_eight 1000) race))
    as [s |] eqn:Hrun; [| discriminate Hend].
  destruct (question_lifecycle photo_finish (boot (quiz seven_by_eight 1000) race) s
              0%nat seven_by_eight Hrun eq_refl) as (qu' & Hq & Ht & Ha & Hc & _).
  exists s, qu'. split; [reflexivity |]. split; [exact Hq |].
  split; [exact Ht |]. split; [exact Ha | exact Hc].
Defined.

(** ** Player names *)

Lemma unique_names_insert_score (ps : gmap nat IPlayer.t) (pid : nat) (p : IPlayer.t)
    (s : Z) :
  ps !! pid = Some p → unique_names ps → unique_names (<[pid := set_score s p]> ps).
Proof.
  intros Hp Hu i j pi pj Hi Hj Hn.
  assert (Hname : ∀ k pk, <[pid := set_score s p]> ps !! k = Some pk →
                          ∃ pk', ps !! k = Some pk'
                                 ∧ IPlayer.username pk' = IPlayer.username pk).
  { intros k pk Hk. destruct (decide (pid = k)) as [<- | Hne].
    - rewrite lookup_insert_eq in Hk. injection Hk as <-. by exists p.
    - rewrite lookup_insert_ne in Hk by done. by exists pk. }
  destruct (Hname i pi Hi) as (pi' & Hi' & Hni).
  destruct (Hname j pj Hj) as (pj' & Hj' & Hnj).
  apply (Hu i j pi' pj' Hi' Hj'). congruence.
Qed.

Lemma exec_unique_names {X : Type} (o : op X) (w : World) :
  unique_names (players w) → unique_names (players (exec o w).1).
Proof.
  intros Hu. destruct o; simpl; try done.
  - destruct (questions w !! qid) as [q0 |]; [| done].
    destruct (IQuestion.winnerId q0); [done |]. by destruct (IQuestion.isActive q0).
  - by destruct (questions w !! qid).
  - by destruct (questions w !! qid).
  - destruct (findOne_username name (players w)) eqn:Hfind; [done |]. simpl.
    pose proof (fresh_unused (players w)) as Hfresh.
    intros i j pi pj Hi Hj Hn.
    destruct (decide (fresh (dom (players w)) = i)) as [<- | Hi'],
             (decide (fresh (dom (players w)) = j)) as [<- | Hj']; [done | | |].
    + rewrite lookup_insert_eq in Hi. rewrite lookup_insert_ne in Hj by done.
      injection Hi as <-. simpl in Hn.
      by destruct (findOne_username_None _ _ _ _ Hfind Hj).
    + rewrite lookup_insert_eq in Hj. rewrite lookup_insert_ne in Hi by done.
      injection Hj as <-. simpl in Hn.
      by destruct (findOne_username_None _ _ _ _ Hfind Hi).
    + rewrite lookup_insert_ne in Hi, Hj by done. by apply (Hu i j pi pj).
  - destruct (players w !! pid) as [p |] eqn:Hp; [| done]. simpl.
    by apply unique_names_insert_score.
  - destruct (players w !! pid) as [p |] eqn:Hp; [| done]. simpl.
    by apply unique_names_insert_score.
Qed.


Lemma perform_unique_names (a : action) (s s' : System) :
  perform a s = Some s' →
  unique_names (players (world s)) → unique_names (players (world s')).
Proof.
  intros Hperf Hu.
  apply perform_cases in Hperf
    as [(i & t & w' & t' & _ & Hi & Hadv & ->) | [(d & _ & _ & ->) | (i & t & _ & _ & _ & ->)]];
    simpl; [| done ..].
  apply advance_cases in Hadv
    as [(r & X & o & k & -> & -> & ->) | (X & o & k & -> & -> & ->)];
    by apply exec_unique_names.
Qed.

(** X2: in every interleaving of whatever requests, if no two stored
    players bear the same name then none ever do: racing joins cannot create
    a second player of a name; and a stored player stays stored under the
    same name. *)
Theorem names_stay_unique (acts : list action) (s s' : System) :
  execute acts s = Some s' →
  unique_names (players (world s)) →
  unique_names (players (world s'))
  ∧ ∀ pid p, players (world s) !! pid = Some p →
       ∃ p', players (world s') !! pid = Some p'
             ∧ IPlayer.username p' = IPlayer.username p.
Proof.
  intros Hrun Hu. split.
  - revert s Hrun Hu. induction acts as [| a acts IH]; intros s; simpl.
    + by intros [= <-].
    + destruct (perform a s) as [s1 |] eqn:Ha; [| done]. simpl. intros Hrun Hu.
      apply (IH s1 Hrun). by apply (perform_unique_names a s).
  - intros pid p Hp.
    destruct (execute_player_kept acts s s' pid p Hrun Hp) as (p' & ? & ? & _).
    by exists p'.
Qed.

Lemma quiz_unique_names (q : IQuestion.t) (now : Z) : unique_names (players (quiz q now)).
Proof.
  intros i j pi pj Hi Hj Hn. simpl in Hi, Hj.
  apply lookup_insert_Some in Hi as [[<- <-] | [? Hi]];
    apply lookup_insert_Some in Hj as [[<- <-] | [? Hj]]; try done.
  - apply lookup_singleton_Some in Hj as [<- <-]. discriminate Hn.
  - apply lookup_singleton_Some in Hi as [<- <-]. discriminate Hn.
  - apply lookup_singleton_Some in Hi as [<- <-].
    by apply lookup_singleton_Some in Hj as [<- <-].
Qed.

Lemma names_stay_unique_witness :
  ∃ s, execute collision (boot (quiz seven_by_eight 1000) twins) = Some s
       ∧ unique_names (players (world s))
       ∧ ∃ p', players (world s) !! 0%nat = Some p' ∧ IPlayer.username p' = "ann".
Proof.
  destruct (execute collision (boot (quiz seven_by_eight 1000) twins))
    as [s |] eqn:Hrun; [| vm_compute in Hrun; discriminate Hrun].
  destruct (names_stay_unique collision (boot (quiz seven_by_eight 1000) twins) s Hrun
              (quiz_unique_names seven_by_eight 1000)) as [Hu Hkept].
  exists s. split; [reflexivity |]. split; [exact Hu |].
  exact (Hkept 0%nat ann eq_refl).
Defined.




(** ** The leaderboard *)

#[local] Instance score_desc_total : Total score_desc.
Proof. intros a b. unfold score_desc. lia. Qed.

#[local] Instance score_desc_trans : Transitive score_desc.
Proof. intros a b c. unfold score_desc. lia. Qed.

Lemma StronglySorted_lookup_lt {A : Type} (R : relation A) (l : list A) (i j : nat)
    (x y : A) :
  StronglySorted R l → (i < j)%nat → l !! i = Some x → l !! j = Some y → R x y.
Proof.
  intros Hl. revert i j. induction Hl as [| a l Hl IH Ha]; intros i j Hij Hi Hj; [done |].
  destruct j as [| j]; [lia |]. destruct i as [| i]; simpl in *.
  - injection Hi as <-. apply (proj1 (Forall_forall _ _) Ha).
    by apply list_elem_of_lookup_2 in Hj.
  - apply (IH i j); [lia | done | done].
Qed.

Lemma top10_spec (ps : gmap nat IPlayer.t) :
  length (top10 ps) = (10 `min` size ps)%nat
  ∧ StronglySorted score_desc (top10 ps)
  ∧ NoDup (top10 ps).*1
  ∧ (∀ x, x ∈ top10 ps → ps !! x.1 = Some x.2)
  ∧ (∀ i p, ps !! i = Some p → i ∉ (top10 ps).*1 →
            ∀ x, x ∈ top10 ps → IPlayer.score p ≤ IPlayer.score x.2).
Proof.
  unfold top10. set (sorted := merge_sort score_desc (map_to_list ps)).
  assert (Hperm : sorted ≡ₚ map_to_list ps) by apply merge_sort_Permutation.
  assert (Hsorted : StronglySorted score_desc sorted)
    by (apply StronglySorted_merge_sort; apply _).
  assert (Hsplit : sorted = take 10 sorted ++ drop 10 sorted) by (by rewrite take_drop).
  assert (Hnodup : NoDup sorted.*1).
  { rewrite Hperm. apply NoDup_fst_map_to_list. }
  split; [| split; [| split; [| split]]].
  - rewrite length_take, Hperm, length_map_to_list. lia.
  - rewrite Hsplit in Hsorted. by apply StronglySorted_app_1_l in Hsorted.
  - rewrite Hsplit, fmap_app in Hnodup. by apply NoDup_app in Hnodup as [? _].
  - intros [i p] Hx. apply elem_of_map_to_list. rewrite <- Hperm.
    rewrite Hsplit. apply elem_of_app. by left.
  - intros i p Hp Hout x Hx.
    assert (Hin : (i, p) ∈ sorted) by (by rewrite Hperm; apply elem_of_map_to_list).
    rewrite Hsplit in Hin. apply elem_of_app in Hin as [Hin | Hin].
    + destruct Hout. apply list_elem_of_fmap. by exists (i, p).
    + rewrite Hsplit in Hsorted.
      apply (StronglySorted_app_1_elem_of _ _ _ x (i, p) Hsorted Hx Hin).
Qed.

(** X4: [GET /api/leaderboard] writes nothing and lists real players, each
    once, with their name, score and high score: ten of them, or all when
    there are fewer, ordered by score from the highest down, and nobody left
    out has more points than anybody listed. *)
Theorem leaderboard_ranking (w : World) :
  ∃ lb,
    run LeaderboardRoute.GET w = (w, Ranking lb)
    ∧ length lb = (10 `min` size (players w))%nat
    ∧ (∀ e, e ∈ lb →
         ∃ p, players w !! LeaderboardEntry._id e = Some p
              ∧ LeaderboardEntry.username e = IPlayer.username p
              ∧ LeaderboardEntry.score e = IPlayer.score p
              ∧ LeaderboardEntry.highScore e = Some (IPlayer.highScore p))
    ∧ NoDup (LeaderboardEntry._id <$> lb)
    ∧ (∀ i j ei ej, (i ≤ j)%nat → lb !! i = Some ei → lb !! j = Some ej →
         LeaderboardEntry.score ej ≤ LeaderboardEntry.score ei)
    ∧ (∀ pid p, players w !! pid = Some p → pid ∉ LeaderboardEntry._id <$> lb →
         ∀ e, e ∈ lb → IPlayer.score p ≤ LeaderboardEntry.score e).
Proof.
  destruct (top10_spec (players w)) as (Hlen & Hsorted & Hnodup & Hin & Htop).
  assert (Hids : LeaderboardEntry._id <$> (LeaderboardRoute.select <$> top10 (players w))
                 = (top10 (players w)).*1).
  { rewrite <- list_fmap_compose. by apply list_fmap_ext. }
  exists (LeaderboardRoute.select <$> top10 (players w)).
  split; [done |]. split; [by rewrite length_fmap |].
  split; [| split; [by rewrite Hids | split]].
  - intros e [x [-> Hx]]%list_elem_of_fmap. exists x.2. by split; [apply Hin |].
  - intros i j ei ej Hij Hi Hj. rewrite list_lookup_fmap in Hi, Hj.
    destruct (top10 (players w) !! i) as [xi |] eqn:Hxi; [| done].
    destruct (top10 (players w) !! j) as [xj |] eqn:Hxj; [| done].
    injection Hi as <-. injection Hj as <-. simpl.
    destruct (decide (i = j)) as [-> | Hne]; [by simplify_eq |].
    apply (StronglySorted_lookup_lt score_desc _ i j xi xj Hsorted); [lia | done | done].
  - intros pid p Hp Hout e [x [-> Hx]]%list_elem_of_fmap. simpl.
    rewrite Hids in Hout. by apply (Htop pid p).
Qed.

(** ** [GET /api/question], the other cases *)

Lemma run_GET_none (w : World) :
  (∀ n, unit_interval (entropy w n)) →
  findOne_active (questions w) = None →
  ∃ g,
    (run generateQuestion w).2 = Some g
    ∧ run QuestionRoute.GET w
      = let first :=
          IQuestion.Make (GeneratedQuestion.text g) (GeneratedQuestion.answer g)
            true None None (clock w) in
        let _id := fresh (dom (questions w)) in
        (with_drawn (S (S (S (drawn w))))
           (with_questions (<[_id := first]> (questions w)) w),
         Snapshot _id (GeneratedQuestion.text g) None None
           QuestionRoute.QUESTION_TIMEOUT_MS
           (QuestionRoute.select <$> top10 (players w))).
Proof.
  intros Hu Hfind. destruct (run_create w Hu) as (g & Hg & Hcreate).
  exists g. split; [done |].
  unfold QuestionRoute.GET. cbn [run exec]. rewrite Hfind, run_bind, Hcreate. cbn.
  by rewrite Z.sub_diag, Z.sub_0_r.
Qed.

(** *** With time passing *)

Lemma ends_later {A : Type} (E : nat → Double.t) (P : A → Z → Prop) (p : prog A)
    (now now' : Z) :
  (∀ a t t', P a t → t ≤ t' → P a t') →
  now ≤ now' → ends E P p now → ends E P p now'.
Proof.
  intros HP Hle. destruct p as [a | X o k]; simpl.
  - intros Ha. by apply (HP a now).
  - intros Hp w Hw. apply Hp. lia.
Qed.

Lemma ends_any {A : Type} (E : nat → Double.t) (P : A → Z → Prop) (p : prog A) (now : Z) :
  (∀ a t, P a t) → ends E P p now.
Proof.
  intros HP. revert now. induction p as [a | X o k IH]; intros now; simpl; [done |].
  intros w _ _. apply IH.
Qed.

Lemma ends_bind {A B : Type} (E : nat → Double.t) (Q : B → Z → Prop) (p : prog A)
    (f : A → prog B) (now : Z) :
  ends E (λ a t, ends E Q (f a) t) p now → ends E Q (bind p f) now.
Proof.
  revert now. induction p as [a | X o k IH]; intros now; simpl; [done |].
  intros Hp w Hw He. by apply IH, Hp.
Qed.

(** With draws of [[0, 1)] the generator does not throw, whenever its
    draws are made. *)
Lemma generateQuestion_ends (E : nat → Double.t) (P : option GeneratedQuestion.t → Z → Prop)
    (now : Z) :
  (∀ n, unit_interval (E n)) →
  (∀ g t, P (Some g) t) →
  ends E P generateQuestion now.
Proof.
  intros HE HP. unfold generateQuestion. cbn [ends exec snd]. intros w _ He.
  change (Z.of_nat (length operators)) with 4.
  pose proof (floor_scaled (entropy w (drawn w)) 4 ltac:(rewrite He; apply HE) ltac:(lia))
    as Hi.
  set (i := Double.floor (Double.times (entropy w (drawn w)) 4)) in *.
  assert (Hi' : i = 0 ∨ i = 1 ∨ i = 2 ∨ i = 3) by lia.
  destruct Hi' as [-> | [-> | [-> | ->]]]; cbn [index operators Z.ltb Z.compare];
    change (operators !! Z.to_nat 0) with (Some Plus);
    change (operators !! Z.to_nat 1) with (Some Minus);
    change (operators !! Z.to_nat 2) with (Some Times);
    change (operators !! Z.to_nat 3) with (Some Divide); cbv iota;
    (apply ends_bind, ends_any; intros a t; apply ends_bind, ends_any; intros b t';
     apply HP).
Qed.

(** The poll that has found no active question, whatever time passes
    between its operations. *)
Lemma GET_found_none_ends (E : nat → Double.t) :
  (∀ n, unit_interval (E n)) →
  ∃ k, QuestionRoute.GET = Vis Question_findOne_active k
       ∧ ∀ now, ends E (λ r _, fresh_snapshot r) (k None) now.
Proof.
  intros HE. eexists. split; [reflexivity |]. intros now.
  apply ends_bind. unfold QuestionRoute.create. apply ends_bind.
  apply generateQuestion_ends; [done |]. intros g t.
  cbn [ends exec snd]. intros w Hw _ w1 Hw1 _ w2 Hw2 _.
  cbn [IQuestion.createdAt IQuestion.text IQuestion.winnerId IQuestion.winnerName].
  eexists _, _, _, _. split; [reflexivity |].
  unfold QuestionRoute.QUESTION_TIMEOUT_MS. lia.
Qed.

Lemma exec_frame {X : Type} (o : op X) (w : World) :
  clock (exec o w).1 = clock w ∧ entropy (exec o w).1 = entropy w.
Proof.
  destruct o; cbn [exec]; try done.
  - destruct (questions w !! qid) as [q0 |]; [| done].
    destruct (IQuestion.winnerId q0); [done |]. by destruct (IQuestion.isActive q0).
  - by destruct (questions w !! qid).
  - by destruct (questions w !! qid).
  - by destruct (findOne_username name (players w)).
  - by destruct (players w !! pid).
  - by destruct (players w !! pid).
Qed.

(** The lone poll, before and after it has looked for the question. *)
Lemma lone_poll_perform (w0 : World) (a : action) (s s' : System) :
  (∀ n, unit_interval (entropy w0 n)) →
  perform a s = Some s' →
  (entropy (world s) = entropy w0
   ∧ ∃ p, pool s !! 0%nat = Some (Serving GetQuestion p)
          ∧ ((p = QuestionRoute.GET ∧ length (pool s) = 1%nat ∧ timers (world s) = []
              ∧ findOne_active (questions (world s)) = None)
             ∨ ends (entropy w0) (λ r _, fresh_snapshot r) p (clock (world s)))) →
  entropy (world s') = entropy w0
  ∧ ∃ p, pool s' !! 0%nat = Some (Serving GetQuestion p)
         ∧ ((p = QuestionRoute.GET ∧ length (pool s') = 1%nat ∧ timers (world s') = []
             ∧ findOne_active (questions (world s')) = None)
            ∨ ends (entropy w0) (λ r _, fresh_snapshot r) p (clock (world s'))).
Proof.
  intros HE Hperf (Hent & p & Hp & Hstate).
  destruct (GET_found_none_ends (entropy w0) HE) as (k & HGET & Hk).
  destruct Hstate as [(-> & Hlen & Hno & Hnone) | Hends].
  - (* the poll has not started *)
    destruct a as [i | d | i]; cbn [perform] in Hperf.
    + destruct i as [| i].
      * rewrite Hp in Hperf. cbn [mbind option_bind] in Hperf.
        rewrite HGET in Hperf. cbn [advance exec] in Hperf. rewrite Hnone in Hperf.
        cbn [mbind option_bind] in Hperf. injection Hperf as <-. cbn [world pool].
        split; [done |]. eexists.
        split; [apply list_lookup_insert_eq; by apply lookup_lt_Some in Hp |].
        right. apply Hk.
      * rewrite lookup_ge_None_2 in Hperf by lia. done.
    + destruct (0 <=? d); [| done]. injection Hperf as <-. cbn [world pool].
      split; [done |]. exists QuestionRoute.GET. split; [done |]. by left.
    + rewrite Hno in Hperf. done.
  - apply perform_cases in Hperf
      as [(i & t & w' & t' & -> & Hi & Hadv & ->) | [(d & -> & Hd & ->)
                                                    | (i & t & -> & Ht & _ & ->)]];
      cbn [world pool].
    + apply advance_cases in Hadv
        as [(r & X & o & k' & -> & -> & ->) | (X & o & k' & -> & -> & ->)];
        (split; [by rewrite (proj2 (exec_frame o (world s))) |]);
        rewrite (proj1 (exec_frame o (world s)));
        (destruct (decide (i = 0%nat)) as [-> | Hne];
         [| exists p; split; [by rewrite list_lookup_insert_ne | by right]]).
      * rewrite Hp in Hi. injection Hi as <- ->.
        eexists. split; [apply list_lookup_insert_eq; by apply lookup_lt_Some in Hp |].
        right. by apply Hends.
      * by rewrite Hp in Hi.
    + split; [done |]. exists p. split; [done |]. right.
      revert Hends. apply ends_later; [done | cbn; lia].
    + split; [done |]. exists p. split; [by apply lookup_app_l_Some | by right].
Qed.

Lemma lone_poll_execute (w : World) (acts : list action) (s : System) (r : Response) :
  (∀ n, unit_interval (entropy w n)) →
  timers w = [] →
  findOne_active (questions w) = None →
  execute acts (boot w [GetQuestion]) = Some s →
  pool s !! 0%nat = Some (Serving GetQuestion (Ret r)) →
  fresh_snapshot r.
Proof.
  intros HE Hno Hnone Hrun Hr.
  assert (Hinv : entropy (world s) = entropy w
                 ∧ ∃ p, pool s !! 0%nat = Some (Serving GetQuestion p)
                        ∧ ((p = QuestionRoute.GET ∧ length (pool s) = 1%nat
                            ∧ timers (world s) = []
                            ∧ findOne_active (questions (world s)) = None)
                           ∨ ends (entropy w) (λ r _, fresh_snapshot r) p
                               (clock (world s)))).
  { revert Hrun.
    apply (execute_invariant
             (λ s, entropy (world s) = entropy w
                   ∧ ∃ p, pool s !! 0%nat = Some (Serving GetQuestion p)
                          ∧ ((p = QuestionRoute.GET ∧ length (pool s) = 1%nat
                              ∧ timers (world s) = []
                              ∧ findOne_active (questions (world s)) = None)
                             ∨ ends (entropy w) (λ r _, fresh_snapshot r) p
                                 (clock (world s))))).
    - intros a s0 s1 Hs0 Hperf. by apply (lone_poll_perform w a s0 s1).
    - split; [done |]. exists QuestionRoute.GET. split; [done |]. by left. }
  destruct Hinv as (_ & p & Hp & Hstate). rewrite Hr in Hp. injection Hp as <-.
  destruct Hstate as [(Heq & _) | Hends]; [discriminate Heq | exact Hends].
Qed.

(** X5: a poll that finds no active question creates one from the
    generator, active and without winner, dated with the time of its
    creation, under an id no question had, leaves every other question and
    the players as they were, and answers with the new question, no winner
    and a remaining time of at most 60000 ms; the remaining time stays
    within 0 and 60000 ms however much time passes between the operations
    of the poll. *)
Theorem GET_creates_first (w : World) :
  (∀ n, unit_interval (entropy w n)) →
  findOne_active (questions w) = None →
  (∃ g _id remainingMs,
     (run generateQuestion w).2 = Some g
     ∧ questions w !! _id = None
     ∧ questions (run QuestionRoute.GET w).1
       = <[_id := IQuestion.Make (GeneratedQuestion.text g) (GeneratedQuestion.answer g)
                    true None None (clock w)]> (questions w)
     ∧ players (run QuestionRoute.GET w).1 = players w
     ∧ (run QuestionRoute.GET w).2
       = Snapshot _id (GeneratedQuestion.text g) None None remainingMs
           (QuestionRoute.select <$> top10 (players w))
     ∧ 0 ≤ remainingMs ≤ 60000)
  ∧ (timers w = [] →
     ∀ acts s r,
       execute acts (boot w [GetQuestion]) = Some s →
       pool s !! 0%nat = Some (Serving GetQuestion (Ret r)) →
       ∃ _id text remainingMs leaderboard,
         r = Snapshot _id text None None remainingMs leaderboard
         ∧ 0 ≤ remainingMs ≤ 60000).
Proof.
  intros Hu Hfind. split.
  - destruct (run_GET_none w Hu Hfind) as (g & Hg & ->).
    exists g, (fresh (dom (questions w))), QuestionRoute.QUESTION_TIMEOUT_MS.
    split; [done |]. split; [apply fresh_unused |]. done.
  - intros Hno acts s r Hrun Hr.
    apply (lone_poll_execute w acts s r Hu Hno Hfind Hrun Hr).
Qed.

Lemma unhurried_poll :
  execute unhurried (boot (quiz (retire seven_by_eight) 5000) [GetQuestion])
  = Some {| world :=
              with_clock 5014
                (run QuestionRoute.GET
                   (with_clock 5007 (quiz (retire seven_by_eight) 5000))).1;
            pool := [Serving GetQuestion
                       (Ret (Snapshot 1%nat "7 × 7" None None 59993
                               (QuestionRoute.select
                                  <$> top10 (players (quiz (retire seven_by_eight) 5000)))))]
         |}.
Proof. vm_compute. reflexivity. Qed.

Lemma GET_creates_first_witness :
  (∃ g _id remainingMs,
     (run generateQuestion (quiz (retire seven_by_eight) 5000)).2 = Some g
     ∧ questions (quiz (retire seven_by_eight) 5000) !! _id = None
     ∧ questions (run QuestionRoute.GET (quiz (retire seven_by_eight) 5000)).1
       = <[_id := IQuestion.Make (GeneratedQuestion.text g) (GeneratedQuestion.answer g)
                    true None None 5000]> (questions (quiz (retire seven_by_eight) 5000))
     ∧ players (run QuestionRoute.GET (quiz (retire seven_by_eight) 5000)).1
       = players (quiz (retire seven_by_eight) 5000)
     ∧ (run QuestionRoute.GET (quiz (retire seven_by_eight) 5000)).2
       = Snapshot _id (GeneratedQuestion.text g) None None remainingMs
           (QuestionRoute.select <$> top10 (players (quiz (retire seven_by_eight) 5000)))
     ∧ 0 ≤ remainingMs ≤ 60000)
  ∧ ∃ _id text remainingMs leaderboard,
      Snapshot 1%nat "7 × 7" None None 59993
        (QuestionRoute.select <$> top10 (players (quiz (retire seven_by_eight) 5000)))
      = Snapshot _id text None None remainingMs leaderboard
      ∧ 0 ≤ remainingMs ≤ 60000.
Proof.
  destruct (GET_creates_first (quiz (retire seven_by_eight) 5000)) as [Halone Htimed].
  - intros n. apply quiz_entropy.
  - vm_compute. reflexivity.
  - split; [exact Halone |].
    apply (Htimed eq_refl unhurried _ _ unhurried_poll). reflexivity.
Defined.

(** X6: run alone with a working generator, a poll always answers with a
    question that is stored and active when it returns, shown with the
    winner it has; the remaining time is the rest of the 60000 ms since the
    question's date, never below 0 and, unless the question is dated in the
    future, never above 60000; no player is written. *)
Theorem GET_answers_active (w : World) :
  (∀ n, unit_interval (entropy w n)) →
  ∃ _id q remainingMs leaderboard,
    (run QuestionRoute.GET w).2
    = Snapshot _id (IQuestion.text q) (IQuestion.winnerId q) (IQuestion.winnerName q)
        remainingMs leaderboard
    ∧ questions (run QuestionRoute.GET w).1 !! _id = Some q
    ∧ IQuestion.isActive q = true
    ∧ remainingMs = Z.max 0 (60000 - (clock w - IQuestion.createdAt q))
    ∧ 0 ≤ remainingMs
    ∧ (IQuestion.createdAt q ≤ clock w → remainingMs ≤ 60000)
    ∧ players (run QuestionRoute.GET w).1 = players w.
Proof.
  intros Hu.
  destruct (findOne_active (questions w)) as [[_id q] |] eqn:Hfind.
  - destruct (findOne_active_Some _ _ _ Hfind) as [Hq Ha].
    destruct (IQuestion.winnerId q) as [winner |] eqn:Hw.
    + rewrite (run_GET_won w _id q Hfind) by (by rewrite Hw).
      exists _id, q, (Z.max 0 (60000 - (clock w - IQuestion.createdAt q))),
        (QuestionRoute.select <$> top10 (players w)).
      rewrite Hw. repeat split; try done; lia.
    + destruct (Z.le_gt_cases (clock w - IQuestion.createdAt q)
                  QuestionRoute.QUESTION_TIMEOUT_MS) as [Hyoung | Hold].
      * rewrite (run_GET_young w _id q Hfind Hw Hyoung).
        exists _id, q, (Z.max 0 (60000 - (clock w - IQuestion.createdAt q))),
          (QuestionRoute.select <$> top10 (players w)).
        rewrite Hw. repeat split; try done; lia.
      * destruct (run_GET_timed_out w _id q Hu Hfind Hw ltac:(lia))
          as (g & new & _ & _ & ->).
        exists new, (IQuestion.Make (GeneratedQuestion.text g)
                       (GeneratedQuestion.answer g) true None None (clock w)),
          60000, (QuestionRoute.select <$> top10 (players w)). cbn.
        split; [done |]. split; [apply lookup_insert_eq |].
        repeat split; try done; cbn; lia.
  - destruct (run_GET_none w Hu Hfind) as (g & _ & ->).
    exists (fresh (dom (questions w))),
      (IQuestion.Make (GeneratedQuestion.text g) (GeneratedQuestion.answer g)
         true None None (clock w)),
      60000, (QuestionRoute.select <$> top10 (players w)). cbn.
    split; [done |]. split; [apply lookup_insert_eq |].
    repeat split; try done; cbn; lia.
Qed.

Lemma GET_answers_active_witness :
  ∃ _id q remainingMs leaderboard,
    (run QuestionRoute.GET expired).2
    = Snapshot _id (IQuestion.text q) (IQuestion.winnerId q) (IQuestion.winnerName q)
        remainingMs leaderboard
    ∧ questions (run QuestionRoute.GET expired).1 !! _id = Some q
    ∧ IQuestion.isActive q = true
    ∧ remainingMs = Z.max 0 (60000 - (clock expired - IQuestion.createdAt q))
    ∧ 0 ≤ remainingMs
    ∧ (IQuestion.createdAt q ≤ clock expired → remainingMs ≤ 60000)
    ∧ players (run QuestionRoute.GET expired).1 = players expired.
Proof.
  apply (GET_answers_active expired).
  intros n. apply quiz_entropy.
Defined.

(** ** Joining, and joining again *)

Lemma length_substring_0 (n : nat) (s : string) :
  String.length (substring 0 n s) = (n `min` String.length s)%nat.
Proof.
  revert s. induction n as [| n IH]; intros [| c s]; simpl; try done.
  by rewrite IH.
Qed.

(** What a join with a usable name does, on either route: it answers with
    the player of the normalised name, found or created. *)
Lemma run_join_either (w : World) (username : string) (r : Request) :
  String.length (trim username) ≠ 0%nat →
  r = PostJoin (Some username) ∨ r = PostJoin2 (Some username) →
  ∃ _id p highScore,
    (run (handler r) w).2 = Session _id (IPlayer.username p) (IPlayer.score p) highScore
    ∧ players (run (handler r) w).1 !! _id = Some p
    ∧ IPlayer.username p = substring 0 20 (trim username)
    ∧ (∀ i, i ≠ _id → players (run (handler r) w).1 !! i = players w !! i)
    ∧ match findOne_username (substring 0 20 (trim username)) (players w) with
      | Some (i, p0) =>
          i = _id ∧ IPlayer.highScore p = IPlayer.highScore p0
          ∧ IPlayer.score p = match r with PostJoin2 _ => 0 | _ => IPlayer.score p0 end
      | None => players w !! _id = None ∧ IPlayer.score p = 0 ∧ IPlayer.highScore p = 0
      end
    ∧ questions (run (handler r) w).1 = questions w
    ∧ timers (run (handler r) w).1 = timers w.
Proof.
  intros Hname [-> | ->]; cbn [handler];
    destruct (findOne_username (substring 0 20 (trim username)) (players w))
      as [[i p0] |] eqn:Hfind.
  - rewrite (run_join_returning w username Hname i p0 Hfind).
    destruct (findOne_username_Some _ _ _ _ Hfind) as [Hp0 Hn].
    by exists i, p0, None.
  - rewrite (run_join_new w username Hname Hfind).
    exists (fresh (dom (players w))), (IPlayer.Make (substring 0 20 (trim username)) 0 0),
      None. cbn.
    split; [done |]. split; [apply lookup_insert_eq |]. split; [done |].
    split; [by intros j Hj; rewrite lookup_insert_ne |].
    split; [| done]. split; [apply fresh_unused | done].
  - rewrite (run_join2_returning w username Hname i p0 Hfind).
    destruct (findOne_username_Some _ _ _ _ Hfind) as [Hp0 Hn].
    exists i, (set_score 0 p0), (Some (IPlayer.highScore p0)). cbn.
    split; [done |]. split; [apply lookup_insert_eq |]. split; [done |].
    split; [by intros j Hj; rewrite lookup_insert_ne |]. done.
  - rewrite (run_join2_new w username Hname Hfind).
    exists (fresh (dom (players w))), (IPlayer.Make (substring 0 20 (trim username)) 0 0),
      (Some 0). cbn.
    split; [done |]. split; [apply lookup_insert_eq |]. split; [done |].
    split; [by intros j Hj; rewrite lookup_insert_ne |].
    split; [| done]. split; [apply fresh_unused | done].
Qed.

(** X7: both join routes answer a body that is no JSON or is [null], and
    a username that is truthy but no string, with 500 "Server error", and a
    missing, falsy or blank username with 400 "Username is required"; in
    all these cases they write nothing.  Any other username of ASCII
    characters is trimmed and cut to 20 characters, and the route answers
    with the id, name and score of the stored player of that name, 1 to 20
    characters long, leaving the other players, the questions and the
    timers as they were. *)
Theorem join_session (w : World) (body : JoinBody.t) (route : prog Response) :
  route = JoinRoute.POST_req body ∨ route = JoinRoute2.POST_req body →
  match body with
  | JoinBody.Unparsable | JoinBody.Null | JoinBody.Parsed JoinBody.NotString =>
      run route w = (w, Failure 500 "Server error")
  | JoinBody.Parsed JoinBody.Falsy =>
      run route w = (w, Failure 400 "Username is required")
  | JoinBody.Parsed (JoinBody.Str u) =>
      plain u = true →
      if (String.length (trim u) =? 0)%nat
      then run route w = (w, Failure 400 "Username is required")
      else ∃ _id p highScore,
             (run route w).2
             = Session _id (substring 0 20 (trim u)) (IPlayer.score p) highScore
             ∧ players (run route w).1 !! _id = Some p
             ∧ IPlayer.username p = substring 0 20 (trim u)
             ∧ (1 ≤ String.length (substring 0 20 (trim u)) ≤ 20)%nat
             ∧ (∀ i, i ≠ _id → players (run route w).1 !! i = players w !! i)
             ∧ questions (run route w).1 = questions w
             ∧ timers (run route w).1 = timers w
  end.
Proof.
  intros Hr. destruct body as [| | [| | u]]; try (by destruct Hr as [-> | ->]).
  intros _.
  assert (Hr' : ∃ r, (r = PostJoin (Some u) ∨ r = PostJoin2 (Some u))
                     ∧ route = handler r).
  { destruct Hr as [-> | ->]; [exists (PostJoin (Some u)) | exists (PostJoin2 (Some u))];
      split; (by left) || (by right) || done. }
  destruct Hr' as (r & Hjoin & ->).
  destruct (Nat.eqb_spec (String.length (trim u)) 0) as [Hblank | Hname].
  - destruct Hjoin as [-> | ->]; cbn [handler];
      unfold JoinRoute.POST, JoinRoute2.POST; rewrite Hblank;
      by rewrite orb_true_r.
  - destruct (run_join_either w u r Hname Hjoin)
      as (_id & p & hs & Hresp & Hp & Hn & Hother & _ & Hq & Ht).
    exists _id, p, hs. rewrite Hresp, Hn.
    split; [done |]. split; [done |]. split; [done |].
    split; [rewrite length_substring_0; lia |]. done.
Qed.

Lemma join_session_witness :
  ∃ _id p highScore,
    (run (JoinRoute2.POST_req (JoinBody.Parsed (JoinBody.Str "  ann ")))
       (quiz seven_by_eight 0)).2
    = Session _id "ann" (IPlayer.score p) highScore
    ∧ players (run (JoinRoute2.POST_req (JoinBody.Parsed (JoinBody.Str "  ann ")))
                 (quiz seven_by_eight 0)).1 !! _id
      = Some p
    ∧ IPlayer.username p = "ann"
    ∧ (1 ≤ String.length "ann" ≤ 20)%nat
    ∧ (∀ i, i ≠ _id →
            players (run (JoinRoute2.POST_req (JoinBody.Parsed (JoinBody.Str "  ann ")))
                       (quiz seven_by_eight 0)).1 !! i
            = players (quiz seven_by_eight 0) !! i)
    ∧ questions (run (JoinRoute2.POST_req (JoinBody.Parsed (JoinBody.Str "  ann ")))
                   (quiz seven_by_eight 0)).1
      = questions (quiz seven_by_eight 0)
    ∧ timers (run (JoinRoute2.POST_req (JoinBody.Parsed (JoinBody.Str "  ann ")))
                (quiz seven_by_eight 0)).1
      = timers (quiz seven_by_eight 0).
Proof.
  apply (join_session (quiz seven_by_eight 0) (JoinBody.Parsed (JoinBody.Str "  ann "))
           (JoinRoute2.POST_req (JoinBody.Parsed (JoinBody.Str "  ann ")))).
  - right. reflexivity.
  - reflexivity.
Defined.



(** ** After a win *)

(** X9: once a submission has won a question, a submission to that
    question that is served next, by anyone and with any number, the winning
    one repeated included, is answered "Someone already answered correctly"
    and writes nothing. *)
Theorem win_is_final (w : World) (playerId questionId : ObjectId) (numAnswer : Q)
    (q : IQuestion.t) (p : IPlayer.t) (playerId' : ObjectId) (numAnswer' : Q) :
  questions w !! questionId = Some q →
  IQuestion.isActive q = true →
  IQuestion.winnerId q = None →
  (numAnswer == inject_Z (IQuestion.answer q))%Q →
  players w !! playerId = Some p →
  (run (AnswerRoute.POST (Some playerId) (Some questionId) (Some (Num numAnswer))) w).2
  = Verdict true true ("🏆 " +:+ IPlayer.username p +:+ " wins!")
  ∧ run (AnswerRoute.POST (Some playerId') (Some questionId) (Some (Num numAnswer')))
      (run (AnswerRoute.POST (Some playerId) (Some questionId) (Some (Num numAnswer))) w).1
    = ((run (AnswerRoute.POST (Some playerId) (Some questionId) (Some (Num numAnswer))) w).1,
       Verdict false false "Someone already answered correctly").
Proof.
  intros Hq Ha Hw He Hp.
  rewrite (run_POST_win w playerId questionId numAnswer q p Hq Ha Hw He Hp).
  split; [done |]. cbn [fst].
  apply (run_POST_taken _ playerId' questionId numAnswer'
           (claim playerId (IPlayer.username p) q)).
  - cbn. apply lookup_insert_eq.
  - done.
  - by eexists.
Qed.

Lemma win_is_final_witness :
  (run (AnswerRoute.POST (Some 1%nat) (Some 0%nat) (Some (Num (56 # 1))))
     (quiz seven_by_eight 1000)).2
  = Verdict true true ("🏆 " +:+ IPlayer.username bob +:+ " wins!")
  ∧ run (AnswerRoute.POST (Some 1%nat) (Some 0%nat) (Some (Num (56 # 1))))
      (run (AnswerRoute.POST (Some 1%nat) (Some 0%nat) (Some (Num (56 # 1))))
         (quiz seven_by_eight 1000)).1
    = ((run (AnswerRoute.POST (Some 1%nat) (Some 0%nat) (Some (Num (56 # 1))))
          (quiz seven_by_eight 1000)).1,
       Verdict false false "Someone already answered correctly").
Proof.
  apply (win_is_final (quiz seven_by_eight 1000) 1%nat 0%nat (56 # 1) seven_by_eight bob
           1%nat (56 # 1)); reflexivity.
Defined.

(** What the delayed task of a win does to the store. *)
Lemma run_rotation (w : World) (questionId : ObjectId) :
  (∀ n, unit_interval (entropy w n)) →
  ∃ g,
    (run generateQuestion w).2 = Some g
    ∧ run (AnswerRoute.rotation questionId) w
      = let qs := match questions w !! questionId with
                  | Some q => <[questionId := retire q]> (questions w)
                  | None => questions w
                  end in
        (with_drawn (S (S (S (drawn w))))
           (with_questions
              (<[fresh (dom qs) :=
                   IQuestion.Make (GeneratedQuestion.text g) (GeneratedQuestion.answer g)
                     true None None (clock w)]> qs) w), tt).
Proof.
  intros Hu. destruct (generateQuestion_run w Hu) as (g & _ & _ & _ & Hrun & _).
  exists g. rewrite Hrun. split; [done |].
  unfold AnswerRoute.rotation. cbn [run exec].
  destruct (questions w !! questionId) as [q |] eqn:Hq.
  - rewrite run_bind.
    destruct (generateQuestion_run
                (with_questions (<[questionId := retire q]> (questions w)) w) Hu)
      as (g' & _ & _ & _ & Hrun' & _).
    pose proof (generateQuestion_frame w
                  (with_questions (<[questionId := retire q]> (questions w)) w)
                  eq_refl eq_refl) as Hframe.
    rewrite Hrun, Hrun' in Hframe. injection Hframe as <-.
    rewrite Hrun'. done.
  - rewrite run_bind, Hrun. done.
Qed.

(** X10: the task a win schedules retires the question it was scheduled
    for and creates a new active question without winner, dated now, whose
    answer is the value of its text, under an unused id; it leaves the other
    questions and all players alone, and from then on a submission to the
    retired question is answered "Question is no longer active". *)
Theorem rotation_replaces (w : World) (questionId : ObjectId) (q : IQuestion.t)
    (playerId : ObjectId) (numAnswer : Q) :
  (∀ n, unit_interval (entropy w n)) →
  questions w !! questionId = Some q →
  ∃ g next,
    questions w !! next = None
    ∧ questions (run (AnswerRoute.rotation questionId) w).1 !! next
      = Some (IQuestion.Make (GeneratedQuestion.text g) (GeneratedQuestion.answer g)
                true None None (clock w))
    ∧ evaluate (GeneratedQuestion.text g) = Some (GeneratedQuestion.answer g)
    ∧ questions (run (AnswerRoute.rotation questionId) w).1 !! questionId
      = Some (retire q)
    ∧ (∀ i, i ≠ questionId → i ≠ next →
            questions (run (AnswerRoute.rotation questionId) w).1 !! i = questions w !! i)
    ∧ players (run (AnswerRoute.rotation questionId) w).1 = players w
    ∧ run (AnswerRoute.POST (Some playerId) (Some questionId) (Some (Num numAnswer)))
        (run (AnswerRoute.rotation questionId) w).1
      = ((run (AnswerRoute.rotation questionId) w).1,
         Verdict false false "Question is no longer active").
Proof.
  intros Hu Hq. destruct (run_rotation w questionId Hu) as (g & Hg & Hrun).
  destruct (generateQuestion_run w Hu) as (g' & _ & _ & _ & Hrun' & _ & Heval & _).
  rewrite Hrun' in Hg. injection Hg as ->.
  rewrite Hrun, Hq. cbn zeta. cbn [fst].
  set (qs := <[questionId := retire q]> (questions w)).
  pose proof (fresh_unused qs) as Hnew.
  assert (Hne : fresh (dom qs) ≠ questionId).
  { intros Heq. rewrite Heq in Hnew. unfold qs in Hnew.
    by rewrite lookup_insert_eq in Hnew. }
  assert (Hold : <[fresh (dom qs) :=
                     IQuestion.Make (GeneratedQuestion.text g) (GeneratedQuestion.answer g)
                       true None None (clock w)]> qs !! questionId = Some (retire q)).
  { rewrite lookup_insert_ne by done. apply lookup_insert_eq. }
  exists g, (fresh (dom qs)). cbn [questions players with_drawn with_questions].
  split; [by unfold qs in Hnew; rewrite lookup_insert_ne in Hnew |].
  split; [apply lookup_insert_eq |]. split; [done |]. split; [done |].
  split; [by intros i H1 H2; unfold qs; rewrite !lookup_insert_ne |].
  split; [done |].
  by apply (run_POST_inactive _ playerId questionId numAnswer (retire q)).
Qed.

Lemma rotation_replaces_witness :
  ∃ g next,
    questions (quiz seven_by_eight_won 4000) !! next = None
    ∧ questions (run (AnswerRoute.rotation 0%nat) (quiz seven_by_eight_won 4000)).1 !! next
      = Some (IQuestion.Make (GeneratedQuestion.text g) (GeneratedQuestion.answer g)
                true None None (clock (quiz seven_by_eight_won 4000)))
    ∧ evaluate (GeneratedQuestion.text g) = Some (GeneratedQuestion.answer g)
    ∧ questions (run (AnswerRoute.rotation 0%nat) (quiz seven_by_eight_won 4000)).1 !! 0%nat
      = Some (retire seven_by_eight_won)
    ∧ (∀ i, i ≠ 0%nat → i ≠ next →
            questions (run (AnswerRoute.rotation 0%nat) (quiz seven_by_eight_won 4000)).1 !! i
            = questions (quiz seven_by_eight_won 4000) !! i)
    ∧ players (run (AnswerRoute.rotation 0%nat) (quiz seven_by_eight_won 4000)).1
      = players (quiz seven_by_eight_won 4000)
    ∧ run (AnswerRoute.POST (Some 1%nat) (Some 0%nat) (Some (Num (56 # 1))))
        (run (AnswerRoute.rotation 0%nat) (quiz seven_by_eight_won 4000)).1
      = ((run (AnswerRoute.rotation 0%nat) (quiz seven_by_eight_won 4000)).1,
         Verdict false false "Question is no longer active").
Proof.
  apply (rotation_replaces (quiz seven_by_eight_won 4000) 0%nat seven_by_eight_won
           1%nat (56 # 1)).
  - intros n. apply quiz_entropy.
  - reflexivity.
Defined.

(** ** One request at a time *)

Lemma run_POST_effect (w : World) (playerId questionId : option ObjectId)
    (answer : option JsNumber) :
  ((run (AnswerRoute.POST playerId questionId answer) w).1 = w
   ∧ ((∃ status error,
         (run (AnswerRoute.POST playerId questionId answer) w).2 = Failure status error)
      ∨ ∃ message,
          (run (AnswerRoute.POST playerId questionId answer) w).2
          = Verdict false false message ∧ message ≠ EmptyString))
  ∨ ∃ pid qid q p,
      playerId = Some pid ∧ questionId = Some qid
      ∧ questions w !! qid = Some q
      ∧ players w !! pid = Some p
      ∧ IQuestion.isActive q = true
      ∧ IQuestion.winnerId q = None
      ∧ run (AnswerRoute.POST playerId questionId answer) w
        = (with_timers (timers w ++ [{| due := clock w + 3000; rotates := qid |}])
             (with_players (<[pid := set_score (IPlayer.score p + 1) p]> (players w))
                (with_questions
                   (<[qid := claim pid (IPlayer.username p) q]> (questions w)) w)),
           Verdict true true ("🏆 " +:+ IPlayer.username p +:+ " wins!")).
Proof.
  destruct playerId as [pid |], questionId as [qid |], answer as [[| n] |];
    try (left; split; [done |]; left; by eexists _, _).
  destruct (questions w !! qid) as [q |] eqn:Hq;
    [| left; rewrite (run_POST_unknown w pid qid n) by done;
       split; [done |]; left; by eexists _, _].
  destruct (IQuestion.isActive q) eqn:Ha;
    [| left; rewrite (run_POST_inactive w pid qid n q) by done;
       split; [done |]; right; by eexists].
  destruct (IQuestion.winnerId q) as [winner |] eqn:Hw;
    [left; rewrite (run_POST_taken w pid qid n q) by (by rewrite ?Hw);
     split; [done |]; right; by eexists |].
  destruct (Qeq_dec n (inject_Z (IQuestion.answer q))) as [He | Hne];
    [| left; rewrite (run_POST_wrong w pid qid n q) by done;
       split; [done |]; right; by eexists].
  destruct (players w !! pid) as [p |] eqn:Hp;
    [| left; rewrite (run_POST_stranger w pid qid n q) by done;
       split; [done |]; left; by eexists _, _].
  right. exists pid, qid, q, p.
  by rewrite (run_POST_win w pid qid n q p).
Qed.

Lemma run_join_frame (w : World) (username : option string) (r : Request) :
  r = PostJoin username ∨ r = PostJoin2 username →
  questions (run (handler r) w).1 = questions w
  ∧ timers (run (handler r) w).1 = timers w
  ∧ entropy (run (handler r) w).1 = entropy w.
Proof.
  intros [-> | ->]; cbn [handler]; unfold JoinRoute.POST, JoinRoute2.POST;
    (destruct username as [u |]; [| done]);
    (destruct (_ || _); [done |]); cbn [run exec];
    (destruct (findOne_username _ _) as [[i p] |] eqn:Hfind; cbn [run exec];
     [| by rewrite Hfind]); [done |].
  by destruct (players w !! i).
Qed.

Lemma single_active_create (qs : gmap nat IQuestion.t) (next : nat) (q : IQuestion.t) :
  (∀ i qi, qs !! i = Some qi → i ≠ next → IQuestion.isActive qi = false) →
  single_active (<[next := q]> qs).
Proof.
  intros Hnone i j qi qj Hi Hj Hai Haj.
  destruct (decide (i = next)) as [-> | Hin], (decide (j = next)) as [-> | Hjn];
    [done | | |].
  - rewrite lookup_insert_ne in Hj by done. by rewrite (Hnone j qj Hj Hjn) in Haj.
  - rewrite lookup_insert_ne in Hi by done. by rewrite (Hnone i qi Hi Hin) in Hai.
  - rewrite lookup_insert_ne in Hi by done. by rewrite (Hnone i qi Hi Hin) in Hai.
Qed.

Lemma single_active_rotate (qs : gmap nat IQuestion.t) (i next : nat)
    (q successor : IQuestion.t) :
  single_active qs → qs !! i = Some q → IQuestion.isActive q = true →
  single_active (<[next := successor]> (<[i := retire q]> qs)).
Proof.
  intros Hone Hq Ha. apply single_active_create. intros j qj Hj _.
  destruct (decide (j = i)) as [-> | Hne].
  - rewrite lookup_insert_eq in Hj. by injection Hj as <-.
  - rewrite lookup_insert_ne in Hj by done.
    destruct (IQuestion.isActive qj) eqn:Haj; [| done].
    by destruct Hne; apply (Hone j i qj q).
Qed.

Lemma single_active_claim (qs : gmap nat IQuestion.t) (i pid : nat) (name : string)
    (q : IQuestion.t) :
  single_active qs → qs !! i = Some q →
  single_active (<[i := claim pid name q]> qs).
Proof.
  intros Hone Hq a b qa qb Hqa Hqb Ha Hb.
  assert (Hback : ∀ k qk, <[i := claim pid name q]> qs !! k = Some qk →
                          IQuestion.isActive qk = true →
                          ∃ qk', qs !! k = Some qk' ∧ IQuestion.isActive qk' = true).
  { intros k qk Hk Hak. destruct (decide (k = i)) as [-> | Hne].
    - rewrite lookup_insert_eq in Hk. injection Hk as <-. by exists q.
    - rewrite lookup_insert_ne in Hk by done. by exists qk. }
  destruct (Hback a qa Hqa Ha) as (qa' & Hqa' & Ha').
  destruct (Hback b qb Hqb Hb) as (qb' & Hqb' & Hb').
  by apply (Hone a b qa' qb').
Qed.

(** While the active question has no winner, or no question is active, no
    timer is pending. *)
Lemma orderly_no_timer (w : World) :
  orderly w →
  (∀ i q, questions w !! i = Some q → IQuestion.isActive q = true →
          IQuestion.winnerId q = None) →
  timers w = [].
Proof.
  intros (_ & _ & _ & Htimers) Hunwon.
  destruct (timers w) as [| t ts]; [done |].
  destruct (Htimers t ltac:(left)) as (q & Hq & Ha & [winner Hw]).
  by rewrite (Hunwon _ q Hq Ha) in Hw.
Qed.

Lemma orderly_unwon (w : World) (i : nat) (q : IQuestion.t) :
  orderly w → questions w !! i = Some q → IQuestion.isActive q = true →
  IQuestion.winnerId q = None →
  ∀ j qj, questions w !! j = Some qj → IQuestion.isActive qj = true →
          IQuestion.winnerId qj = None.
Proof.
  intros (_ & Hone & _) Hq Ha Hw j qj Hj Haj.
  assert (j = i) as -> by (by apply (Hone j i qj q)). congruence.
Qed.

Lemma occur_Expire (n : nat) (w w' : World) :
  occur (Expire n) w = Some w' →
  ∃ t, timers w !! n = Some t ∧ due t ≤ clock w
       ∧ w' = (run (AnswerRoute.rotation (rotates t))
                 (with_timers (delete n (timers w)) w)).1.
Proof.
  unfold occur. destruct (timers w !! n) as [t |]; [| done].
  cbn [mbind option_bind]. destruct (Z.leb_spec (due t) (clock w)); [| done].
  intros [= <-]. by exists t.
Qed.

Lemma orderly_POST (w : World) (playerId questionId : option ObjectId)
    (answer : option JsNumber) :
  orderly w → orderly (run (AnswerRoute.POST playerId questionId answer) w).1.
Proof.
  intros Hord. pose proof Hord as (Hu & Hone & Hlen & Htimers).
  destruct (run_POST_effect w playerId questionId answer)
    as [[-> _] | (pid & qid & q & p & _ & _ & Hq & _ & Ha & Hw & ->)]; [done |].
  cbn [fst].
  rewrite (orderly_no_timer w Hord (orderly_unwon w qid q Hord Hq Ha Hw)).
  split; [done |]. split; [by apply single_active_claim |]. split; [simpl; lia |].
  intros t ->%list_elem_of_singleton. exists (claim pid (IPlayer.username p) q).
  cbn. split; [apply lookup_insert_eq |]. split; [done | by eexists].
Qed.

(** A request with a body or an id that the route cannot use writes
    nothing; any other is an answer request. *)
Lemma run_POST_req_effect (w : World) (body : AnswerRoute.Body) :
  (run (AnswerRoute.POST_req body) w).1 = w
  ∨ ∃ playerId questionId answer,
      AnswerRoute.POST_req body = AnswerRoute.POST playerId questionId answer.
Proof.
  destruct body as [| | [| | playerId] [| | questionId] [[| numAnswer] |]];
    try (by left).
  - left. cbn [AnswerRoute.POST_req run exec].
    destruct (questions w !! questionId) as [q |]; [| done].
    destruct (negb _); [done |]. destruct (bool_decide _); [done |].
    by destruct (negb _).
  - right. by exists (Some playerId), (Some questionId), (Some (Num numAnswer)).
Qed.

Lemma orderly_occur (e : event) (w w' : World) :
  orderly w → occur e w = Some w' → orderly w'.
Proof.
  intros Hord Hocc. pose proof Hord as (Hu & Hone & Hlen & Htimers).
  destruct e as [r | d | n]; cbn [occur] in Hocc.
  - injection Hocc as <-. destruct r as [playerId questionId answer | u | u | | | body].
    6: { cbn [handler]. destruct (run_POST_req_effect w body)
           as [-> | (playerId & questionId & answer & ->)]; [done |].
         by apply orderly_POST. }
    + by apply orderly_POST.
    + destruct (run_join_frame w u (PostJoin u) ltac:(by left)) as (Hq & Ht & He).
      unfold orderly. by rewrite Hq, Ht, He.
    + destruct (run_join_frame w u (PostJoin2 u) ltac:(by right)) as (Hq & Ht & He).
      unfold orderly. by rewrite Hq, Ht, He.
    + cbn [handler].
      destruct (findOne_active (questions w)) as [[i q] |] eqn:Hfind.
      * destruct (findOne_active_Some _ _ _ Hfind) as [Hq Ha].
        destruct (IQuestion.winnerId q) as [winner |] eqn:Hw;
          [by rewrite (run_GET_won w i q Hfind) by (by rewrite Hw) |].
        destruct (decide (clock w - IQuestion.createdAt q
                          ≤ QuestionRoute.QUESTION_TIMEOUT_MS)) as [Hage | Hage];
          [by rewrite (run_GET_young w i q Hfind Hw Hage) |].
        destruct (run_GET_timed_out w i q Hu Hfind Hw ltac:(lia))
          as (g & next & _ & _ & ->).
        cbn zeta. cbn [fst].
        pose proof (orderly_no_timer w Hord (orderly_unwon w i q Hord Hq Ha Hw)) as Hno.
        split; [done |]. split; [by apply single_active_rotate |].
        cbn. rewrite Hno. split; [simpl; lia |]. by intros t ?%elem_of_nil.
      * destruct (run_GET_none w Hu Hfind) as (g & _ & ->). cbn zeta. cbn [fst].
        assert (Hno : timers w = []).
        { apply (orderly_no_timer w Hord). intros i q Hq Ha.
          by rewrite (findOne_active_None _ i q Hfind Hq) in Ha. }
        split; [done |].
        split; [apply single_active_create; intros i q Hq _;
                apply (findOne_active_None _ i q Hfind Hq) |].
        cbn. rewrite Hno. split; [simpl; lia |]. by intros t ?%elem_of_nil.
    + done.
  - destruct (0 <=? d); [| done]. by injection Hocc as <-.
  - apply occur_Expire in Hocc as (t & Ht & _ & ->).
    assert (Hdel : delete n (timers w) = []).
    { destruct (timers w) as [| t0 [| t1 ts]]; [done | | simpl in Hlen; lia].
      by destruct n. }
    destruct (Htimers t (list_elem_of_lookup_2 _ _ _ Ht)) as (q & Hq & Ha & _).
    rewrite Hdel.
    destruct (run_rotation (with_timers [] w) (rotates t) Hu) as (g & _ & ->).
    cbn [questions with_timers]. rewrite Hq. cbn zeta. cbn [fst].
    split; [done |]. split; [by apply single_active_rotate |].
    cbn. split; [lia |]. by intros t' ?%elem_of_nil.
Qed.

Lemma orderly_history (es : list event) (w w' : World) :
  orderly w → history es w = Some w' → orderly w'.
Proof.
  revert w. induction es as [| e es IH]; intros w Hord; simpl.
  - by intros [= <-].
  - destruct (occur e w) as [w1 |] eqn:Hocc; [| done]. simpl.
    apply IH. by apply (orderly_occur e w).
Qed.

Lemma quiz_orderly (now : Z) : orderly (quiz seven_by_eight now).
Proof.
  split; [intros n; apply quiz_entropy |].
  split.
  - intros i j qi qj Hi Hj _ _. cbn in Hi, Hj.
    apply lookup_singleton_Some in Hi as [<- _].
    by apply lookup_singleton_Some in Hj as [<- _].
  - cbn. split; [lia |]. by intros t ?%elem_of_nil.
Qed.

(** X11: on a server that handles every request and every timer task from
    start to end before the next, starting from a store with at most one
    active question and no stray timer, there is never more than one active
    question and never more than one rotation timer pending, and a pending
    timer is always for the active question, which then has a winner. *)
Theorem one_active_question (es : list event) (w w' : World) :
  orderly w → history es w = Some w' →
  (∀ i j qi qj, questions w' !! i = Some qi → questions w' !! j = Some qj →
                IQuestion.isActive qi = true → IQuestion.isActive qj = true → i = j)
  ∧ (length (timers w') ≤ 1)%nat
  ∧ ∀ t, t ∈ timers w' →
         ∃ q, questions w' !! rotates t = Some q
              ∧ IQuestion.isActive q = true ∧ is_Some (IQuestion.winnerId q).
Proof.
  intros Hord Hhist.
  by destruct (orderly_history es w w' Hord Hhist) as (_ & Hone & Hlen & Htimers).
Qed.

Lemma evening_history :
  is_Some (history evening (quiz seven_by_eight 1000)).
Proof. vm_compute. by eexists. Qed.

Lemma one_active_question_witness :
  ∃ w', history evening (quiz seven_by_eight 1000) = Some w'
        ∧ (∀ i j qi qj, questions w' !! i = Some qi → questions w' !! j = Some qj →
                        IQuestion.isActive qi = true → IQuestion.isActive qj = true →
                        i = j)
        ∧ (length (timers w') ≤ 1)%nat
        ∧ ∀ t, t ∈ timers w' →
               ∃ q, questions w' !! rotates t = Some q
                    ∧ IQuestion.isActive q = true ∧ is_Some (IQuestion.winnerId q).
Proof.
  destruct evening_history as [w' Hrun]. exists w'. split; [exact Hrun |].
  exact (one_active_question evening (quiz seven_by_eight 1000) w'
           (quiz_orderly 1000) Hrun).
Defined.

(** ** Two polls at once *)

Lemma execute_app (a b : list action) (s : System) :
  execute (a ++ b) s = execute a s ≫= execute b.
Proof.
  revert s. induction a as [| x a IH]; intros s; simpl; [done |].
  destruct (perform x s) as [s1 |]; simpl; [apply IH | done].
Qed.

(** A thread left to itself runs its program to the end. *)
Lemma execute_alone (r : Request) (p : prog Response) (s : System) (i : nat) :
  pool s !! i = Some (Serving r p) →
  ∃ n, execute (replicate n (Advance i)) s
       = Some {| world := (run p (world s)).1;
                 pool := <[i := Serving r (Ret (run p (world s)).2)]> (pool s) |}.
Proof.
  revert s. induction p as [x | X o k IH]; intros s Hi.
  - exists 0%nat. simpl. rewrite list_insert_id by done. by destruct s.
  - destruct (exec o (world s)) as [w1 x] eqn:Hexec.
    destruct (IH x {| world := w1; pool := <[i := Serving r (k x)]> (pool s) |})
      as [n Hn].
    { simpl. apply list_lookup_insert_eq. by apply lookup_lt_Some in Hi. }
    exists (S n). cbn [replicate execute perform]. rewrite Hi.
    cbn [mbind option_bind advance]. rewrite Hexec. cbn [mbind option_bind].
    rewrite Hn. cbn [world pool run]. rewrite Hexec. by rewrite list_insert_insert_eq.
Qed.

(** The poll that has found no active question. *)
Lemma GET_found_none :
  ∃ k, QuestionRoute.GET = Vis Question_findOne_active k
       ∧ ∀ w, (∀ n, unit_interval (entropy w n)) →
              ∃ g, (run generateQuestion w).2 = Some g
                   ∧ run (k None) w
                     = (with_drawn (S (S (S (drawn w))))
                          (with_questions
                             (<[fresh (dom (questions w)) :=
                                  IQuestion.Make (GeneratedQuestion.text g)
                                    (GeneratedQuestion.answer g) true None None (clock w)]>
                                (questions w)) w),
                        Snapshot (fresh (dom (questions w))) (GeneratedQuestion.text g)
                          None None QuestionRoute.QUESTION_TIMEOUT_MS
                          (QuestionRoute.select <$> top10 (players w))).
Proof.
  eexists. split; [reflexivity |]. intros w Hu.
  destruct (run_create w Hu) as (g & Hg & Hcreate).
  exists g. split; [done |]. rewrite run_bind, Hcreate. cbn.
  by rewrite Z.sub_diag, Z.sub_0_r.
Qed.

(** X12: nothing keeps two polls that overlap from both creating a
    question: when no question is active and both polls look for one before
    either has created its own, the store ends up with two active questions
    and the two clients are shown different ones. *)
Theorem poll_race (w : World) :
  (∀ n, unit_interval (entropy w n)) →
  findOne_active (questions w) = None →
  ∃ acts s a b qa qb ta tb la lb,
    execute acts (boot w [GetQuestion; GetQuestion]) = Some s
    ∧ a ≠ b
    ∧ questions (world s) !! a = Some qa ∧ IQuestion.isActive qa = true
    ∧ questions (world s) !! b = Some qb ∧ IQuestion.isActive qb = true
    ∧ pool s = [Serving GetQuestion
                  (Ret (Snapshot a ta None None QuestionRoute.QUESTION_TIMEOUT_MS la));
                Serving GetQuestion
                  (Ret (Snapshot b tb None None QuestionRoute.QUESTION_TIMEOUT_MS lb))].
Proof.
  intros Hu Hfind. destruct GET_found_none as (k & HGET & Hk).
  set (s2 := {| world := w;
                pool := [Serving GetQuestion (k None); Serving GetQuestion (k None)] |}).
  assert (Hlook : execute [Advance 0; Advance 1] (boot w [GetQuestion; GetQuestion])
                  = Some s2).
  { unfold boot. cbn [fmap list_fmap handler]. rewrite HGET.
    cbn [execute perform pool world lookup list_lookup mbind option_bind advance exec
           insert list_insert].
    by rewrite Hfind. }
  destruct (execute_alone GetQuestion (k None) s2 0 eq_refl) as [n0 Hn0].
  destruct (Hk w Hu) as (ga & _ & Hrun0).
  cbn [world pool s2] in Hn0. rewrite Hrun0 in Hn0. cbn [fst snd insert list_insert] in Hn0.
  set (w1 := with_drawn _ _) in Hn0.
  set (s3 := {| world := w1; pool := _ |}) in Hn0.
  destruct (execute_alone GetQuestion (k None) s3 1 eq_refl) as [n1 Hn1].
  destruct (Hk w1 Hu) as (gb & _ & Hrun1).
  cbn [world pool s3] in Hn1. rewrite Hrun1 in Hn1. cbn [fst snd insert list_insert] in Hn1.
  pose proof (fresh_unused (questions w)) as Ha.
  pose proof (fresh_unused (questions w1)) as Hb.
  assert (Hab : fresh (dom (questions w)) ≠ fresh (dom (questions w1))).
  { intros Heq. rewrite <- Heq in Hb. unfold w1 in Hb. cbn in Hb.
    by rewrite lookup_insert_eq in Hb. }
  eexists ([Advance 0; Advance 1] ++ replicate n0 (Advance 0) ++ replicate n1 (Advance 1)),
    _, (fresh (dom (questions w))), (fresh (dom (questions w1))), _, _, _, _, _, _.
  split.
  { rewrite execute_app, Hlook. cbn [mbind option_bind].
    rewrite execute_app, Hn0. cbn [mbind option_bind]. exact Hn1. }
  split; [exact Hab |]. cbn [world pool questions with_drawn with_questions].
  split; [rewrite lookup_insert_ne by done; unfold w1; cbn; apply lookup_insert_eq |].
  split; [reflexivity |]. split; [apply lookup_insert_eq |]. split; reflexivity.
Qed.

Lemma poll_race_witness :
  ∃ acts s a b qa qb ta tb la lb,
    execute acts (boot (quiz (retire seven_by_eight) 5000) [GetQuestion; GetQuestion])
    = Some s
    ∧ a ≠ b
    ∧ questions (world s) !! a = Some qa ∧ IQuestion.isActive qa = true
    ∧ questions (world s) !! b = Some qb ∧ IQuestion.isActive qb = true
    ∧ pool s = [Serving GetQuestion
                  (Ret (Snapshot a ta None None QuestionRoute.QUESTION_TIMEOUT_MS la));
                Serving GetQuestion
                  (Ret (Snapshot b tb None None QuestionRoute.QUESTION_TIMEOUT_MS lb))].
Proof.
  apply (poll_race (quiz (retire seven_by_eight) 5000)).
  - intros n. apply quiz_entropy.
  - reflexivity.
Defined.

(** ** How long a call can take *)

Lemma duration_app (l1 l2 : list Event) : duration (l1 ++ l2) = duration l1 + duration l2.
Proof. induction l1 as [| e l1 IH]; simpl; [done |]. unfold duration in *. simpl. lia. Qed.

Lemma attempts_duration {A : Type} (net : Z → Wire A) (url : string)
    (maxRetries baseDelay : Z) (fuel : nat) (a : Z) (last : option string)
    (log : list Event) (outcome : Outcome A) :
  0 ≤ baseDelay → 0 ≤ a →
  attempts fuel net url maxRetries baseDelay a last = Some (log, outcome) →
  if a <=? maxRetries
  then duration log ≤ (maxRetries + 1 - a) * 8000 + baseDelay * (2 ^ maxRetries - 2 ^ a)
  else duration log = 0.
Proof.
  intros Hb. revert a last log.
  induction fuel as [| fuel IH]; intros a last log Ha Hrun; [done |].
  apply loop_cases in Hrun
    as [(Hgt & -> & _) | [(Hle & res & _ & -> & _) | (Hle & err & log' & _ & Hrec & ->)]].
  - by destruct (Z.leb_spec a maxRetries); [lia |].
  - destruct (Z.leb_spec a maxRetries); [| lia].
    pose proof (fetch_elapsed (net a)) as He.
    assert (2 ^ a ≤ 2 ^ maxRetries) by (apply Z.pow_le_mono_r; lia).
    unfold duration. simpl. nia.
  - destruct (Z.leb_spec a maxRetries); [| lia].
    pose proof (fetch_elapsed (net a)) as He.
    apply IH in Hrec; [| lia].
    change (attempted url a (fetch (net a)).1 :: ?l) with ([attempted url a (fetch (net a)).1] ++ l).
    rewrite !duration_app.
    assert (Hpow : 2 ^ (a + 1) = 2 * 2 ^ a) by (rewrite Z.pow_add_r by lia; lia).
    destruct (Z.ltb_spec a maxRetries) as [Hlt | Hge].
    + destruct (Z.leb_spec (a + 1) maxRetries); [| lia].
      unfold duration at 1 2. simpl. nia.
    + destruct (Z.leb_spec (a + 1) maxRetries); [lia |].
      assert (a = maxRetries) as -> by lia.
      unfold duration at 1 2. simpl. lia.
Qed.

Lemma attempts_duration_dead {A : Type} (net : Z → Wire A) (url : string)
    (maxRetries baseDelay : Z) (fuel : nat) (a : Z) (last : option string)
    (log : list Event) (outcome : Outcome A) :
  (∀ i, net i = Hangs) → 0 ≤ a ≤ maxRetries →
  attempts fuel net url maxRetries baseDelay a last = Some (log, outcome) →
  duration log = (maxRetries + 1 - a) * 8000 + baseDelay * (2 ^ maxRetries - 2 ^ a).
Proof.
  intros Hdead. revert a last log.
  induction fuel as [| fuel IH]; intros a last log Ha Hrun; [done |].
  apply loop_cases in Hrun
    as [(Hgt & -> & _) | [(Hle & res & Hres & -> & _) | (Hle & err & log' & _ & Hrec & ->)]].
  - lia.
  - by rewrite Hdead in Hres.
  - rewrite Hdead. cbn [fetch fst].
    change (attempted url a 8000 :: ?l) with ([attempted url a 8000] ++ l).
    rewrite !duration_app.
    assert (Hpow : 2 ^ (a + 1) = 2 * 2 ^ a) by (rewrite Z.pow_add_r by lia; lia).
    destruct (Z.ltb_spec a maxRetries) as [Hlt | Hge].
    + apply IH in Hrec; [| lia]. rewrite Hrec. unfold duration. simpl. lia.
    + assert (a = maxRetries) as -> by lia.
      destruct fuel as [| fuel]; [done |].
      apply loop_cases in Hrec as [(_ & -> & _) | [(? & _) | (? & _)]]; [| lia | lia].
      unfold duration. simpl. lia.
Qed.

(** X13: a call of [fetchWithRetry] with integers [maxRetries ≥ 0] and
    [baseDelay ≥ 0] whose pauses [setTimeout] takes as they are
    ([baseDelay × 2^maxRetries] at most [2^31 − 1]) ends, whatever the
    network does, within
    [(maxRetries + 1) × 8000 + baseDelay × (2^maxRetries − 1)] ms of
    attempts and pauses: 16300 ms for a poll, 24900 ms for an answer
    submission, 35500 ms with the defaults; on a network that never answers
    the attempts and pauses add up to exactly that. *)
Theorem fetchWithRetry_duration {A : Type} (net : Z → Wire A) (url : string)
    (maxRetries baseDelay : Z) :
  0 ≤ maxRetries → 0 ≤ baseDelay → baseDelay * 2 ^ maxRetries ≤ 2147483647 →
  ∃ log outcome,
    fetchWithRetry net url (Some maxRetries) (Some baseDelay) = Some (log, outcome)
    ∧ duration log ≤ (maxRetries + 1) * 8000 + baseDelay * (2 ^ maxRetries - 1)
    ∧ ((maxRetries = 1 ∧ baseDelay = 300) → duration log ≤ 16300)
    ∧ ((maxRetries = 2 ∧ baseDelay = 300) → duration log ≤ 24900)
    ∧ ((maxRetries = 3 ∧ baseDelay = 500) → duration log ≤ 35500)
    ∧ ((∀ i, net i = Hangs) →
       duration log = (maxRetries + 1) * 8000 + baseDelay * (2 ^ maxRetries - 1)).
Proof.
  intros Hm Hb Hfit.
  destruct (fetchWithRetry_total net url maxRetries baseDelay Hb Hfit)
    as [[log outcome] Hrun].
  exists log, outcome. split; [exact Hrun |].
  pose proof (attempts_duration net url maxRetries baseDelay _ 0 None log outcome
                Hb ltac:(lia) Hrun) as Hd.
  destruct (Z.leb_spec 0 maxRetries); [| lia].
  rewrite Z.sub_0_r in Hd. change (2 ^ 0) with 1 in Hd.
  split; [exact Hd |].
  split; [intros [-> ->]; exact Hd |]. split; [intros [-> ->]; exact Hd |].
  split; [intros [-> ->]; exact Hd |]. intros Hdead.
  pose proof (attempts_duration_dead net url maxRetries baseDelay _ 0 None log outcome
                Hdead ltac:(lia) Hrun) as He.
  rewrite Z.sub_0_r in He. exact He.
Qed.

Lemma fetchWithRetry_duration_witness :
  ∃ log outcome,
    fetchWithRetry (@dead unit) "/api/answer" (Some 2) (Some 300) = Some (log, outcome)
    ∧ duration log ≤ 24900
    ∧ duration log = 24900.
Proof.
  destruct (fetchWithRetry_duration (@dead unit) "/api/answer" 2 300)
    as (log & outcome & Hrun & _ & _ & Hsubmit & _ & Hdead); [lia | lia | done |].
  exists log, outcome. split; [exact Hrun |].
  split; [apply Hsubmit; split; reflexivity | apply Hdead; reflexivity].
Defined.

(** ** [randInt] *)

(** The largest double below 1. *)
Lemma floor_scaled_top (n : Z) :
  0 < n ≤ 2 ^ 52 →
  Double.floor (Double.times (Double.Make (2 ^ 53 - 1) (-53)) n) = n - 1.
Proof.
  intros Hn.
  assert (Htop : unit_interval (Double.Make (2 ^ 53 - 1) (-53))).
  { split; [split; cbn; lia | split; vm_compute; congruence]. }
  pose proof (floor_scaled _ n Htop ltac:(lia)) as [_ Hup].
  enough (n - 1 ≤ Double.floor (Double.times (Double.Make (2 ^ 53 - 1) (-53)) n)) by lia.
  clear Hup Htop. unfold Double.times, Double.floor.
  cbn [Double.mantissa Double.exponent].
  set (m := 2 ^ 53 - 1). assert (Hm : m = 2 ^ 53 - 1) by done. clearbody m.
  set (s := Z.max 0 (Z.log2 (m * n) + 1 - 53)).
  set (q := Double.nearest_even (m * n) s).
  assert (Hpos : 0 < m * n) by nia.
  pose proof (Z.log2_spec (m * n) Hpos) as [Hlow Hhigh].
  assert (Hs52 : s ≤ 52).
  { enough (Z.log2 (m * n) < 105) by lia.
    apply Z.log2_lt_pow2; [done |]. change (2 ^ 105) with (2 ^ 53 * 2 ^ 52). nia. }
  assert (Hs : 0 ≤ s) by lia.
  assert (H2s : 0 < 2 ^ s) by (apply Z.pow_pos_nonneg; lia).
  assert (Hcore : (n - 1) * 2 ^ 53 ≤ q * 2 ^ s).
  { destruct (Z.eq_dec s 0) as [Hs0 | Hs0].
    - unfold q, Double.nearest_even. rewrite Hs0. cbn [Z.leb Z.compare Z.pow Z.pow_pos].
      nia.
    - assert (Hspos : 0 < s) by lia.
      destruct (nearest_even_near (m * n) s ltac:(nia) Hspos) as (_ & Hdown & _).
      fold q in Hdown.
      assert (Hlog : Z.log2 (m * n) = s + 52) by lia. rewrite Hlog in Hlow.
      assert (H53 : 2 ^ (s + 52) = 2 ^ (s - 1) * 2 ^ 53).
      { rewrite <- Z.pow_add_r by lia. f_equal. lia. }
      assert (Hh : 0 < 2 ^ (s - 1)) by (apply Z.pow_pos_nonneg; lia).
      assert (Hn1 : 2 ^ (s - 1) < n) by nia.
      nia. }
  rewrite Z.shiftl_div_pow2 by lia.
  assert (Hsplit : 2 ^ 53 = 2 ^ (- (-53 + s)) * 2 ^ s).
  { rewrite <- Z.pow_add_r by lia. f_equal. lia. }
  assert (0 < 2 ^ (- (-53 + s))) by (apply Z.pow_pos_nonneg; lia).
  apply Z.div_le_lower_bound; [done |]. rewrite Hsplit in Hcore. nia.
Qed.

(** X14: for integers [min ≤ max] of at most 51 bits, [randInt(min, max)]
    takes one draw of [Math.random()] and returns an integer of
    [[min, max]] for every double of [[0, 1)] the draw can be, the rounding
    of the product notwithstanding; the draw 0 gives [min] and the largest
    double below 1 gives [max]. *)
Theorem randInt_within (w : World) (min max : Z) :
  unit_interval (entropy w (drawn w)) →
  - 2 ^ 51 ≤ min → min ≤ max → max < 2 ^ 51 →
  (run (randInt min max) w).1 = with_drawn (S (drawn w)) w
  ∧ min ≤ (run (randInt min max) w).2 ≤ max
  ∧ (Double.mantissa (entropy w (drawn w)) = 0 → (run (randInt min max) w).2 = min)
  ∧ (entropy w (drawn w) = Double.Make (2 ^ 53 - 1) (-53) →
     (run (randInt min max) w).2 = max).
Proof.
  intros Hu Hlow Hle Hhigh. rewrite run_randInt. cbn [fst snd].
  split; [done |]. split; [by apply randInt_range |]. split.
  - intros Hzero. unfold Double.times, Double.floor.
    cbn [Double.mantissa Double.exponent]. rewrite Hzero.
    cbn [Z.mul Z.log2 Z.add Z.sub Z.max Z.opp Z.pos_sub Z.compare
           Pos.compare Pos.compare_cont].
    unfold Double.nearest_even. cbn [Z.leb Z.compare]. rewrite Z.shiftl_0_l. lia.
  - intros ->. rewrite floor_scaled_top; [lia |].
    change (2 ^ 52) with (2 ^ 51 + 2 ^ 51). lia.
Qed.

Lemma randInt_within_witness :
  (run (randInt 10 99) (quiz seven_by_eight 0)).1
  = with_drawn (S (drawn (quiz seven_by_eight 0))) (quiz seven_by_eight 0)
  ∧ 10 ≤ (run (randInt 10 99) (quiz seven_by_eight 0)).2 ≤ 99
  ∧ (Double.mantissa (entropy (quiz seven_by_eight 0) (drawn (quiz seven_by_eight 0))) = 0 →
     (run (randInt 10 99) (quiz seven_by_eight 0)).2 = 10)
  ∧ (entropy (quiz seven_by_eight 0) (drawn (quiz seven_by_eight 0))
     = Double.Make (2 ^ 53 - 1) (-53) →
     (run (randInt 10 99) (quiz seven_by_eight 0)).2 = 99).
Proof.
  apply (randInt_within (quiz seven_by_eight 0) 10 99).
  - apply quiz_entropy.
  - lia.
  - lia.
  - lia.
Defined.

(** ** Submitting an answer *)

Lemma submit_first {A : Type} (net : Z → Wire A) (after : Z) (res : A) :
  net 0 = Responds after res → after < 8000 →
  submitAnswer net = Some ([attempted "/api/answer" 0 after], Returned res).
Proof.
  intros Hnet Hlag.
  change (submitAnswer net) with (attempts 4 net "/api/answer" 2 300 0 None).
  assert (H0 : fetch (net 0) = (after, Resolved res)).
  { rewrite Hnet. cbn [fetch]. by destruct (Z.ltb_spec after 8000); [| lia]. }
  pose proof (loop_resolved net "/api/answer" 2 300 3 0 None res ltac:(lia)) as Hloop.
  cbv beta in Hloop. rewrite Hloop by (by rewrite H0). by rewrite H0.
Qed.




(** X16: when the response to the first attempt arrives in time and
    nothing else is served meanwhile, [handleSubmit] shows feedback of
    type success only when the server recorded the player as the winner of
    a question that had none and raised the score by one, and then keeps the
    input; otherwise the server wrote nothing and the feedback is an error
    with the input cleared, with the text "Wrong answer!" whenever the
    server answered with an error status; feedback of type info is not
    shown. *)
Theorem submit_feedback_sound (w : World) (c : Client) (data : QuestionData.t)
    (playerId : ObjectId) (number : JsNumber) (lag : Z → Z) :
  question c = Some data →
  trim (answerInput c) ≠ EmptyString →
  lag 0 < 8000 →
  ∃ c' message type,
    handleSubmit (line (submission (Some playerId) number c) lag w)
      (Some playerId) false c = Some c'
    ∧ feedback c' = Some (message, type)
    ∧ match type with
      | success =>
          answerInput c' = answerInput c
          ∧ ∃ q p,
              questions w !! QuestionData.questionId data = Some q
              ∧ IQuestion.winnerId q = None
              ∧ players w !! playerId = Some p
              ∧ questions (served (submission (Some playerId) number c) 1 w)
                  !! QuestionData.questionId data
                = Some (claim playerId (IPlayer.username p) q)
              ∧ players (served (submission (Some playerId) number c) 1 w) !! playerId
                = Some (set_score (IPlayer.score p + 1) p)
      | error =>
          answerInput c' = EmptyString
          ∧ served (submission (Some playerId) number c) 1 w = w
          ∧ ((∃ status text,
                (run (handler (submission (Some playerId) number c)) w).2
                = Failure status text)
             → message = "Wrong answer!")
      | info => False
      end.
Proof.
  intros Hdata Hinput Hlag.
  unfold submission. rewrite Hdata. cbn [fmap option_fmap option_map].
  set (qid := QuestionData.questionId data) in *.
  set (answer := match number with NaN => None | Num q => Some (Num q) end).
  set (r := PostAnswer (Some playerId) (Some qid) answer).
  assert (Hsubmit : handleSubmit (line r lag w) (Some playerId) false c
                    = Some match HttpResponse.json (reply (run (handler r) w).2) with
                           | Some data =>
                               let fb :=
                                 if won_of data
                                 then (default EmptyString (message_of data), success)
                                 else if correct_of data
                                      then (default EmptyString (message_of data), info)
                                      else (or_else (message_of data) "Wrong answer!",
                                            error) in
                               with_form
                                 (if correct_of data then answerInput c else EmptyString)
                                 (Some fb) c
                           | None =>
                               with_form (answerInput c)
                                 (Some ("Network error. Please try again.", error)) c
                           end).
  { unfold handleSubmit. rewrite Hdata. cbn [orb].
    rewrite bool_decide_eq_false_2 by done.
    by rewrite (submit_first (line r lag w) (lag 0) _ eq_refl Hlag). }
  rewrite Hsubmit. cbn [reply HttpResponse.json served reached handler r].
  destruct (run_POST_effect w (Some playerId) (Some qid) answer)
    as [[Hsame [(status & text & Hresp) | (m & Hresp & Hm)]]
       | (pid & qid' & q & p & [= <-] & [= <-] & Hq & Hp & Ha & Hw & Hrun)].
  - rewrite Hresp, Hsame. eexists _, _, _. split; [reflexivity |]. cbn.
    split; [reflexivity |]. done.
  - rewrite Hresp, Hsame. eexists _, _, _. split; [reflexivity |]. cbn.
    split; [reflexivity |]. split; [done |]. split; [done |].
    by intros (? & ? & ?).
  - rewrite Hrun. eexists _, _, _. split; [reflexivity |]. cbn.
    split; [reflexivity |]. split; [done |]. exists q, p.
    split; [done |]. split; [done |]. split; [done |].
    split; apply lookup_insert_eq.
Qed.

Lemma submit_feedback_sound_witness :
  ∃ c' message type,
    handleSubmit
      (line (submission (Some 0%nat) (Num (56 # 1)) typing) (λ _, 20)
         (quiz seven_by_eight 1000))
      (Some 0%nat) false typing = Some c'
    ∧ feedback c' = Some (message, type)
    ∧ match type with
      | success =>
          answerInput c' = answerInput typing
          ∧ ∃ q p,
              questions (quiz seven_by_eight 1000) !! QuestionData.questionId snapshot
              = Some q
              ∧ IQuestion.winnerId q = None
              ∧ players (quiz seven_by_eight 1000) !! 0%nat = Some p
              ∧ questions (served (submission (Some 0%nat) (Num (56 # 1)) typing) 1
                             (quiz seven_by_eight 1000))
                  !! QuestionData.questionId snapshot
                = Some (claim 0%nat (IPlayer.username p) q)
              ∧ players (served (submission (Some 0%nat) (Num (56 # 1)) typing) 1
                           (quiz seven_by_eight 1000)) !! 0%nat
                = Some (set_score (IPlayer.score p + 1) p)
      | error =>
          answerInput c' = EmptyString
          ∧ served (submission (Some 0%nat) (Num (56 # 1)) typing) 1
              (quiz seven_by_eight 1000) = quiz seven_by_eight 1000
          ∧ ((∃ status text,
                (run (handler (submission (Some 0%nat) (Num (56 # 1)) typing))
                   (quiz seven_by_eight 1000)).2 = Failure status text)
             → message = "Wrong answer!")
      | info => False
      end.
Proof.
  apply (submit_feedback_sound (quiz seven_by_eight 1000) typing snapshot 0%nat
           (Num (56 # 1)) (λ _, 20)).
  - reflexivity.
  - vm_compute. discriminate.
  - reflexivity.
Defined.

(** ** The countdown *)

Lemma seconds_range (ms : Z) : 0 ≤ ms ≤ 60000 → 0 ≤ seconds ms ≤ 60.
Proof.
  intros Hms. unfold seconds.
  assert (-60 ≤ (- ms) / 1000) by (apply Z.div_le_lower_bound; lia).
  assert ((- ms) / 1000 ≤ 0) by (apply Z.div_le_upper_bound; lia).
  lia.
Qed.

Lemma timeLeft_received (data : QuestionData.t) (c : Client) :
  timeLeft (received data c) = seconds (QuestionData.remainingMs data).
Proof.
  unfold received. cbn [consecutiveFailures lastQuestionId].
  destruct (0 <? consecutiveFailures c); case_bool_decide; reflexivity.
Qed.

Lemma timeLeft_failed (c : Client) : timeLeft (failed c) = timeLeft c.
Proof.
  unfold failed. destruct (5 <=? _); [done |]. by destruct (2 <=? _).
Qed.

Lemma fetch_resolved {A : Type} (b : Wire A) (res : A) :
  (fetch b).2 = Resolved res → ∃ after, b = Responds after res.
Proof.
  destruct b as [t r | t err |]; simpl; [| | done].
  - destruct (t <? 8000); [| done]. intros [= ->]. by exists t.
  - by destruct (t <? 8000).
Qed.

Lemma timeLeft_moment (m : Moment) (c c' : Client) :
  timely m → 0 ≤ timeLeft c ≤ 60 → moment m c = Some c' → 0 ≤ timeLeft c' ≤ 60.
Proof.
  intros Hm Hc. destruct m as [| [net | |]]; cbn [moment happen].
  - intros [= <-]. cbn. lia.
  - unfold fetchQuestion, pollQuestion.
    destruct (fetchWithRetry net "/api/question" (Some 1) (Some 300))
      as [[log outcome] |] eqn:Hrun; [| done].
    cbn [mbind option_bind]. intros [= <-].
    destruct outcome as [res | last]; [| by rewrite timeLeft_failed].
    destruct (HttpResponse.ok res); cbn [negb]; [| done].
    destruct (HttpResponse.json res) as [data |] eqn:Hjson;
      [| by rewrite timeLeft_failed].
    rewrite timeLeft_received. apply seconds_range.
    pose proof (loop_returned net "/api/question" 1 300 _ 0 None log res Hrun)
      as (i & _ & Hres & _).
    destruct (fetch_resolved _ _ Hres) as [after Hnet].
    by apply (Hm i after res data).
  - by intros [= <-].
  - by intros [= <-].
Qed.

(** X17: from a page whose countdown is between 0 and 60, as it is when
    mounted, whatever mix of seconds ticking, polls and browser online and
    offline events happens, the countdown shown stays between 0 and 60,
    provided every question body that arrives has its [remainingMs] in
    [[0, 60000]]. *)
Theorem timeLeft_in_range (ms : list Moment) (c c' : Client) :
  Forall timely ms → 0 ≤ timeLeft c ≤ 60 → moments ms c = Some c' →
  0 ≤ timeLeft c' ≤ 60.
Proof.
  intros Hms. revert c. induction Hms as [| m ms Hm _ IH]; intros c Hc; simpl.
  - by intros [= <-].
  - destruct (moment m c) as [c1 |] eqn:Hstep; [| done]. simpl.
    apply IH. by apply (timeLeft_moment m c).
Qed.

Lemma afternoon_moments : is_Some (moments afternoon mounted).
Proof. vm_compute. by eexists. Qed.

Lemma timeLeft_in_range_witness :
  ∃ c', moments afternoon mounted = Some c' ∧ 0 ≤ timeLeft c' ≤ 60.
Proof.
  destruct afternoon_moments as [c' Hrun]. exists c'. split; [exact Hrun |].
  apply (timeLeft_in_range afternoon mounted c'); [| cbn; lia | exact Hrun].
  unfold afternoon. repeat (apply Forall_cons_2 || apply Forall_nil_2); try exact I.
  - intros a t res data [= <- <-] [= <-]. cbn. lia.
  - intros a t res data Hnet. discriminate Hnet.
Defined.
